(** * Static site index generator: a shallow embedding of [src/main.ts]

    The action walks a directory tree and writes an [index.html] and/or an
    [index.json] into every directory it visits.  This file embeds the walk
    ([walkAndGenerate]), the pattern filter ([shouldIgnore],
    [parseIgnorePatterns]), the renderer ([generateHtml], [escapeHtml],
    [formatFileSize]) and the entry point ([run]), and states the properties
    of the specification over them.

    Strings are byte strings ([string]); the characters the program inspects
    (slash, backslash, comma, newline, ampersand, angle brackets, double
    quote, dollar) are ASCII, and an ASCII byte never occurs inside a
    multi-byte UTF-8 sequence, so the byte view and the code-unit view of the
    source agree on every operation modelled here. *)

From Stdlib Require Import String Ascii List ZArith Lia Bool Arith.
From Stdlib Require Import DecimalString Sorted OrderedTypeEx Permutation.
Import ListNotations.

Set Warnings "-register-all".

Local Open Scope list_scope.
Local Open Scope string_scope.

(** ** Strings *)

Module Str.

(** The double quote, by its code. *)
Definition dq : string := String (ascii_of_nat 34) EmptyString.

(** The line feed of a template literal. *)
Definition nl : string := String (ascii_of_nat 10) EmptyString.

Definition ofBytes (l : list nat) : string :=
  fold_right (fun n s => String (ascii_of_nat n) s) EmptyString l.

(** JavaScript [a || b] on strings: the empty string is falsy. *)
Definition orElse (a b : string) : string :=
  match a with EmptyString => b | _ => a end.

Definition isEmpty (s : string) : bool :=
  match s with EmptyString => true | _ => false end.

(** [s.split(re)] for a pattern [re] that matches one character: the
    pieces between the characters [sep] accepts. *)
Fixpoint splitBy (sep : ascii -> bool) (s : string) : list string :=
  match s with
  | EmptyString => [EmptyString]
  | String a r =>
      if sep a then EmptyString :: splitBy sep r
      else match splitBy sep r with
           | h :: t => String a h :: t
           | [] => [String a EmptyString]
           end
  end.

Definition splitOn (c : ascii) : string -> list string := splitBy (Ascii.eqb c).

(** [s.replace(/c/g, r)] for a one-character pattern. *)
Fixpoint replaceAll (c : ascii) (r : string) (s : string) : string :=
  match s with
  | EmptyString => EmptyString
  | String a t => if Ascii.eqb a c then r ++ replaceAll c r t
                  else String a (replaceAll c r t)
  end.

Fixpoint startsWith (p s : string) : bool :=
  match p, s with
  | EmptyString, _ => true
  | String a p', String b s' => Ascii.eqb a b && startsWith p' s'
  | String _ _, EmptyString => false
  end.

(** [s.includes(needle)]. *)
Fixpoint includes (needle s : string) : bool :=
  startsWith needle s ||
  match s with
  | EmptyString => false
  | String _ s' => includes needle s'
  end.

Fixpoint drop (n : nat) (s : string) : string :=
  match n, s with
  | S n', String _ s' => drop n' s'
  | _, _ => s
  end.

Fixpoint rev (s : string) : string :=
  match s with
  | EmptyString => EmptyString
  | String a t => rev t ++ String a EmptyString
  end.

(** Decimal rendering of a number ([Number.prototype.toString] on a
    non-negative integer below 2^53). *)
Definition ofNat (n : nat) : string := NilZero.string_of_uint (Nat.to_uint n).
Definition ofZ (z : Z) : string := NilZero.string_of_int (Z.to_int z).

End Str.

(** ** Node's [path] module on POSIX

    [path] is a library the program imports; it is modelled here on the
    paths the program feeds it: absolute paths ([absoluteRoot] and what
    [path.join] makes of it), for which [path.resolve] inside
    [path.relative] is the identity. *)

Module Path.

Definition slash : ascii := ascii_of_nat 47.

Definition nonEmpty (s : string) : bool := negb (Str.isEmpty s).

(** The non-empty pieces between slashes. *)
Definition segments (p : string) : list string :=
  filter nonEmpty (Str.splitOn slash p).

Definition isAbsolute (p : string) : bool := Str.startsWith "/" p.

Definition endsWithSlash (p : string) : bool := Str.startsWith "/" (Str.rev p).

(** [normalizeString]: drops [.] segments and resolves [..] against the
    segment before it; [acc] holds the kept segments, last one first. *)
Fixpoint normalizeSegments (allowAboveRoot : bool) (segs acc : list string)
  : list string :=
  match segs with
  | [] => List.rev acc
  | s :: rest =>
      if String.eqb s "." then normalizeSegments allowAboveRoot rest acc
      else if String.eqb s ".." then
        match acc with
        | a :: acc' =>
            if String.eqb a ".." then normalizeSegments allowAboveRoot rest (s :: acc)
            else normalizeSegments allowAboveRoot rest acc'
        | [] =>
            if allowAboveRoot then normalizeSegments allowAboveRoot rest [s]
            else normalizeSegments allowAboveRoot rest []
        end
      else normalizeSegments allowAboveRoot rest (s :: acc)
  end.

(** [path.normalize]. *)
Definition normalize (p : string) : string :=
  if Str.isEmpty p then "."
  else
    let abs := isAbsolute p in
    let trailing := endsWithSlash p in
    let body := String.concat "/" (normalizeSegments (negb abs) (segments p) []) in
    if Str.isEmpty body then
      (if abs then "/" else if trailing then "./" else ".")
    else
      let body := if trailing then body ++ "/" else body in
      if abs then "/" ++ body else body.

(** [path.join(a, b)]. *)
Definition join (a b : string) : string :=
  let joined :=
    if Str.isEmpty a then b
    else if Str.isEmpty b then a
    else a ++ "/" ++ b in
  if Str.isEmpty joined then "." else normalize joined.

(** The common leading segments are dropped; what is left of [from] turns
    into [..] steps. *)
Fixpoint relativeSegments (from to : list string) : list string :=
  match from, to with
  | a :: from', b :: to' =>
      if String.eqb a b then relativeSegments from' to'
      else map (fun _ => "..") from ++ to
  | _, _ => map (fun _ => "..") from ++ to
  end.

(** [path.relative(from, to)] on absolute paths. *)
Definition relative (from to : string) : string :=
  String.concat "/" (relativeSegments (segments from) (segments to)).

(** [path.basename(p)]: the last non-empty segment, or the empty string
    when there is none (as for the path made of a single slash). *)
Definition basename (p : string) : string :=
  last (segments p) EmptyString.

Definition noSlash (s : string) : Prop :=
  existsb (Ascii.eqb slash) (list_ascii_of_string s) = false.

(** What [readdir] can return as a name: not empty, no slash, and neither
    of the two dot entries. *)
Definition validName (n : string) : bool :=
  nonEmpty n
  && negb (existsb (Ascii.eqb slash) (list_ascii_of_string n))
  && negb (String.eqb n ".")
  && negb (String.eqb n "..").

(** A path none of whose segments is a dot entry: [path.resolve] only
    returns such paths. *)
Definition clean (p : string) : bool :=
  isAbsolute p && forallb validName (segments p).

(** [dir] lies below [rootDir], at the end of the segments [rel]. *)
Definition below (rootDir dir : string) (rel : list string) : Prop :=
  clean dir = true /\ segments dir = (segments rootDir ++ rel)%list.

End Path.

(** ** Data model *)

Inductive EntryType := file | directory.

Definition EntryType_eqb (a b : EntryType) : bool :=
  match a, b with
  | file, file | directory, directory => true
  | _, _ => false
  end.

Module FileEntry.
Record t := mk {
  name : string;
  type : EntryType;
  size : option Z;
  modified : option string;
  path : string;
}.
End FileEntry.

Module DirectoryIndex.
Record t := mk {
  path : string;
  entries : list FileEntry.t;
  generated : string;
}.
End DirectoryIndex.

(** What the file system holds at a path, as [fs.readdirSync] with
    [withFileTypes] and [fs.statSync] report it.  A [Dirent] that is neither
    [isFile()] nor [isDirectory()] (a symbolic link, a socket, a FIFO, a
    device) is [Special]; [size] is the number [stat.size], in bytes, and
    [mtime] is in milliseconds since the epoch. *)
Inductive Node :=
| File (name : string) (size : Z) (mtime : Z)
| Directory (name : string) (items : list Node)
| Special (name : string).

Definition nodeName (n : Node) : string :=
  match n with
  | File name _ _ | Directory name _ | Special name => name
  end.

Definition isDirectory (n : Node) : bool :=
  match n with Directory _ _ => true | _ => false end.

Definition isFile (n : Node) : bool :=
  match n with File _ _ _ => true | _ => false end.

(** Neither [isFile()] nor [isDirectory()]. *)
Definition isOther (n : Node) : bool :=
  match n with Special _ => true | _ => false end.

(** Every name in the tree below a node is one [readdir] can return. *)
Fixpoint validItems (n : Node) : bool :=
  match n with
  | Directory _ items =>
      forallb (fun i => Path.validName (nodeName i) && validItems i) items
  | _ => true
  end.

(** ** The world the action runs in *)

(** What the program takes from its runtime and its libraries: glob
    matching, collation, dates, JSON serialisation, the working directory,
    the clock, and what the operating system does with a write onto a
    special file.  None of them is in the repository. *)
Record Runtime := {
  (** [minimatch(path, pattern, { dot: true })] *)
  minimatch : string -> string -> bool;
  (** [a.localeCompare(b)] *)
  localeCompare : string -> string -> Z;
  (** [date.toISOString()] of a time in milliseconds *)
  toISOString : Z -> string;
  (** [new Date(iso).toLocaleDateString('en-US', ...)] with numeric year,
      short month and numeric day *)
  toLocaleDateString : string -> string;
  (** [JSON.stringify(index, null, 2)] *)
  JSON_stringify : DirectoryIndex.t -> string;
  (** [path.resolve(p)], which depends on the working directory *)
  resolve : string -> string;
  (** the time the n-th [new Date()] of the run reads *)
  clock : nat -> Z;
  (** [fs.writeFileSync] on a path that holds neither a regular file nor a
      directory: [None] when the data is written, the message of the error
      when the call throws.  It depends on the kind of the file and, for a
      symbolic link, on what the link points to, which the tree does not
      record. *)
  writeSpecial : string -> option string;
}.

Record Stats := mkStats {
  generatedCount : nat;
  directoriesScanned : nat;
}.

(** Calls into [@actions/core], in the order they are made. *)
Inductive CoreCall :=
| info (message : string)
| debug (message : string)
| setOutput (name value : string)
| setFailed (message : string).

(** The state the run threads: the [stats] object every call of the walk
    shares, the files written so far (path and content, oldest first), the
    calls made into [core] and the number of clock reads.  [assembled] is a
    history variable: the [index] objects built so far, each with the
    directory it was built for. *)
Record World := mkWorld {
  stats : Stats;
  written : list (string * string);
  coreCalls : list CoreCall;
  clockReads : nat;
  assembled : list (string * DirectoryIndex.t);
}.

Definition initialWorld : World :=
  mkWorld (mkStats 0 0) [] [] 0 [].

(** How a call ends: it returns, or it throws an [Error] with a message. *)
Inductive Completion (A : Type) :=
| Return (a : A)
| Throw (message : string).
Arguments Return {A} a.
Arguments Throw {A} message.

Definition Eff (A : Type) : Type := World -> Completion A * World.

Definition ret {A} (a : A) : Eff A := fun w => (Return a, w).

Definition bind {A B} (c : Eff A) (k : A -> Eff B) : Eff B :=
  fun w =>
    match c w with
    | (Return a, w') => k a w'
    | (Throw m, w') => (Throw m, w')
    end.

Definition throw {A} (message : string) : Eff A := fun w => (Throw message, w).

(** [try { body } catch (error) { handler(error.message) }] *)
Definition tryCatch {A} (body : Eff A) (handler : string -> Eff A) : Eff A :=
  fun w =>
    match body w with
    | (Return a, w') => (Return a, w')
    | (Throw m, w') => handler m w'
    end.

Declare Scope eff_scope.
Delimit Scope eff_scope with eff.
Notation "x <- c1 ;; c2" := (bind c1 (fun x => c2))
  (at level 61, c1 at next level, right associativity) : eff_scope.
Notation "c1 ;; c2" := (bind c1 (fun _ => c2))
  (at level 61, right associativity) : eff_scope.
Local Open Scope eff_scope.

Definition modify (f : World -> World) : Eff unit := fun w => (Return tt, f w).

Definition getStats : Eff Stats := fun w => (Return (stats w), w).

Definition setStats (s : Stats) : Eff unit :=
  modify (fun w => mkWorld s (written w) (coreCalls w) (clockReads w) (assembled w)).

(** [stats.directoriesScanned++] *)
Definition incrementDirectoriesScanned : Eff unit :=
  modify (fun w =>
    mkWorld (mkStats (generatedCount (stats w)) (S (directoriesScanned (stats w))))
            (written w) (coreCalls w) (clockReads w) (assembled w)).

(** [stats.generatedCount++] *)
Definition incrementGeneratedCount : Eff unit :=
  modify (fun w =>
    mkWorld (mkStats (S (generatedCount (stats w))) (directoriesScanned (stats w)))
            (written w) (coreCalls w) (clockReads w) (assembled w)).

(** What stands at the path of a write, as far as opening the path for
    writing goes: nothing or a regular file, which is created or
    overwritten; a directory; or a special file. *)
Inductive Target := Writable | IsDirectory | IsSpecial.

(** Whether [items], what a directory holds, has a child of kind [kind]
    under [name]. *)
Definition holds (kind : Node -> bool) (name : string) (items : list Node) : bool :=
  existsb (fun item => kind item && String.eqb (nodeName item) name) items.

(** What a directory that holds [items] has at [name]. *)
Definition targetOf (name : string) (items : list Node) : Target :=
  if holds isDirectory name items then IsDirectory
  else if holds isOther name items then IsSpecial
  else Writable.

(** The error of a write, if it fails.  Opening a directory for writing
    fails with [EISDIR]. *)
Definition writeError (rt : Runtime) (target : Target) (file : string) : option string :=
  match target with
  | Writable => None
  | IsDirectory =>
      Some ("EISDIR: illegal operation on a directory, open '" ++ file ++ "'")
  | IsSpecial => writeSpecial rt file
  end.

(** [fs.writeFileSync(file, data)], where [target] is what the file system
    holds at [file].  The directory of [file] is one the walk has just
    listed; failures that do not come from what stands at [file] (missing
    permissions, a full disk) and a write that blocks (onto a FIFO nobody
    reads) are not modelled. *)
Definition writeFileSync (rt : Runtime) (target : Target) (file data : string)
  : Eff unit :=
  match writeError rt target file with
  | Some message => throw message
  | None =>
      modify (fun w =>
        mkWorld (stats w) (written w ++ [(file, data)]) (coreCalls w) (clockReads w)
                (assembled w))
  end.

Definition core (c : CoreCall) : Eff unit :=
  modify (fun w =>
    mkWorld (stats w) (written w) (coreCalls w ++ [c]) (clockReads w) (assembled w)).

(** [new Date()] *)
Definition newDate (rt : Runtime) : Eff Z :=
  fun w =>
    (Return (clock rt (clockReads w)),
     mkWorld (stats w) (written w) (coreCalls w) (S (clockReads w)) (assembled w)).

Definition recordIndex (dir : string) (index : DirectoryIndex.t) : Eff unit :=
  modify (fun w =>
    mkWorld (stats w) (written w) (coreCalls w) (clockReads w)
            (assembled w ++ [(dir, index)])).

(** ** Pattern filter *)

Module Trim.

(** The code points [String.prototype.trim] removes (WhiteSpace and
    LineTerminator of ECMAScript), in UTF-8. *)
Definition whiteSpace : list string :=
  map Str.ofBytes
    [ [9]; [10]; [11]; [12]; [13]; [32];
      [194; 160]; [225; 154; 128];
      [226; 128; 128]; [226; 128; 129]; [226; 128; 130]; [226; 128; 131];
      [226; 128; 132]; [226; 128; 133]; [226; 128; 134]; [226; 128; 135];
      [226; 128; 136]; [226; 128; 137]; [226; 128; 138];
      [226; 128; 168]; [226; 128; 169]; [226; 128; 175];
      [226; 129; 159]; [227; 128; 128]; [239; 187; 191] ].

Fixpoint stripOne (ws : list string) (s : string) : option string :=
  match ws with
  | [] => None
  | w :: ws' =>
      if Str.startsWith w s then Some (Str.drop (String.length w) s)
      else stripOne ws' s
  end.

Fixpoint stripLeading (ws : list string) (fuel : nat) (s : string) : string :=
  match fuel with
  | O => s
  | S fuel' =>
      match stripOne ws s with
      | Some s' => stripLeading ws fuel' s'
      | None => s
      end
  end.

Definition trimStart (s : string) : string :=
  stripLeading whiteSpace (String.length s) s.

Definition trimEnd (s : string) : string :=
  Str.rev (stripLeading (map Str.rev whiteSpace) (String.length s) (Str.rev s)).

Definition trim (s : string) : string := trimEnd (trimStart s).

End Trim.

Definition parseIgnorePatterns (input : string) : list string :=
  if Str.isEmpty input then []
  else
    filter (fun p => negb (Str.isEmpty p) && negb (Str.startsWith "#" p))
      (map Trim.trim
         (Str.splitBy (fun c => Ascii.eqb c (ascii_of_nat 10) || Ascii.eqb c ",")
            input)).

Section Filter.

Variable rt : Runtime.

Definition normalizeSeparators (relativePath : string) : string :=
  Str.replaceAll (ascii_of_nat 92) "/" relativePath.

(** The [for (const pattern of patterns)] loop of [shouldIgnore]. *)
Fixpoint matchAny (normalizedPath : string) (patterns : list string) : bool :=
  match patterns with
  | [] => false
  | pattern :: rest =>
      if minimatch rt normalizedPath pattern then true
      else if minimatch rt (Path.basename normalizedPath) pattern then true
      else matchAny normalizedPath rest
  end.

Definition shouldIgnore (relativePath : string) (patterns : list string) : bool :=
  matchAny (normalizeSeparators relativePath) patterns.

End Filter.

(** ** Renderer *)

Definition escapeHtml (str : string) : string :=
  Str.replaceAll (ascii_of_nat 34) "&quot;"
    (Str.replaceAll ">" "&gt;"
       (Str.replaceAll "<" "&lt;"
          (Str.replaceAll "&" "&amp;" str))).

(** [(num / den).toFixed(1)] for [0 <= num] and [den] a power of two, where
    the division is exact in double precision: the tenths nearest to the
    quotient, the larger one on a tie.  This is what [toFixed] returns for
    a quotient below 10^21; from there on it writes the number in exponent
    notation, which is not modelled.  The size of a file, which
    [fs.statSync] reports, is below 2^63, and its quotient by 1024 * 1024
    below 2^43. *)
Definition toFixed1 (num den : Z) : string :=
  let n := ((20 * num + den) / (2 * den))%Z in
  Str.ofZ (n / 10) ++ "." ++ Str.ofZ (n mod 10).

Definition formatFileSize (bytes : Z) : string :=
  if (bytes <? 1024)%Z then Str.ofZ bytes ++ " B"
  else if (bytes <? 1024 * 1024)%Z then toFixed1 bytes 1024 ++ " KB"
  else toFixed1 bytes (1024 * 1024) ++ " MB".

Definition formatDate (rt : Runtime) (isoString : string) : string :=
  toLocaleDateString rt isoString.

Module Replace.

(** The first occurrence of [pattern] in [s]: what stands before it and
    what stands after it. *)
Fixpoint find (pattern s : string) : option (string * string) :=
  if Str.startsWith pattern s then
    Some (EmptyString, Str.drop (String.length pattern) s)
  else
    match s with
    | EmptyString => None
    | String a s' =>
        match find pattern s' with
        | Some (before, after) => Some (String a before, after)
        | None => None
        end
    end.

(** [GetSubstitution] for a string pattern, which has no captures: a
    dollar sign followed by a dollar sign, an ampersand, a backquote or an
    apostrophe is a reference, any other dollar sign stands for itself. *)
Fixpoint getSubstitution (matched before after replacement : string) : string :=
  match replacement with
  | EmptyString => EmptyString
  | String c rest =>
      if Ascii.eqb c "$" then
        match rest with
        | String d rest' =>
            if Ascii.eqb d "$" then
              "$" ++ getSubstitution matched before after rest'
            else if Ascii.eqb d "&" then
              matched ++ getSubstitution matched before after rest'
            else if Ascii.eqb d "`" then
              before ++ getSubstitution matched before after rest'
            else if Ascii.eqb d "'" then
              after ++ getSubstitution matched before after rest'
            else String c (getSubstitution matched before after rest)
        | EmptyString => String c EmptyString
        end
      else String c (getSubstitution matched before after rest)
  end.

(** [s.replace(pattern, replacement)] with a string pattern. *)
Definition replace (pattern replacement s : string) : string :=
  match find pattern s with
  | Some (before, after) =>
      before ++ getSubstitution pattern before after replacement ++ after
  | None => s
  end.

End Replace.

Definition iconDirectory : string :=
  Str.ofBytes [239; 163; 191; 195; 188; 195; 172; 195; 133].

Definition iconFile : string :=
  Str.ofBytes [239; 163; 191; 195; 188; 195; 172; 195; 145].

Definition lines (l : list string) : string := String.concat Str.nl l.

Definition getDefaultStyles : string :=
  lines
    [ "<style>";
      "    :root {";
      "      --bg: #1a1a2e;";
      "      --fg: #eef;";
      "      --link: #64b5f6;";
      "      --border: #333;";
      "    }";
      "    body {";
      "      font-family: -apple-system, BlinkMacSystemFont, 'Segoe UI', Roboto, monospace;";
      "      background: var(--bg);";
      "      color: var(--fg);";
      "      max-width: 900px;";
      "      margin: 2rem auto;";
      "      padding: 0 1rem;";
      "    }";
      "    h1 { border-bottom: 1px solid var(--border); padding-bottom: 0.5rem; }";
      "    table { width: 100%; border-collapse: collapse; }";
      "    th, td { text-align: left; padding: 0.5rem; border-bottom: 1px solid var(--border); }";
      "    th:first-child, td:first-child { width: 2rem; text-align: center; }";
      "    .size, .date { text-align: right; color: #888; font-size: 0.9rem; }";
      "    a { color: var(--link); text-decoration: none; }";
      "    a:hover { text-decoration: underline; }";
      "    footer { margin-top: 2rem; color: #666; font-size: 0.8rem; }";
      "  </style>" ].

(** The synthetic row that links to the parent directory. *)
Definition parentRow : string :=
  lines
    [ "    <tr>";
      "      <td>" ++ iconDirectory ++ "</td>";
      "      <td><a href=" ++ Str.dq ++ "../" ++ Str.dq ++ ">../</a></td>";
      "      <td class=" ++ Str.dq ++ "size" ++ Str.dq ++ ">-</td>";
      "      <td class=" ++ Str.dq ++ "date" ++ Str.dq ++ ">-</td>";
      "    </tr>";
      "" ].

Section Render.

Variable rt : Runtime.

Definition entryRow (entry : FileEntry.t) : string :=
  let icon :=
    match FileEntry.type entry with directory => iconDirectory | file => iconFile end in
  let href :=
    match FileEntry.type entry with
    | directory => FileEntry.name entry ++ "/"
    | file => FileEntry.name entry
    end in
  let sizeCell :=
    match FileEntry.size entry with
    | Some bytes => formatFileSize bytes
    | None => "-"
    end in
  let dateCell :=
    match FileEntry.modified entry with
    | Some m => if Str.isEmpty m then "-" else formatDate rt m
    | None => "-"
    end in
  lines
    [ "    <tr>";
      "      <td>" ++ icon ++ "</td>";
      "      <td><a href=" ++ Str.dq ++ escapeHtml href ++ Str.dq ++ ">"
        ++ escapeHtml (FileEntry.name entry)
        ++ match FileEntry.type entry with directory => "/" | file => "" end
        ++ "</a></td>";
      "      <td class=" ++ Str.dq ++ "size" ++ Str.dq ++ ">" ++ sizeCell ++ "</td>";
      "      <td class=" ++ Str.dq ++ "date" ++ Str.dq ++ ">" ++ dateCell ++ "</td>";
      "    </tr>" ].

Definition generateHtml (index : DirectoryIndex.t) (stylesheet titleTemplate : string)
  : string :=
  let title := Replace.replace "{path}" (DirectoryIndex.path index) titleTemplate in
  let stylesheetLink :=
    if Str.isEmpty stylesheet then getDefaultStyles
    else "<link rel=" ++ Str.dq ++ "stylesheet" ++ Str.dq ++ " href=" ++ Str.dq
         ++ escapeHtml stylesheet ++ Str.dq ++ ">" in
  let rows := lines (map entryRow (DirectoryIndex.entries index)) in
  let parentLink :=
    if String.eqb (DirectoryIndex.path index) "/" then "" else parentRow in
  lines
    [ "<!DOCTYPE html>";
      "<html lang=" ++ Str.dq ++ "en" ++ Str.dq ++ ">";
      "<head>";
      "  <meta charset=" ++ Str.dq ++ "UTF-8" ++ Str.dq ++ ">";
      "  <meta name=" ++ Str.dq ++ "viewport" ++ Str.dq ++ " content=" ++ Str.dq
        ++ "width=device-width, initial-scale=1.0" ++ Str.dq ++ ">";
      "  <title>" ++ escapeHtml title ++ "</title>";
      "  " ++ stylesheetLink;
      "</head>";
      "<body>";
      "  <h1>" ++ escapeHtml title ++ "</h1>";
      "  <table>";
      "    <thead>";
      "      <tr>";
      "        <th></th>";
      "        <th>Name</th>";
      "        <th>Size</th>";
      "        <th>Modified</th>";
      "      </tr>";
      "    </thead>";
      "    <tbody>";
      parentLink ++ rows;
      "    </tbody>";
      "  </table>";
      "  <footer>";
      "    <p>Generated " ++ formatDate rt (DirectoryIndex.generated index) ++ "</p>";
      "  </footer>";
      "</body>";
      "</html>" ].

End Render.

(** ** Sorting *)

Section Sort.

Context {A : Type} (compareFn : A -> A -> Z).

Fixpoint insertSorted (x : A) (l : list A) : list A :=
  match l with
  | [] => [x]
  | y :: l' =>
      if (compareFn x y <=? 0)%Z then x :: l else y :: insertSorted x l'
  end.

(** [array.sort(compareFn)].  The sort of ECMAScript is stable, so for a
    comparator that is a consistent ordering its result is the one stable
    arrangement in ascending order; inserting the elements from the last
    to the first, each before the first element it does not exceed,
    computes that arrangement. *)
Definition sort (l : list A) : list A := fold_right insertSorted [] l.

End Sort.

(** ** Tree walker *)

Definition isReserved (name : string) : bool :=
  String.eqb name "index.html" || String.eqb name "index.json".

Section Walk.

Variable rt : Runtime.

(** The arguments every call of the walk passes on unchanged. *)
Variable rootDir : string.
Variable ignorePatterns : list string.
Variable outputFormat : string.
Variable stylesheet : string.
Variable includeMetadata : bool.
Variable titleTemplate : string.

(** The comparator of the [entries.sort] call. *)
Definition compareEntries (a b : FileEntry.t) : Z :=
  if negb (EntryType_eqb (FileEntry.type a) (FileEntry.type b)) then
    match FileEntry.type a with directory => (-1)%Z | file => 1%Z end
  else localeCompare rt (FileEntry.name a) (FileEntry.name b).

(** The entry built for a child that was not skipped; [fs.statSync] reads
    the size and the modification time of a regular file. *)
Definition makeEntry (itemPath itemRelativePath : string) (item : Node)
  : FileEntry.t :=
  let entry :=
    FileEntry.mk (nodeName item)
      (if isDirectory item then directory else file)
      None None itemRelativePath in
  if includeMetadata && isFile item then
    match item with
    | File _ size mtime =>
        FileEntry.mk (FileEntry.name entry) (FileEntry.type entry)
          (Some size) (Some (toISOString rt mtime)) (FileEntry.path entry)
    | _ => entry
    end
  else entry.

(** The [for (const item of items)] loop of a call on [dir]; [walk] is the
    recursive call. *)
Definition collectEntries (walk : string -> Node -> Eff unit) (dir : string)
  : list Node -> list FileEntry.t -> Eff (list FileEntry.t) :=
  fix loop (items : list Node) (entries : list FileEntry.t) {struct items} :=
    match items with
    | [] => ret entries
    | item :: rest =>
        let itemPath := Path.join dir (nodeName item) in
        let itemRelativePath := Path.relative rootDir itemPath in
        if isReserved (nodeName item) then loop rest entries
        else if shouldIgnore rt itemRelativePath ignorePatterns then loop rest entries
        else
          let entry := makeEntry itemPath itemRelativePath item in
          let entries := (entries ++ [entry])%list in
          match item with
          | Directory _ _ => walk itemPath item
          | _ => ret tt
          end ;;
          loop rest entries
    end.

(** What remains of a call once the entries are collected: sort them,
    assemble the index and write the files the output format asks for.
    [items] is what [dir] holds: a write goes onto the child of that name,
    if there is one. *)
Definition finishDirectory (dir relativePath : string) (items : list Node)
  (entries : list FileEntry.t) : Eff unit :=
  let entries := sort compareEntries entries in
  now <- newDate rt ;;
  let index :=
    DirectoryIndex.mk
      (if Str.isEmpty relativePath then "/" else "/" ++ relativePath)
      entries
      (toISOString rt now) in
  recordIndex dir index ;;
  (if String.eqb outputFormat "html" || String.eqb outputFormat "both" then
     writeFileSync rt (targetOf "index.html" items) (Path.join dir "index.html")
       (generateHtml rt index stylesheet titleTemplate) ;;
     incrementGeneratedCount ;;
     core (debug ("Generated HTML index: " ++ relativePath ++ "/index.html"))
   else ret tt) ;;
  (if String.eqb outputFormat "json" || String.eqb outputFormat "both" then
     writeFileSync rt (targetOf "index.json" items) (Path.join dir "index.json")
       (JSON_stringify rt index) ;;
     incrementGeneratedCount ;;
     core (debug ("Generated JSON index: " ++ relativePath ++ "/index.json"))
   else ret tt).

(** [walkAndGenerate(dir, rootDir, ...)], where [node] is what the file
    system holds at [dir].  [fs.readdirSync] throws on a path that is not
    a directory. *)
Fixpoint walkAndGenerate (dir : string) (node : Node) {struct node} : Eff unit :=
  let relativePath := Str.orElse (Path.relative rootDir dir) "/" in
  if shouldIgnore rt relativePath ignorePatterns then
    core (debug ("Skipping ignored directory: " ++ relativePath))
  else
    incrementDirectoriesScanned ;;
    match node with
    | Directory _ items =>
        entries <- collectEntries walkAndGenerate dir items [] ;;
        finishDirectory dir relativePath items entries
    | _ => throw ("ENOTDIR: not a directory, scandir '" ++ dir ++ "'")
    end.

End Walk.

(** ** Entry point *)

Section Run.

Variable rt : Runtime.

(** [core.getInput]: the value of an input, the empty string when it is
    not set. *)
Variable getInput : string -> string.

(** The file system at the start of the run: what it holds at an absolute
    path, if anything. *)
Variable lookup : string -> option Node.

Definition existsSync (p : string) : bool :=
  match lookup p with Some _ => true | None => false end.

Definition run : Eff unit :=
  tryCatch
    (let rootDir := Str.orElse (getInput "root") "." in
     let outputFormat := Str.orElse (getInput "output-format") "both" in
     let stylesheet := getInput "stylesheet" in
     let ignorePatterns := parseIgnorePatterns (getInput "ignore") in
     let includeMetadata := String.eqb (getInput "include-metadata") "true" in
     let titleTemplate := Str.orElse (getInput "title-template") "Index of {path}" in
     core (info ("Scanning directory: " ++ rootDir)) ;;
     core (info ("Output format: " ++ outputFormat)) ;;
     core (info ("Ignore patterns: " ++ String.concat ", " ignorePatterns)) ;;
     let absoluteRoot := resolve rt rootDir in
     match lookup absoluteRoot with
     | None =>
         (* [fs.existsSync(absoluteRoot)] is false *)
         throw ("Root directory does not exist: " ++ absoluteRoot)
     | Some node =>
         setStats (mkStats 0 0) ;;
         walkAndGenerate rt absoluteRoot ignorePatterns outputFormat stylesheet
           includeMetadata titleTemplate absoluteRoot node ;;
         st <- getStats ;;
         core (setOutput "generated-count" (Str.ofNat (generatedCount st))) ;;
         core (setOutput "directories-scanned" (Str.ofNat (directoriesScanned st))) ;;
         (if String.eqb outputFormat "json" || String.eqb outputFormat "both" then
            core (setOutput "manifest-path" (Path.join rootDir "index.json"))
          else ret tt) ;;
         core (info ("Generated " ++ Str.ofNat (generatedCount st)
                     ++ " index files across "
                     ++ Str.ofNat (directoriesScanned st) ++ " directories"))
     end)
    (fun message => core (setFailed message)).

End Run.

(** ** A runtime to evaluate examples with *)

Module Sample.

(** [minimatch] on patterns without glob characters, where a pattern
    matches the paths equal to it. *)
Definition literalMatch (p pattern : string) : bool := String.eqb p pattern.

Definition lowerChar (c : ascii) : ascii :=
  let n := nat_of_ascii c in
  if Nat.leb 65 n && Nat.leb n 90 then ascii_of_nat (n + 32) else c.

Definition swapCaseChar (c : ascii) : ascii :=
  let n := nat_of_ascii c in
  if Nat.leb 65 n && Nat.leb n 90 then ascii_of_nat (n + 32)
  else if Nat.leb 97 n && Nat.leb n 122 then ascii_of_nat (n - 32)
  else c.

Fixpoint mapChars (f : ascii -> ascii) (s : string) : string :=
  match s with
  | EmptyString => EmptyString
  | String c s' => String (f c) (mapChars f s')
  end.

Definition sign (c : comparison) : Z :=
  match c with Lt => (-1)%Z | Eq => 0%Z | Gt => 1%Z end.

(** [localeCompare] on words of ASCII letters, as the collation of an
    English locale orders them: alphabetically without regard to case, and
    on a tie the word with the lower-case letter at the first difference
    comes first. *)
Definition letterCollation (a b : string) : Z :=
  match String.compare (mapChars lowerChar a) (mapChars lowerChar b) with
  | Eq => sign (String.compare (mapChars swapCaseChar a) (mapChars swapCaseChar b))
  | c => sign c
  end.

(** [minimatch] on patterns whose only glob character is the question
    mark, which stands for one character other than a slash. *)
Fixpoint questionMatch (p pattern : string) : bool :=
  match p, pattern with
  | EmptyString, EmptyString => true
  | String c p', String q pattern' =>
      (if Ascii.eqb q "?" then negb (Ascii.eqb c "/") else Ascii.eqb c q)
      && questionMatch p' pattern'
  | _, _ => false
  end.

Definition runtime : Runtime :=
  {| minimatch := literalMatch;
     localeCompare := letterCollation;
     toISOString := fun ms => Str.ofZ ms;
     toLocaleDateString := fun iso => iso;
     JSON_stringify := fun index => DirectoryIndex.path index;
     resolve := fun p => p;
     clock := fun n => Z.of_nat n;
     writeSpecial := fun _ => None |}.

(** The same runtime with question marks in patterns. *)
Definition globRuntime : Runtime :=
  {| minimatch := questionMatch;
     localeCompare := letterCollation;
     toISOString := fun ms => Str.ofZ ms;
     toLocaleDateString := fun iso => iso;
     JSON_stringify := fun index => DirectoryIndex.path index;
     resolve := fun p => p;
     clock := fun n => Z.of_nat n;
     writeSpecial := fun _ => None |}.

(** The tree of the test suite: two files and an empty directory. *)
Definition tree : Node :=
  Directory "site"
    [ File "file1.txt" 7 1000; File "file2.json" 2 2000; Directory "subdir" [] ].

(** A directory that carries a reserved name. *)
Definition reservedTree : Node :=
  Directory "site" [ Directory "index.html" [ File "a.txt" 1 1000 ] ].

(** Two files whose names differ in case. *)
Definition caseTree : Node :=
  Directory "site" [ File "B" 1 1000; File "a" 1 2000 ].

Definition onlyRoot (root : string) (name : string) : string :=
  if String.eqb name "root" then root else "".

Definition mount (root : string) (node : Node) (p : string) : option Node :=
  if String.eqb p root then Some node else None.

End Sample.

(** ** What a walk amounts to

    The entries of a directory and the directories a walk visits do not
    depend on the state, so they can be given as functions of the tree; the
    walk is then characterised by the state it leaves ([advance]). *)

Section Visits.

Variable rt : Runtime.
Variable rootDir : string.
Variable ignorePatterns : list string.
Variable outputFormat : string.
Variable stylesheet : string.
Variable includeMetadata : bool.
Variable titleTemplate : string.

(** The [relativePath] of a call on [dir]. *)
Definition relativePathOf (dir : string) : string :=
  Str.orElse (Path.relative rootDir dir) "/".

Definition itemRelativePath (dir : string) (item : Node) : string :=
  Path.relative rootDir (Path.join dir (nodeName item)).

(** The children the loop does not skip. *)
Definition listed (dir : string) (item : Node) : bool :=
  negb (isReserved (nodeName item))
  && negb (shouldIgnore rt (itemRelativePath dir item) ignorePatterns).

Definition entriesOf (dir : string) (items : list Node) : list FileEntry.t :=
  map (fun item =>
         makeEntry rt includeMetadata (Path.join dir (nodeName item))
           (itemRelativePath dir item) item)
      (filter (listed dir) items).

(** The directories a call on [dir] visits when no write fails, each with
    its children, in the order their indexes are assembled: those below a
    child before those below the next child, and [dir] itself last.  A call
    that throws has assembled the indexes of the first of them. *)
Fixpoint visited (dir : string) (node : Node) {struct node}
  : list (string * list Node) :=
  if shouldIgnore rt (relativePathOf dir) ignorePatterns then []
  else
    match node with
    | Directory _ items =>
        flat_map
          (fun item =>
             if listed dir item
             then visited (Path.join dir (nodeName item)) item
             else [])
          items
        ++ [(dir, items)]
    | _ => []
    end.

(** The directories to visit below [dir]: those of the calls its loop
    makes. *)
Definition kidsOf (dir : string) (items : list Node) : list (string * list Node) :=
  flat_map
    (fun item =>
       if listed dir item
       then visited (Path.join dir (nodeName item)) item
       else [])
    items.

(** The index of a visited directory whose [new Date()] is clock read
    number [tick]. *)
Definition indexOf (v : string * list Node) (tick : nat) : DirectoryIndex.t :=
  let relativePath := relativePathOf (fst v) in
  DirectoryIndex.mk
    (if Str.isEmpty relativePath then "/" else "/" ++ relativePath)
    (sort (compareEntries rt) (entriesOf (fst v) (snd v)))
    (toISOString rt (clock rt tick)).

Fixpoint indexesFrom (tick : nat) (vs : list (string * list Node))
  : list (string * DirectoryIndex.t) :=
  match vs with
  | [] => []
  | v :: vs' => (fst v, indexOf v tick) :: indexesFrom (S tick) vs'
  end.

Definition wantsHtml : bool :=
  String.eqb outputFormat "html" || String.eqb outputFormat "both".

Definition wantsJson : bool :=
  String.eqb outputFormat "json" || String.eqb outputFormat "both".

(** The files of an assembled index: what is written for it when no
    write fails. *)
Definition filesOf (di : string * DirectoryIndex.t) : list (string * string) :=
  (if wantsHtml
   then [(Path.join (fst di) "index.html",
          generateHtml rt (snd di) stylesheet titleTemplate)]
   else [])
  ++ (if wantsJson
      then [(Path.join (fst di) "index.json", JSON_stringify rt (snd di))]
      else []).

(** The state after the directories [vs] were visited from [w] and the
    files of each of them written, with [calls] made into [core] on the
    way. *)
Definition advance (w : World) (vs : list (string * list Node))
  (calls : list CoreCall) : World :=
  let indexes := indexesFrom (clockReads w) vs in
  let files := flat_map filesOf indexes in
  mkWorld
    (mkStats (generatedCount (stats w) + List.length files)
             (directoriesScanned (stats w) + List.length vs))
    (written w ++ files)
    (coreCalls w ++ calls)
    (clockReads w + List.length vs)
    (assembled w ++ indexes).

(** The state after [stats.directoriesScanned++]. *)
Definition scanOne (w : World) : World :=
  mkWorld (mkStats (generatedCount (stats w)) (S (directoriesScanned (stats w))))
          (written w) (coreCalls w) (clockReads w) (assembled w).

(** Whether one of the writes of a visited directory fails: a write the
    format asks for, onto a directory, or onto a special file that cannot
    be written. *)
Definition blocked (v : string * list Node) : bool :=
  (wantsHtml
   && match writeError rt (targetOf "index.html" (snd v))
              (Path.join (fst v) "index.html") with
      | Some _ => true | None => false end)
  || (wantsJson
      && match writeError rt (targetOf "index.json" (snd v))
                 (Path.join (fst v) "index.json") with
         | Some _ => true | None => false end).

(** No write of a call on [dir] fails. *)
Definition writable (dir : string) (node : Node) : bool :=
  forallb (fun v => negb (blocked v)) (visited dir node).

(** What a call on [dir] that ended with the state [w'], in whatever way,
    left behind: the indexes of the first of the directories [vs] it was to
    visit, the first of the files of these indexes, one count for each of
    these files, and some calls into [core]. *)
Definition stopped (w : World) (vs : list (string * list Node)) (w' : World) : Prop :=
  exists pre post files rest calls,
    vs = (pre ++ post)%list
    /\ flat_map filesOf (indexesFrom (clockReads w) pre) = (files ++ rest)%list
    /\ assembled w' = (assembled w ++ indexesFrom (clockReads w) pre)%list
    /\ written w' = (written w ++ files)%list
    /\ generatedCount (stats w') = generatedCount (stats w) + List.length files
    /\ coreCalls w' = (coreCalls w ++ calls)%list
    /\ clockReads w' = clockReads w + List.length pre.

(** The directories reached from [dir] through children the loop lists. *)
Fixpoint listedDirectories (dir : string) (node : Node) {struct node} : nat :=
  match node with
  | Directory _ items =>
      S (list_sum
           (map (fun item =>
                   if listed dir item
                   then listedDirectories (Path.join dir (nodeName item)) item
                   else 0)
                items))
  | _ => 0
  end.

(** The non-ignored directories reached from [dir]: the count in the
    words of the specification, which names the pattern filter only. *)
Fixpoint reachableDirectories (dir : string) (node : Node) {struct node} : nat :=
  match node with
  | Directory _ items =>
      S (list_sum
           (map (fun item =>
                   if shouldIgnore rt (itemRelativePath dir item) ignorePatterns
                   then 0
                   else reachableDirectories (Path.join dir (nodeName item)) item)
                items))
  | _ => 0
  end.

(** The directories a walk from the root counts: none when the filter
    ignores the root. *)
Definition countedDirectories (node : Node) : nat :=
  if shouldIgnore rt "/" ignorePatterns then 0
  else listedDirectories rootDir node.

End Visits.

Definition isSetFailed (c : CoreCall) : bool :=
  match c with setFailed _ => true | _ => false end.

(** The indexes a computation adds to the history, and the files it adds. *)
Definition produced (c : Eff unit) (w : World) : list (string * DirectoryIndex.t) :=
  skipn (List.length (assembled w)) (assembled (snd (c w))).

Definition newFiles (c : Eff unit) (w : World) : list (string * string) :=
  skipn (List.length (written w)) (written (snd (c w))).

Definition newCalls (c : Eff unit) (w : World) : list CoreCall :=
  skipn (List.length (coreCalls w)) (coreCalls (snd (c w))).

(** ** Orders on entries *)

(** [a] may stand before [b]: a file is followed by files only, and two
    entries of one type are in the order [le] of their names. *)
Definition entryOrder (le : string -> string -> Prop) (a b : FileEntry.t) : Prop :=
  (FileEntry.type a = file -> FileEntry.type b = file)
  /\ (FileEntry.type a = FileEntry.type b -> le (FileEntry.name a) (FileEntry.name b)).

(** The order of [localeCompare]. *)
Definition localeLe (rt : Runtime) (a b : string) : Prop :=
  (localeCompare rt a b <= 0)%Z.

(** The case-sensitive lexicographic order: byte by byte, a proper prefix
    first. *)
Definition lexLe (a b : string) : Prop := String.leb a b = true.

(** A comparator that orders: any two names are comparable, and the order
    is transitive. *)
Definition consistentComparator (cmp : string -> string -> Z) : Prop :=
  (forall a b, (cmp a b <= 0)%Z \/ (cmp b a <= 0)%Z)
  /\ (forall a b c, (cmp a b <= 0)%Z -> (cmp b c <= 0)%Z -> (cmp a c <= 0)%Z).

(** ** Markup characters *)

Module Markup.

Definition isSpecial (c : ascii) : bool :=
  Ascii.eqb c "&" || Ascii.eqb c "<" || Ascii.eqb c ">"
  || Ascii.eqb c (ascii_of_nat 34).

(** The length of the character reference [s] starts with, if it starts
    with one of the four [escapeHtml] writes. *)
Definition entityAt (s : string) : option nat :=
  if Str.startsWith "&amp;" s then Some 5
  else if Str.startsWith "&lt;" s then Some 4
  else if Str.startsWith "&gt;" s then Some 4
  else if Str.startsWith "&quot;" s then Some 6
  else None.

(** The special characters of [s] that stand for themselves: those
    outside the character references.  [skip] characters are still to be
    passed over as the rest of a reference. *)
Fixpoint rawFrom (skip : nat) (s : string) : string :=
  match s with
  | EmptyString => EmptyString
  | String c rest =>
      match skip with
      | S k => rawFrom k rest
      | O =>
          match entityAt s with
          | Some len => rawFrom (Nat.pred len) rest
          | None =>
              if isSpecial c then String c (rawFrom 0 rest) else rawFrom 0 rest
          end
      end
  end.

Definition raw (s : string) : string := rawFrom 0 s.

(** No ampersand in [s]: no character reference starts in it. *)
Definition noAmp (s : string) : bool :=
  negb (existsb (fun c => Ascii.eqb c "&") (list_ascii_of_string s)).

(** [x] and [y] put the same special characters in front of whatever
    follows them. *)
Definition agree (x y : string) : Prop :=
  forall b b', raw b = raw b' -> raw (x ++ b) = raw (y ++ b').

(** Two entries that differ in their texts only: the name and the path. *)
Definition sameCells (a b : FileEntry.t) : Prop :=
  FileEntry.type a = FileEntry.type b
  /\ FileEntry.size a = FileEntry.size b
  /\ FileEntry.modified a = FileEntry.modified b.

(** Two renderer inputs that differ in user-controlled text only: names,
    paths, the text of the title and the text of the stylesheet URL. *)
Definition sameShape (i j : DirectoryIndex.t) (stylesheet stylesheet' : string)
  : Prop :=
  Forall2 sameCells (DirectoryIndex.entries i) (DirectoryIndex.entries j)
  /\ DirectoryIndex.generated i = DirectoryIndex.generated j
  /\ String.eqb (DirectoryIndex.path i) "/" = String.eqb (DirectoryIndex.path j) "/"
  /\ Str.isEmpty stylesheet = Str.isEmpty stylesheet'.

End Markup.

(** ** Vocabulary of the further properties *)

Local Open Scope list_scope.

(** ** The log and the states of a run *)



Section RunStates.

Variable rt : Runtime.
Variable getInput : string -> string.

(** The state in which the walk of a run starts: the [stats] object is
    fresh and the three lines of [core.info] are logged. *)
Definition walkStart (w : World) : World :=
  mkWorld (mkStats 0 0) (written w)
    (coreCalls w ++
     [ info ("Scanning directory: " ++ Str.orElse (getInput "root") ".");
       info ("Output format: " ++ Str.orElse (getInput "output-format") "both");
       info ("Ignore patterns: "
             ++ String.concat ", " (parseIgnorePatterns (getInput "ignore"))) ])%list
    (clockReads w) (assembled w).

(** What a run logs after a walk that returned in state [w1]: the two
    counters, the manifest path when JSON is asked for, and the summary. *)
Definition reportCalls (w1 : World) : list CoreCall :=
  ([ setOutput "generated-count" (Str.ofNat (generatedCount (stats w1)));
     setOutput "directories-scanned" (Str.ofNat (directoriesScanned (stats w1))) ]
   ++ (if wantsJson (Str.orElse (getInput "output-format") "both")
       then [ setOutput "manifest-path"
                (Path.join (Str.orElse (getInput "root") ".") "index.json") ]
       else [])
   ++ [ info ("Generated " ++ Str.ofNat (generatedCount (stats w1))
              ++ " index files across "
              ++ Str.ofNat (directoriesScanned (stats w1)) ++ " directories") ])%list.

Definition reported (w1 : World) : World :=
  mkWorld (stats w1) (written w1) (coreCalls w1 ++ reportCalls w1)%list
    (clockReads w1) (assembled w1).

End RunStates.

(** ** Clean patterns *)

(** The characters at which [parseIgnorePatterns] splits its input. *)
Definition isSeparator (c : ascii) : bool :=
  Ascii.eqb c (ascii_of_nat 10) || Ascii.eqb c ",".

(** A pattern as [parseIgnorePatterns] keeps them: not empty, not a
    comment, without a separator, and with no white space around it. *)
Definition cleanPattern (p : string) : bool :=
  negb (Str.isEmpty p) && negb (Str.startsWith "#" p)
  && negb (existsb isSeparator (list_ascii_of_string p))
  && String.eqb (Trim.trim p) p.

(** ** The tree without what a walk does not look at *)

Section Pruning.

Variable rt : Runtime.
Variable rootDir : string.
Variable ignorePatterns : list string.

(** What [item], a child of [dir], leaves in the tree that matters to a
    walk.  A child the filter ignores leaves nothing, and neither does a
    regular file named [index.html] or [index.json], which a write
    overwrites.  A directory under one of these names is not entered, but
    a write goes onto it: it stays, without what it holds; a special file
    under one of these names stays. *)
Definition kept (prune : string -> Node -> Node) (dir : string) (item : Node)
  : list Node :=
  if isReserved (nodeName item) then
    match item with
    | File _ _ _ => []
    | Directory name _ => [Directory name []]
    | Special _ => [item]
    end
  else if shouldIgnore rt (itemRelativePath rootDir dir item) ignorePatterns then []
  else [prune (Path.join dir (nodeName item)) item].

(** The tree with what has no effect on a walk left out, at every level. *)
Fixpoint prune (dir : string) (node : Node) {struct node} : Node :=
  match node with
  | Directory name items => Directory name (flat_map (kept prune dir) items)
  | _ => node
  end.

End Pruning.

(** ** Plain text *)

(** Text without any of the four characters [escapeHtml] replaces. *)
Definition plainText (s : string) : bool :=
  forallb (fun c => negb (Markup.isSpecial c)) (list_ascii_of_string s).

(** No character [c] in [s]. *)
Definition lacks (c : ascii) (s : string) : bool :=
  negb (existsb (Ascii.eqb c) (list_ascii_of_string s)).

(** * Properties *)

Local Open Scope list_scope.

(** ** Strings and paths *)

Module StrFacts.

Lemma append_nil_r (s : string) : (s ++ "")%string = s.
Proof. induction s; simpl; congruence. Qed.

Lemma append_assoc (a b c : string) : ((a ++ b) ++ c = a ++ (b ++ c))%string.
Proof. induction a; simpl; congruence. Qed.

Lemma length_append (a b : string) :
  String.length (a ++ b) = String.length a + String.length b.
Proof. induction a; simpl; auto. Qed.

Lemma isEmpty_true s : Str.isEmpty s = true -> s = "".
Proof. destruct s; [reflexivity | discriminate]. Qed.

Lemma orElse_not_empty a b : Str.isEmpty b = false -> Str.isEmpty (Str.orElse a b) = false.
Proof. destruct a; simpl; auto. Qed.

Lemma orElse_of_not_empty a b : Str.isEmpty a = false -> Str.orElse a b = a.
Proof. destruct a; simpl; [discriminate | reflexivity]. Qed.

Lemma splitBy_not_nil sep s : Str.splitBy sep s <> [].
Proof.
  destruct s as [| a s]; simpl; [discriminate |].
  destruct (sep a); [discriminate |].
  destruct (Str.splitBy sep s); discriminate.
Qed.

Lemma splitBy_app sep a c b :
  sep c = true ->
  Str.splitBy sep (a ++ String c b) = Str.splitBy sep a ++ Str.splitBy sep b.
Proof.
  intros Hc. induction a as [| d a IH]; simpl.
  - now rewrite Hc.
  - destruct (sep d).
    + now rewrite IH.
    + rewrite IH. destruct (Str.splitBy sep a) eqn:Ha.
      * now apply splitBy_not_nil in Ha.
      * reflexivity.
Qed.

Lemma splitBy_none sep s :
  existsb sep (list_ascii_of_string s) = false -> Str.splitBy sep s = [s].
Proof.
  induction s as [| a s IH]; simpl; [reflexivity |].
  intros H. apply orb_false_iff in H. destruct H as [Ha Hs].
  now rewrite Ha, (IH Hs).
Qed.

Lemma list_ascii_app a b :
  list_ascii_of_string (a ++ b) = list_ascii_of_string a ++ list_ascii_of_string b.
Proof. induction a; simpl; congruence. Qed.

Lemma startsWith_app p a b :
  Str.startsWith p a = true -> Str.startsWith p (a ++ b) = true.
Proof.
  revert a. induction p as [| c p IH]; intros a; simpl; [reflexivity |].
  destruct a as [| d a]; simpl; [discriminate |].
  intros H. apply andb_true_iff in H. destruct H as [-> H]. simpl. now apply IH.
Qed.

Lemma includes_prefix needle rest : Str.includes needle (needle ++ rest) = true.
Proof.
  assert (H : Str.startsWith needle (needle ++ rest) = true).
  { induction needle as [| c n IH]; simpl; [reflexivity |].
    now rewrite Ascii.eqb_refl, IH. }
  destruct needle; simpl in *; [destruct rest; reflexivity |].
  now rewrite H.
Qed.

Lemma includes_app_r needle a b :
  Str.includes needle b = true -> Str.includes needle (a ++ b) = true.
Proof.
  intros H. induction a as [| c a IH]; simpl; [exact H |].
  rewrite IH. apply orb_true_r.
Qed.

End StrFacts.

Module PathFacts.

Import StrFacts.

Lemma validName_inv n :
  Path.validName n = true ->
  Str.isEmpty n = false /\ Path.noSlash n /\ n <> "." /\ n <> "..".
Proof.
  unfold Path.validName, Path.nonEmpty, Path.noSlash. intros H.
  repeat (apply andb_true_iff in H; destruct H as [H ?]).
  repeat match goal with
         | H : negb _ = true |- _ => apply negb_true_iff in H
         end.
  repeat split; auto; now apply String.eqb_neq.
Qed.

Lemma segments_app a b :
  Path.segments (a ++ "/" ++ b) = Path.segments a ++ Path.segments b.
Proof.
  unfold Path.segments, Str.splitOn. change ("/" ++ b)%string with (String "/" b).
  rewrite splitBy_app by reflexivity. apply filter_app.
Qed.

Lemma segments_slash s : Path.segments ("/" ++ s) = Path.segments s.
Proof. reflexivity. Qed.

Lemma segments_name n :
  Str.isEmpty n = false -> Path.noSlash n -> Path.segments n = [n].
Proof.
  intros He Hs. unfold Path.segments, Str.splitOn.
  rewrite splitBy_none by exact Hs. simpl. unfold Path.nonEmpty. now rewrite He.
Qed.

Lemma segments_concat l :
  Forall (fun n => Path.validName n = true) l ->
  Path.segments (String.concat "/" l) = l.
Proof.
  induction 1 as [| n l Hn Hl IH]; [reflexivity |].
  apply validName_inv in Hn. destruct Hn as (He & Hs & _).
  destruct l as [| m l].
  - simpl. now apply segments_name.
  - change (String.concat "/" (n :: m :: l))
      with (n ++ "/" ++ String.concat "/" (m :: l))%string.
    now rewrite segments_app, IH, segments_name.
Qed.

Lemma normalizeSegments_valid allow l acc :
  Forall (fun n => Path.validName n = true) l ->
  Path.normalizeSegments allow l acc = List.rev acc ++ l.
Proof.
  intros H. revert acc. induction H as [| n l Hn Hl IH]; intros acc; simpl.
  - now rewrite app_nil_r.
  - apply validName_inv in Hn. destruct Hn as (_ & _ & Hd & Hdd).
    apply String.eqb_neq in Hd, Hdd. rewrite Hd, Hdd, IH. simpl.
    now rewrite <- app_assoc.
Qed.

Lemma concat_not_empty l n :
  Str.isEmpty n = false -> Str.isEmpty (String.concat "/" (l ++ [n])) = false.
Proof.
  intros Hn. destruct l as [| a l]; simpl; [exact Hn |].
  destruct (l ++ [n]) eqn:E.
  - now destruct l.
  - destruct a; reflexivity.
Qed.

Lemma rev_app a b : Str.rev (a ++ b) = (Str.rev b ++ Str.rev a)%string.
Proof.
  induction a as [| c a IH]; simpl.
  - now rewrite append_nil_r.
  - now rewrite IH, append_assoc.
Qed.

Lemma noSlash_rev n : Path.noSlash n -> Path.noSlash (Str.rev n).
Proof.
  unfold Path.noSlash. induction n as [| c n IH]; simpl; [auto |].
  intros H. apply orb_false_iff in H. destruct H as [Hc Hn].
  rewrite list_ascii_app, existsb_app, (IH Hn). simpl. now rewrite Hc.
Qed.

Lemma rev_not_empty n : Str.isEmpty n = false -> Str.isEmpty (Str.rev n) = false.
Proof.
  destruct n as [| c n]; [discriminate |]. intros _. simpl.
  destruct (Str.rev n); reflexivity.
Qed.

Lemma endsWithSlash_name a n :
  Str.isEmpty n = false -> Path.noSlash n -> Path.endsWithSlash (a ++ n) = false.
Proof.
  intros He Hs. unfold Path.endsWithSlash. rewrite rev_app.
  apply rev_not_empty in He. apply noSlash_rev in Hs.
  destruct (Str.rev n) as [| c r]; [discriminate |].
  unfold Path.noSlash in Hs. cbn [list_ascii_of_string existsb] in Hs.
  apply orb_false_iff in Hs. destruct Hs as [Hc _].
  cbn [append Str.startsWith].
  change "/"%char with Path.slash. now rewrite Hc.
Qed.

(** Joining a name [readdir] returned to a clean path adds one segment. *)
Lemma join_valid dir n :
  Path.clean dir = true -> Path.validName n = true ->
  Path.clean (Path.join dir n) = true
  /\ Path.segments (Path.join dir n) = Path.segments dir ++ [n].
Proof.
  intros Hc Hn. unfold Path.clean in Hc. apply andb_true_iff in Hc.
  destruct Hc as [Habs Hsegs]. rewrite forallb_forall in Hsegs.
  pose proof (validName_inv _ Hn) as (He & Hs & _).
  assert (Hall : Forall (fun m => Path.validName m = true) (Path.segments dir ++ [n])).
  { apply Forall_app. split; [now apply Forall_forall | now constructor]. }
  assert (Hjoin : Path.join dir n
                  = ("/" ++ String.concat "/" (Path.segments dir ++ [n]))%string).
  { unfold Path.join.
    destruct dir as [| c dir]; [discriminate |].
    destruct n as [| d n]; [discriminate |].
    cbn [Str.isEmpty]. cbv zeta.
    change (Str.isEmpty (String c dir ++ "/" ++ String d n)) with false. cbv iota.
    unfold Path.normalize.
    change (Str.isEmpty (String c dir ++ "/" ++ String d n)) with false. cbv iota zeta.
    rewrite <- append_assoc, endsWithSlash_name by assumption.
    rewrite append_assoc.
    assert (Ha : Path.isAbsolute (String c dir ++ "/" ++ String d n) = true)
      by (now apply startsWith_app).
    rewrite Ha. cbn [negb].
    rewrite segments_app, (segments_name (String d n)) by assumption.
    rewrite normalizeSegments_valid by assumption. cbn [List.rev app].
    now rewrite concat_not_empty. }
  rewrite Hjoin. split.
  - unfold Path.clean. rewrite segments_slash, segments_concat by assumption.
    apply andb_true_iff. split; [reflexivity |].
    apply forallb_forall. now apply Forall_forall.
  - now rewrite segments_slash, segments_concat.
Qed.

Lemma relativeSegments_self l : Path.relativeSegments l l = [].
Proof. induction l as [| a l IH]; simpl; [reflexivity |]. now rewrite String.eqb_refl. Qed.

Lemma relativeSegments_app l r : Path.relativeSegments l (l ++ r) = r.
Proof.
  induction l as [| a l IH]; simpl.
  - now destruct r.
  - now rewrite String.eqb_refl.
Qed.

(** The path of a directory relative to itself is empty. *)
Lemma relative_self dir : Path.relative dir dir = "".
Proof. unfold Path.relative. now rewrite relativeSegments_self. Qed.

Lemma below_root rootDir : Path.clean rootDir = true -> Path.below rootDir rootDir [].
Proof. intros H. split; [exact H | now rewrite app_nil_r]. Qed.

Lemma below_join rootDir dir rel n :
  Path.below rootDir dir rel -> Path.validName n = true ->
  Path.below rootDir (Path.join dir n) (rel ++ [n]).
Proof.
  intros [Hc Hs] Hn. destruct (join_valid dir n Hc Hn) as [Hc' Hs'].
  split; [exact Hc' |]. now rewrite Hs', Hs, <- app_assoc.
Qed.

Lemma relative_below rootDir dir rel :
  Path.below rootDir dir rel -> Path.relative rootDir dir = String.concat "/" rel.
Proof. intros [_ Hs]. unfold Path.relative. now rewrite Hs, relativeSegments_app. Qed.

(** Below the root, the [relativePath] of a call on a child is the relative
    path the loop tested. *)
Lemma relativePathOf_child rootDir dir rel item :
  Path.below rootDir dir rel -> Path.validName (nodeName item) = true ->
  relativePathOf rootDir (Path.join dir (nodeName item))
  = itemRelativePath rootDir dir item.
Proof.
  intros Hb Hn. unfold relativePathOf, itemRelativePath.
  apply orElse_of_not_empty.
  rewrite (relative_below _ _ _ (below_join _ _ _ _ Hb Hn)).
  apply concat_not_empty. now apply validName_inv in Hn.
Qed.

(** Below the root, the base name of the relative path of a child is the
    name of the child. *)
Lemma basename_child rootDir dir rel item :
  Path.below rootDir dir rel -> Path.validName (nodeName item) = true ->
  Path.basename (itemRelativePath rootDir dir item) = nodeName item.
Proof.
  intros Hb Hn. unfold itemRelativePath, Path.basename.
  pose proof (below_join _ _ _ _ Hb Hn) as Hb'.
  rewrite (relative_below _ _ _ Hb').
  destruct Hb' as [Hc Hs]. unfold Path.clean in Hc.
  apply andb_true_iff in Hc. destruct Hc as [_ Hall].
  rewrite Hs, forallb_app in Hall. apply andb_true_iff in Hall.
  destruct Hall as [_ Hrel]. rewrite forallb_forall in Hrel.
  rewrite segments_concat by (now apply Forall_forall).
  apply last_last.
Qed.

End PathFacts.

(** ** Sorting *)


Section SortFacts.

Context {A : Type} (compareFn : A -> A -> Z).

Local Abbreviation le := (fun x y => (compareFn x y <= 0)%Z).

Lemma insertSorted_In x y l :
  In y (insertSorted compareFn x l) <-> y = x \/ In y l.
Proof.
  induction l as [| z l IH]; simpl.
  - intuition.
  - destruct (compareFn x z <=? 0)%Z; simpl; rewrite ?IH; intuition.
Qed.

(** Sorting keeps the elements. *)
Lemma sort_In y l : In y (sort compareFn l) <-> In y l.
Proof.
  induction l as [| x l IH]; simpl.
  - tauto.
  - rewrite insertSorted_In, IH. intuition.
Qed.

Lemma sort_length l : length (sort compareFn l) = length l.
Proof.
  assert (Hins : forall x l', length (insertSorted compareFn x l') = S (length l')).
  { intros x l'. induction l' as [| z l' IH]; simpl; auto.
    destruct (compareFn x z <=? 0)%Z; simpl; auto. }
  induction l as [| x l IH]; simpl; auto. now rewrite Hins, IH.
Qed.

Hypothesis total : forall x y, le x y \/ le y x.
Hypothesis transitive : forall x y z, le x y -> le y z -> le x z.

Lemma insertSorted_sorted x l :
  StronglySorted le l -> StronglySorted le (insertSorted compareFn x l).
Proof.
  induction 1 as [| z l Hl IH Hz]; simpl.
  - repeat constructor.
  - destruct (Z.leb_spec (compareFn x z) 0) as [Hle | Hgt].
    + constructor.
      * now constructor.
      * constructor; [exact Hle |].
        eapply Forall_impl; [| exact Hz]. intros a Ha. now apply transitive with z.
    + constructor; [exact IH |].
      apply Forall_forall. intros a Ha. apply insertSorted_In in Ha.
      destruct Ha as [-> | Ha].
      * destruct (total x z); [lia | assumption].
      * rewrite Forall_forall in Hz. now apply Hz.
Qed.

(** For a comparator that orders, the result is in ascending order. *)
Lemma sort_sorted l : StronglySorted le (sort compareFn l).
Proof.
  induction l as [| x l IH]; simpl.
  - constructor.
  - now apply insertSorted_sorted.
Qed.

End SortFacts.

Lemma StronglySorted_weaken {A} (R S : A -> A -> Prop) l :
  (forall x y, R x y -> S x y) -> StronglySorted R l -> StronglySorted S l.
Proof.
  intros HRS. induction 1 as [| x l Hl IH Hx]; constructor; auto.
  eapply Forall_impl; [| exact Hx]. auto.
Qed.

Section EntryOrder.

Variable rt : Runtime.

Lemma compareEntries_order a b :
  (compareEntries rt a b <= 0)%Z -> entryOrder (localeLe rt) a b.
Proof.
  unfold compareEntries, entryOrder, localeLe.
  destruct (FileEntry.type a), (FileEntry.type b); simpl; intros H; split;
    intros; try discriminate; try lia; auto.
Qed.

Hypothesis consistent : consistentComparator (localeCompare rt).

Lemma compareEntries_total a b :
  (compareEntries rt a b <= 0)%Z \/ (compareEntries rt b a <= 0)%Z.
Proof.
  unfold compareEntries.
  destruct (FileEntry.type a), (FileEntry.type b); simpl;
    try (left; lia); try (right; lia); apply consistent.
Qed.

Lemma compareEntries_transitive a b c :
  (compareEntries rt a b <= 0)%Z -> (compareEntries rt b c <= 0)%Z ->
  (compareEntries rt a c <= 0)%Z.
Proof.
  unfold compareEntries.
  destruct (FileEntry.type a), (FileEntry.type b), (FileEntry.type c); simpl;
    try lia; apply consistent.
Qed.

(** The entries of an index are in the order of the comparator. *)
Lemma sorted_entries l :
  StronglySorted (entryOrder (localeLe rt)) (sort (compareEntries rt) l).
Proof.
  apply StronglySorted_weaken with (R := fun x y => (compareEntries rt x y <= 0)%Z).
  - apply compareEntries_order.
  - apply sort_sorted.
    + apply compareEntries_total.
    + apply compareEntries_transitive.
Qed.

End EntryOrder.

(** ** The sample collation orders *)

Module SampleFacts.

Lemma compare_lt_trans a b c :
  String.compare a b = Lt -> String.compare b c = Lt -> String.compare a c = Lt.
Proof.
  intros H1 H2. apply String_as_OT.cmp_lt in H1. apply String_as_OT.cmp_lt in H2.
  apply String_as_OT.cmp_lt. eapply String_as_OT.lt_trans; eassumption.
Qed.

Lemma compare_refl a : String.compare a a = Eq.
Proof. now apply String_as_OT.cmp_eq. Qed.

Lemma compare_le_trans a b c :
  String.compare a b <> Gt -> String.compare b c <> Gt -> String.compare a c <> Gt.
Proof.
  intros H1 H2.
  destruct (String.compare a b) eqn:Hab; try congruence.
  - apply String.compare_eq_iff in Hab. now subst.
  - destruct (String.compare b c) eqn:Hbc; try congruence.
    + apply String.compare_eq_iff in Hbc. subst. now rewrite Hab.
    + now rewrite (compare_lt_trans _ _ _ Hab Hbc).
Qed.

Lemma letterCollation_le a b :
  (Sample.letterCollation a b <= 0)%Z <->
  String.compare (Sample.mapChars Sample.lowerChar a)
                 (Sample.mapChars Sample.lowerChar b) = Lt
  \/ (String.compare (Sample.mapChars Sample.lowerChar a)
                     (Sample.mapChars Sample.lowerChar b) = Eq
      /\ String.compare (Sample.mapChars Sample.swapCaseChar a)
                        (Sample.mapChars Sample.swapCaseChar b) <> Gt).
Proof.
  unfold Sample.letterCollation.
  destruct (String.compare (Sample.mapChars Sample.lowerChar a) _);
    [destruct (String.compare (Sample.mapChars Sample.swapCaseChar a) _) | |];
    simpl; split; intros H; try lia; auto;
    try (right; split; congruence);
    destruct H as [H | [H H']]; congruence.
Qed.

Lemma letterCollation_consistent : consistentComparator Sample.letterCollation.
Proof.
  split.
  - intros a b. rewrite !letterCollation_le.
    rewrite (String.compare_antisym (Sample.mapChars Sample.lowerChar a)).
    rewrite (String.compare_antisym (Sample.mapChars Sample.swapCaseChar a)).
    destruct (String.compare (Sample.mapChars Sample.lowerChar b) _);
      destruct (String.compare (Sample.mapChars Sample.swapCaseChar b) _);
      simpl; intuition congruence.
  - intros a b c. rewrite !letterCollation_le.
    intros [H1 | [H1 H1']] [H2 | [H2 H2']].
    + left. eapply compare_lt_trans; eassumption.
    + left. apply String.compare_eq_iff in H2. now rewrite <- H2.
    + left. apply String.compare_eq_iff in H1. now rewrite H1.
    + right. split.
      * apply String.compare_eq_iff in H1. now rewrite H1.
      * eapply compare_le_trans; eassumption.
Qed.

End SampleFacts.

(** ** The walk as a function of the tree *)

(** Induction on a tree, with the hypothesis on every child of a
    directory. *)
Lemma Node_nested_ind (P : Node -> Prop) :
  (forall name size mtime, P (File name size mtime)) ->
  (forall name items, Forall P items -> P (Directory name items)) ->
  (forall name, P (Special name)) ->
  forall n, P n.
Proof.
  intros HF HD HS. fix IH 1. intros [name size mtime | name items | name].
  - apply HF.
  - apply HD. induction items as [| i items IHitems]; constructor.
    + apply IH.
    + exact IHitems.
  - apply HS.
Qed.

Section WalkSpec.

Variable rt : Runtime.
Variable rootDir : string.
Variable ignorePatterns : list string.
Variable outputFormat : string.
Variable stylesheet : string.
Variable includeMetadata : bool.
Variable titleTemplate : string.

Local Abbreviation walk :=
  (walkAndGenerate rt rootDir ignorePatterns outputFormat stylesheet
     includeMetadata titleTemplate).
Local Abbreviation adv :=
  (advance rt rootDir ignorePatterns outputFormat stylesheet includeMetadata
     titleTemplate).
Local Abbreviation stop :=
  (stopped rt rootDir ignorePatterns outputFormat stylesheet includeMetadata
     titleTemplate).
Local Abbreviation idxs :=
  (indexesFrom rt rootDir ignorePatterns includeMetadata).
Local Abbreviation files := (filesOf rt outputFormat stylesheet titleTemplate).
Local Abbreviation visits := (visited rt rootDir ignorePatterns).
Local Abbreviation kids := (kidsOf rt rootDir ignorePatterns).
Local Abbreviation free := (fun v => negb (blocked rt outputFormat v)).

Lemma indexesFrom_app tick vs1 vs2 :
  idxs tick (vs1 ++ vs2) = idxs tick vs1 ++ idxs (tick + length vs1) vs2.
Proof.
  revert tick. induction vs1 as [| v vs1 IH]; intros tick; simpl.
  - now rewrite Nat.add_0_r.
  - rewrite IH. do 3 f_equal. lia.
Qed.

Lemma indexesFrom_length tick vs : length (idxs tick vs) = length vs.
Proof. revert tick. induction vs; intros; simpl; auto. Qed.

Lemma advance_nil w : adv w [] [] = w.
Proof.
  destruct w as [[g d] wr cc cr asm]. unfold advance. simpl.
  now rewrite !Nat.add_0_r, !app_nil_r.
Qed.

Lemma advance_advance w vs1 c1 vs2 c2 :
  adv (adv w vs1 c1) vs2 c2 = adv w (vs1 ++ vs2) (c1 ++ c2).
Proof.
  unfold advance. simpl.
  rewrite indexesFrom_app, flat_map_app, !length_app, <- !app_assoc.
  f_equal. f_equal; lia. lia.
Qed.

Lemma advance_scanOne w vs calls : adv (scanOne w) vs calls = scanOne (adv w vs calls).
Proof. reflexivity. Qed.

(** A call that visited all its directories stopped after the last. *)
Lemma stopped_advance w vs calls : stop w vs (adv w vs calls).
Proof.
  exists vs, [], (flat_map files (idxs (clockReads w) vs)), [], calls.
  unfold advance. cbn [stats written coreCalls clockReads assembled generatedCount].
  now rewrite !app_nil_r.
Qed.

Lemma stopped_scanOne w vs w' : stop (scanOne w) vs w' -> stop w vs w'.
Proof. intros H. exact H. Qed.

(** Stopping in the second part of the directories, the first part
    visited. *)
Lemma stopped_after w vs1 c1 vs2 w' :
  stop (adv w vs1 c1) vs2 w' -> stop w (vs1 ++ vs2) w'.
Proof.
  intros (pre & post & fs & rest & calls & Hvs & Hfs & Ha & Hw & Hg & Hc & Hk).
  unfold advance in *.
  cbn [stats written coreCalls clockReads assembled generatedCount] in *.
  exists (vs1 ++ pre), post,
    (flat_map files (idxs (clockReads w) vs1) ++ fs), rest, (c1 ++ calls).
  rewrite indexesFrom_app, flat_map_app, Hfs, Hvs, !length_app, Ha, Hw, Hg, Hc, Hk.
  rewrite <- !app_assoc. repeat split; lia.
Qed.

(** Stopping in the first part of the directories. *)
Lemma stopped_before w vs1 vs2 w' : stop w vs1 w' -> stop w (vs1 ++ vs2) w'.
Proof.
  intros (pre & post & fs & rest & calls & Hvs & H).
  exists pre, (post ++ vs2), fs, rest, calls.
  split; [now rewrite Hvs, <- app_assoc | exact H].
Qed.

(** What the last part of a call does: it returns, with the index and the
    files of the directory added, exactly when no write fails. *)
Lemma finishDirectory_outcome dir items w :
  match finishDirectory rt outputFormat stylesheet titleTemplate dir
          (relativePathOf rootDir dir) items
          (entriesOf rt rootDir ignorePatterns includeMetadata dir items) (scanOne w)
  with
  | (Return _, w') =>
      blocked rt outputFormat (dir, items) = false
      /\ exists calls, w' = adv w [(dir, items)] calls
  | (Throw _, w') =>
      blocked rt outputFormat (dir, items) = true /\ stop w [(dir, items)] w'
  end.
Proof.
  unfold finishDirectory, blocked, wantsHtml, wantsJson. cbn [fst snd].
  unfold bind at 1, newDate. unfold bind at 1, recordIndex, modify.
  cbn [stats written coreCalls clockReads assembled scanOne].
  set (index := DirectoryIndex.mk _ _ _).
  assert (Hi : idxs (clockReads w) [(dir, items)] = [(dir, index)]) by reflexivity.
  assert (Hf : files (dir, index)
               = (if String.eqb outputFormat "html" || String.eqb outputFormat "both"
                  then [(Path.join dir "index.html",
                         generateHtml rt index stylesheet titleTemplate)]
                  else [])
                 ++ (if String.eqb outputFormat "json" || String.eqb outputFormat "both"
                     then [(Path.join dir "index.json", JSON_stringify rt index)]
                     else [])) by reflexivity.
  assert (Hadv : forall calls,
             adv w [(dir, items)] calls
             = mkWorld
                 (mkStats (generatedCount (stats w) + length (files (dir, index)))
                          (directoriesScanned (stats w) + 1))
                 (written w ++ files (dir, index)) (coreCalls w ++ calls)
                 (clockReads w + 1) (assembled w ++ [(dir, index)])).
  { intros calls. unfold advance. rewrite Hi. cbn [flat_map length].
    now rewrite app_nil_r. }
  assert (Hstop : forall fs rest calls scanned,
             files (dir, index) = fs ++ rest ->
             stop w [(dir, items)]
               (mkWorld (mkStats (generatedCount (stats w) + length fs) scanned)
                  (written w ++ fs) (coreCalls w ++ calls) (S (clockReads w))
                  (assembled w ++ [(dir, index)]))).
  { intros fs rest calls scanned E. exists [(dir, items)], [], fs, rest, calls.
    rewrite Hi. cbn [flat_map length stats written coreCalls clockReads assembled
                     generatedCount].
    rewrite E. repeat split; rewrite ?app_nil_r; try reflexivity. lia. }
  rewrite Hf in Hadv, Hstop. clear Hf Hi.
  destruct (String.eqb outputFormat "html" || String.eqb outputFormat "both");
    destruct (String.eqb outputFormat "json" || String.eqb outputFormat "both");
    unfold writeFileSync;
    destruct (writeError rt (targetOf "index.html" items) (Path.join dir "index.html"));
    destruct (writeError rt (targetOf "index.json" items) (Path.join dir "index.json"));
    cbn [andb orb];
    unfold bind, throw, ret, incrementGeneratedCount, core, modify;
    cbn [stats written coreCalls clockReads assembled generatedCount directoriesScanned];
    (split; [reflexivity |]).
  all: try (apply (Hstop [] _ [] _ eq_refl)).
  all: try (rewrite <- (Nat.add_0_r (generatedCount (stats w))), <- (app_nil_r (written w)),
              <- (app_nil_r (coreCalls w)); apply (Hstop [] _ [] _ eq_refl)).
  all: try (rewrite <- Nat.add_1_r; apply (Hstop [_] _ [_] _ eq_refl)).
  all: try (eexists; rewrite Hadv; cbn [app length];
            repeat rewrite <- app_assoc; cbn [app];
            f_equal; [f_equal; lia | ..]; try reflexivity; try lia;
            try (symmetry; apply app_nil_r)).
Qed.

(** What a call on a directory does: it returns, with the indexes and the
    files of all the directories it visits added, exactly when none of its
    writes fails; otherwise it throws, stopped on the way. *)
Local Abbreviation walkOutcome node :=
  (forall dir w,
      isDirectory node = true ->
      match walk dir node w with
      | (Return _, w') =>
          writable rt rootDir ignorePatterns outputFormat dir node = true
          /\ exists calls, w' = adv w (visits dir node) calls
      | (Throw _, w') =>
          writable rt rootDir ignorePatterns outputFormat dir node = false
          /\ stop w (visits dir node) w'
      end).

Local Abbreviation collect :=
  (collectEntries rt rootDir ignorePatterns includeMetadata walk).
Local Abbreviation entriesIn :=
  (entriesOf rt rootDir ignorePatterns includeMetadata).
Local Abbreviation isListed := (listed rt rootDir ignorePatterns).

Lemma collect_cons dir item rest entries :
  collect dir (item :: rest) entries =
  if isListed dir item then
    (match item with
     | Directory _ _ => walk (Path.join dir (nodeName item)) item
     | _ => ret tt
     end ;;
     collect dir rest
       (entries ++ [makeEntry rt includeMetadata (Path.join dir (nodeName item))
                      (itemRelativePath rootDir dir item) item]))
  else collect dir rest entries.
Proof.
  unfold listed, itemRelativePath. cbn [collectEntries].
  destruct (isReserved (nodeName item)); [reflexivity |].
  destruct (shouldIgnore rt _ ignorePatterns); reflexivity.
Qed.

Lemma visited_not_directory dir node :
  isDirectory node = false -> visits dir node = [].
Proof.
  destruct node; try discriminate; intros _; cbn [visited];
    destruct (shouldIgnore rt _ ignorePatterns); reflexivity.
Qed.

Lemma collectEntries_outcome dir items :
  Forall (fun item => walkOutcome item) items ->
  forall entries w,
    match collect dir items entries w with
    | (Return es, w') =>
        forallb free (kids dir items) = true
        /\ es = entries ++ entriesIn dir items
        /\ exists calls, w' = adv w (kids dir items) calls
    | (Throw _, w') =>
        forallb free (kids dir items) = false /\ stop w (kids dir items) w'
    end.
Proof.
  induction 1 as [| item rest Hitem _ IH]; intros entries w.
  - cbn. rewrite app_nil_r. repeat split. exists []. now rewrite advance_nil.
  - rewrite collect_cons. unfold kidsOf, entriesOf. cbn [flat_map filter].
    fold (kids dir rest).
    destruct (isListed dir item) eqn:Hl; [| apply IH].
    cbn [map]. unfold bind at 1. rewrite forallb_app.
    destruct (isDirectory item) eqn:Hd.
    + assert (Hw : match item with
                   | Directory _ _ => walk (Path.join dir (nodeName item)) item
                   | _ => ret tt
                   end = walk (Path.join dir (nodeName item)) item)
        by (destruct item; try discriminate; reflexivity).
      rewrite Hw. specialize (Hitem (Path.join dir (nodeName item)) w eq_refl).
      unfold writable in Hitem.
      destruct (walk (Path.join dir (nodeName item)) item w) as [[[] | m] w1].
      * destruct Hitem as [Hfree [c1 ->]]. rewrite Hfree. cbn [andb].
        specialize (IH (entries ++ [makeEntry rt includeMetadata
                                      (Path.join dir (nodeName item))
                                      (itemRelativePath rootDir dir item) item])
                      (adv w (visits (Path.join dir (nodeName item)) item) c1)).
        destruct (collect dir rest _ _) as [[es | m] w2].
        -- destruct IH as (Hf & -> & c2 & ->). split; [exact Hf |].
           split; [now rewrite <- app_assoc |].
           exists (c1 ++ c2). now rewrite advance_advance.
        -- destruct IH as [Hf Hs]. split; [exact Hf |]. now apply stopped_after in Hs.
      * destruct Hitem as [Hfree Hs]. rewrite Hfree. split; [reflexivity |].
        now apply stopped_before.
    + rewrite (visited_not_directory _ _ Hd). cbn [app forallb andb].
      assert (Hw : match item with
                   | Directory _ _ => walk (Path.join dir (nodeName item)) item
                   | _ => ret tt
                   end = ret tt)
        by (destruct item; try discriminate; reflexivity).
      rewrite Hw. unfold ret at 1.
      specialize (IH (entries ++ [makeEntry rt includeMetadata
                                    (Path.join dir (nodeName item))
                                    (itemRelativePath rootDir dir item) item]) w).
      destruct (collect dir rest _ _) as [[es | m] w2]; [| exact IH].
      destruct IH as (Hf & -> & Hc). split; [exact Hf |].
      split; [now rewrite <- app_assoc | exact Hc].
Qed.

Lemma walk_outcome node : walkOutcome node.
Proof.
  induction node as [name size mtime | name items IH | name] using Node_nested_ind;
    intros dir w Hdir; try discriminate.
  unfold writable. cbn [walkAndGenerate visited]. fold (relativePathOf rootDir dir).
  destruct (shouldIgnore rt (relativePathOf rootDir dir) ignorePatterns).
  - split; [reflexivity |].
    exists [debug ("Skipping ignored directory: " ++ relativePathOf rootDir dir)].
    destruct w as [[g d] wr cc cr asm]. unfold advance. cbn.
    now rewrite !Nat.add_0_r, !app_nil_r.
  - fold (kids dir items). rewrite forallb_app. cbn [forallb]. rewrite andb_true_r.
    unfold bind at 1, incrementDirectoriesScanned, modify.
    fold (scanOne w). unfold bind at 1.
    pose proof (collectEntries_outcome dir items IH [] (scanOne w)) as Hc.
    destruct (collect dir items [] (scanOne w)) as [[es | m] w1].
    + destruct Hc as (Hf & -> & c1 & ->). rewrite Hf. cbn [app andb].
      rewrite advance_scanOne.
      pose proof (finishDirectory_outcome dir items (adv w (kids dir items) c1)) as Hd.
      destruct (finishDirectory _ _ _ _ _ _ _ _ _) as [[[] | m] w2].
      * destruct Hd as [Hb [c2 ->]]. rewrite Hb. split; [reflexivity |].
        exists (c1 ++ c2). now rewrite advance_advance.
      * destruct Hd as [Hb Hs]. rewrite Hb. split; [reflexivity |].
        now apply stopped_after in Hs.
    + destruct Hc as [Hf Hs]. rewrite Hf. split; [reflexivity |].
      now apply stopped_before, stopped_scanOne.
Qed.

End WalkSpec.

(** ** What a walk adds to the state *)

Lemma skipn_length_app {A} (l1 l2 : list A) : skipn (length l1) (l1 ++ l2) = l2.
Proof. induction l1; simpl; auto. Qed.

Section WalkFacts.

Variable rt : Runtime.
Variable rootDir : string.
Variable ignorePatterns : list string.
Variable outputFormat : string.
Variable stylesheet : string.
Variable includeMetadata : bool.
Variable titleTemplate : string.

Local Abbreviation walk :=
  (walkAndGenerate rt rootDir ignorePatterns outputFormat stylesheet
     includeMetadata titleTemplate).
Local Abbreviation adv :=
  (advance rt rootDir ignorePatterns outputFormat stylesheet includeMetadata
     titleTemplate).
Local Abbreviation stop :=
  (stopped rt rootDir ignorePatterns outputFormat stylesheet includeMetadata
     titleTemplate).
Local Abbreviation idxs :=
  (indexesFrom rt rootDir ignorePatterns includeMetadata).
Local Abbreviation files := (filesOf rt outputFormat stylesheet titleTemplate).
Local Abbreviation visits := (visited rt rootDir ignorePatterns).
Local Abbreviation canWrite := (writable rt rootDir ignorePatterns outputFormat).
Local Abbreviation outcome :=
  (walk_outcome rt rootDir ignorePatterns outputFormat stylesheet includeMetadata
     titleTemplate).

(** A call on a directory none of whose writes fails returns, with the
    indexes and the files of the directories it visits added. *)
Lemma walk_spec node dir w :
  isDirectory node = true -> canWrite dir node = true ->
  exists calls, walk dir node w = (Return tt, adv w (visits dir node) calls).
Proof.
  intros Hd Hw. pose proof (outcome node dir w Hd) as H.
  destruct (walk dir node w) as [[[] | m] w'].
  - destruct H as [_ [calls ->]]. now exists calls.
  - destruct H as [H _]. congruence.
Qed.

Lemma walk_returns dir name items w :
  canWrite dir (Directory name items) = true ->
  fst (walk dir (Directory name items) w) = Return tt.
Proof.
  intros Hw. destruct (walk_spec (Directory name items) dir w eq_refl Hw) as [calls H].
  now rewrite H.
Qed.


(** A call on anything else adds no index and no file. *)
Lemma walk_not_directory dir node w :
  isDirectory node = false ->
  stats (snd (walk dir node w)) =
    (if shouldIgnore rt (relativePathOf rootDir dir) ignorePatterns
     then stats w else stats (scanOne w))
  /\ written (snd (walk dir node w)) = written w
  /\ assembled (snd (walk dir node w)) = assembled w
  /\ clockReads (snd (walk dir node w)) = clockReads w.
Proof.
  intros Hd. destruct node; try discriminate; cbn [walkAndGenerate];
    fold (relativePathOf rootDir dir);
    destruct (shouldIgnore rt (relativePathOf rootDir dir) ignorePatterns);
    cbn; auto.
Qed.

Lemma walk_not_directory_calls dir node w :
  isDirectory node = false ->
  exists calls, coreCalls (snd (walk dir node w)) = coreCalls w ++ calls.
Proof.
  intros Hd. destruct node; try discriminate; cbn [walkAndGenerate];
    fold (relativePathOf rootDir dir);
    destruct (shouldIgnore rt (relativePathOf rootDir dir) ignorePatterns);
    cbn; eexists; first [reflexivity | symmetry; apply app_nil_r].
Qed.

(** However a call ends, it leaves the indexes of the first directories
    it was to visit and the first of their files. *)
Lemma walk_stopped dir node w : stop w (visits dir node) (snd (walk dir node w)).
Proof.
  destruct (isDirectory node) eqn:Hd.
  - pose proof (outcome node dir w Hd) as H.
    destruct (walk dir node w) as [[[] | m] w']; cbn [snd].
    + destruct H as [_ [calls ->]]. apply stopped_advance.
    + apply H.
  - rewrite (visited_not_directory _ _ _ _ _ Hd).
    destruct (walk_not_directory dir node w Hd) as (Hs & Hw & Ha & Hk).
    destruct (walk_not_directory_calls dir node w Hd) as [calls Hc].
    exists [], [], [], [], calls. cbn [app flat_map indexesFrom length].
    rewrite Ha, Hw, Hc, Hk, Hs, !app_nil_r, !Nat.add_0_r. repeat split.
    now destruct (shouldIgnore rt _ ignorePatterns).
Qed.

(** The state a call that returned leaves. *)
Lemma walk_returned dir node w :
  fst (walk dir node w) = Return tt ->
  exists calls, snd (walk dir node w) = adv w (visits dir node) calls.
Proof.
  intros Hr. destruct (isDirectory node) eqn:Hd.
  - pose proof (outcome node dir w Hd) as H.
    destruct (walk dir node w) as [[[] | m] w']; [| discriminate].
    destruct H as [_ [calls ->]]. now exists calls.
  - rewrite (visited_not_directory _ _ _ _ _ Hd).
    exists [debug ("Skipping ignored directory: " ++ relativePathOf rootDir dir)].
    destruct node; try discriminate; cbn [walkAndGenerate] in Hr |- *;
      fold (relativePathOf rootDir dir) in Hr |- *;
      destruct (shouldIgnore rt _ ignorePatterns); try discriminate;
      destruct w as [[g d] wr cc cr asm]; unfold advance; cbn;
      now rewrite !Nat.add_0_r, !app_nil_r.
Qed.


(** The indexes a call assembles are those of the first directories it
    was to visit. *)
Lemma produced_prefix dir node w :
  exists pre post,
    visits dir node = pre ++ post
    /\ produced (walk dir node) w = idxs (clockReads w) pre.
Proof.
  destruct (walk_stopped dir node w)
    as (pre & post & fs & rest & calls & Hvs & _ & Ha & _).
  exists pre, post. split; [exact Hvs |].
  unfold produced. now rewrite Ha, skipn_length_app.
Qed.

(** The files a call writes are the first of the files of the indexes it
    assembles. *)
Lemma newFiles_prefix dir node w :
  exists rest,
    flat_map files (produced (walk dir node) w) = newFiles (walk dir node) w ++ rest.
Proof.
  destruct (walk_stopped dir node w)
    as (pre & post & fs & rest & calls & _ & Hfs & Ha & Hw & _).
  exists rest. unfold produced, newFiles. now rewrite Ha, Hw, !skipn_length_app.
Qed.


Lemma walk_assembled dir node w :
  fst (walk dir node w) = Return tt ->
  assembled (snd (walk dir node w)) =
  assembled w ++ idxs (clockReads w) (visits dir node).
Proof. intros Hr. destruct (walk_returned dir node w Hr) as [calls ->]. reflexivity. Qed.

Lemma walk_written dir node w :
  fst (walk dir node w) = Return tt ->
  written (snd (walk dir node w)) =
  written w ++ flat_map files (idxs (clockReads w) (visits dir node)).
Proof. intros Hr. destruct (walk_returned dir node w Hr) as [calls ->]. reflexivity. Qed.

Lemma walk_stats dir node w :
  fst (walk dir node w) = Return tt ->
  stats (snd (walk dir node w)) =
  mkStats
    (generatedCount (stats w)
     + length (flat_map files (idxs (clockReads w) (visits dir node))))
    (directoriesScanned (stats w) + length (visits dir node)).
Proof. intros Hr. destruct (walk_returned dir node w Hr) as [calls ->]. reflexivity. Qed.

Lemma produced_walk dir node w :
  fst (walk dir node w) = Return tt ->
  produced (walk dir node) w = idxs (clockReads w) (visits dir node).
Proof. intros Hr. unfold produced. now rewrite walk_assembled, skipn_length_app. Qed.

Lemma newFiles_walk dir node w :
  fst (walk dir node w) = Return tt ->
  newFiles (walk dir node) w =
  flat_map files (idxs (clockReads w) (visits dir node)).
Proof. intros Hr. unfold newFiles. now rewrite walk_written, skipn_length_app. Qed.

Lemma In_indexesFrom d idx tick vs :
  In (d, idx) (idxs tick vs) ->
  exists items tick', In (d, items) vs
                      /\ idx = indexOf rt rootDir ignorePatterns includeMetadata
                                 (d, items) tick'.
Proof.
  revert tick. induction vs as [| [d' items'] vs IH]; intros tick; simpl.
  - tauto.
  - intros [H | H].
    + inversion H; subst. exists items', tick. auto.
    + destruct (IH _ H) as (items & tick' & Hin & Heq).
      exists items, tick'. auto.
Qed.

(** Every index a walk assembles is the index of a visited directory. *)
Lemma produced_indexOf dir node w d idx :
  In (d, idx) (produced (walk dir node) w) ->
  exists items tick,
    In (d, items) (visits dir node)
    /\ idx = indexOf rt rootDir ignorePatterns includeMetadata (d, items) tick.
Proof.
  destruct (produced_prefix dir node w) as (pre & post & Hvs & ->).
  intros H. apply In_indexesFrom in H. destruct H as (items & tick & Hin & ->).
  exists items, tick. split; [| reflexivity]. rewrite Hvs. apply in_or_app. now left.
Qed.

Lemma filesOf_length di :
  length (files di) =
  Nat.b2n (wantsHtml outputFormat) + Nat.b2n (wantsJson outputFormat).
Proof.
  unfold filesOf. rewrite length_app.
  destruct (wantsHtml outputFormat), (wantsJson outputFormat); reflexivity.
Qed.

Lemma files_length l :
  length (flat_map files l) =
  (Nat.b2n (wantsHtml outputFormat) + Nat.b2n (wantsJson outputFormat)) * length l.
Proof.
  induction l as [| di l IH]; simpl.
  - lia.
  - rewrite length_app, IH, filesOf_length. lia.
Qed.

End WalkFacts.

(** ** Counting the directories *)

Section Counting.

Variable rt : Runtime.
Variable rootDir : string.
Variable ignorePatterns : list string.

Local Abbreviation visits := (visited rt rootDir ignorePatterns).
Local Abbreviation count := (listedDirectories rt rootDir ignorePatterns).
Local Abbreviation isListed := (listed rt rootDir ignorePatterns).

Lemma visited_directory dir name items :
  shouldIgnore rt (relativePathOf rootDir dir) ignorePatterns = false ->
  visits dir (Directory name items)
  = kidsOf rt rootDir ignorePatterns dir items ++ [(dir, items)].
Proof. intros H. cbn [visited]. now rewrite H. Qed.

Lemma listed_not_ignored dir item :
  isListed dir item = true ->
  shouldIgnore rt (itemRelativePath rootDir dir item) ignorePatterns = false.
Proof.
  unfold listed. intros H. apply andb_true_iff in H. destruct H as [_ H].
  now apply negb_true_iff.
Qed.

(** Below a clean root, in a tree of valid names, a call visits the
    directories reached through listed children. *)
Lemma visited_count node :
  forall dir rel,
    Path.below rootDir dir rel ->
    validItems node = true ->
    isDirectory node = true ->
    shouldIgnore rt (relativePathOf rootDir dir) ignorePatterns = false ->
    length (visits dir node) = count dir node.
Proof.
  induction node as [name size mtime | name items IH | name] using Node_nested_ind;
    intros dir rel Hb Hv Hd Hi; try discriminate.
  rewrite visited_directory by exact Hi. rewrite length_app. cbn [length listedDirectories].
  rewrite Nat.add_1_r. f_equal.
  cbn [validItems] in Hv. rewrite forallb_forall in Hv.
  unfold kidsOf. clear Hd. revert Hv.
  induction IH as [| item rest Hitem _ IHrest]; intros Hv; [reflexivity |].
  cbn [flat_map map list_sum fold_right]. rewrite length_app.
  fold (list_sum (map (fun item0 : Node =>
                         if isListed dir item0
                         then count (Path.join dir (nodeName item0)) item0
                         else 0) rest)).
  rewrite IHrest by (intros x Hx; apply Hv; now right).
  f_equal.
  destruct (isListed dir item) eqn:Hl; [| reflexivity].
  specialize (Hv item (or_introl eq_refl)).
  apply andb_true_iff in Hv. destruct Hv as [Hname Hvalid].
  destruct (isDirectory item) eqn:Hdi.
  - apply (Hitem _ (rel ++ [nodeName item])); auto.
    + now apply PathFacts.below_join.
    + rewrite (PathFacts.relativePathOf_child _ _ _ _ Hb Hname).
      now apply listed_not_ignored.
  - rewrite visited_not_directory by exact Hdi.
    destruct item; try discriminate; reflexivity.
Qed.

(** Below a clean root, in a tree of valid names, every visited directory
    lies below the root and holds children with valid names. *)
Lemma visited_below node :
  forall dir rel,
    Path.below rootDir dir rel ->
    validItems node = true ->
    forall d items,
      In (d, items) (visits dir node) ->
      exists rel',
        Path.below rootDir d rel'
        /\ forall item, In item items -> Path.validName (nodeName item) = true.
Proof.
  induction node as [name size mtime | name its IH | name] using Node_nested_ind;
    intros dir rel Hb Hv d items Hin;
    try (rewrite visited_not_directory in Hin by reflexivity; contradiction).
  cbn [visited] in Hin.
  destruct (shouldIgnore rt (relativePathOf rootDir dir) ignorePatterns);
    [contradiction |].
  cbn [validItems] in Hv. rewrite forallb_forall in Hv.
  apply in_app_or in Hin. destruct Hin as [Hin | [Heq | []]].
  - apply in_flat_map in Hin. destruct Hin as (item & Hitem & Hin).
    destruct (isListed dir item); [| contradiction].
    specialize (Hv item Hitem). apply andb_true_iff in Hv. destruct Hv as [Hn Hvi].
    rewrite Forall_forall in IH.
    apply (IH item Hitem _ (rel ++ [nodeName item])) in Hin; auto.
    now apply PathFacts.below_join.
  - inversion Heq; subst. exists rel. split; [exact Hb |].
    intros item Hitem. specialize (Hv item Hitem).
    now apply andb_true_iff in Hv.
Qed.

End Counting.

Lemma relativePathOf_root rootDir : relativePathOf rootDir rootDir = "/".
Proof. unfold relativePathOf. now rewrite PathFacts.relative_self. Qed.

(** ** The entry point *)

Lemma bind_modify {B} (f : World -> World) (k : unit -> Eff B) w :
  bind (modify f) k w = k tt (f w).
Proof. reflexivity. Qed.

Section RunFacts.

Variable rt : Runtime.
Variable getInput : string -> string.
Variable lookup : string -> option Node.

Local Abbreviation rootInput := (Str.orElse (getInput "root") ".").
Local Abbreviation absoluteRoot := (resolve rt rootInput).
Local Abbreviation format := (Str.orElse (getInput "output-format") "both").
Local Abbreviation patterns := (parseIgnorePatterns (getInput "ignore")).
Local Abbreviation metadata := (String.eqb (getInput "include-metadata") "true").
Local Abbreviation template :=
  (Str.orElse (getInput "title-template") "Index of {path}").
Local Abbreviation walk :=
  (walkAndGenerate rt absoluteRoot patterns format (getInput "stylesheet")
     metadata template absoluteRoot).

(** A run on a root that does not exist: three lines of log, then the
    failure. *)
Lemma run_missing_root w :
  lookup absoluteRoot = None ->
  run rt getInput lookup w
  = (Return tt,
     mkWorld (stats w) (written w)
       (coreCalls w ++
        [ info ("Scanning directory: " ++ Str.orElse (getInput "root") ".");
          info ("Output format: " ++ Str.orElse (getInput "output-format") "both");
          info ("Ignore patterns: " ++ String.concat ", " patterns);
          setFailed ("Root directory does not exist: " ++ absoluteRoot) ])
       (clockReads w) (assembled w)).
Proof.
  intros H. unfold run, tryCatch, core. cbv zeta.
  rewrite !bind_modify, H. unfold throw, modify.
  cbn [stats written coreCalls clockReads assembled]. now rewrite <- !app_assoc.
Qed.

(** A run on a root that exists: the walk, then the report, or the
    failure the walk threw. *)
Lemma run_existing_root node w :
  lookup absoluteRoot = Some node ->
  run rt getInput lookup w
  = match walk node (walkStart getInput w) with
    | (Return _, w1) => (Return tt, reported getInput w1)
    | (Throw m, w1) =>
        (Return tt,
         mkWorld (stats w1) (written w1) (coreCalls w1 ++ [setFailed m])
           (clockReads w1) (assembled w1))
    end.
Proof.
  intros Hl. unfold run, tryCatch, core, setStats. cbv zeta.
  rewrite !bind_modify, Hl, bind_modify.
  cbn [stats written coreCalls clockReads assembled].
  rewrite <- !app_assoc. cbn [app]. fold (walkStart getInput w).
  unfold bind at 1.
  destruct (walk node (walkStart getInput w)) as [[[] | m] w1]; [| reflexivity].
  unfold getStats, bind, modify, ret, reported, reportCalls, wantsJson.
  destruct (String.eqb format "json" || String.eqb format "both");
    cbn [stats written coreCalls clockReads assembled];
    rewrite <- !app_assoc; reflexivity.
Qed.

(** The indexes a run assembles are those of the walk from the root. *)
Lemma produced_run w :
  produced (run rt getInput lookup) w
  = match lookup absoluteRoot with
    | Some node => produced (walk node) (walkStart getInput w)
    | None => []
    end.
Proof.
  destruct (lookup absoluteRoot) as [node |] eqn:Hl.
  - unfold produced. rewrite (run_existing_root node w Hl).
    destruct (walk node (walkStart getInput w)) as [[[] | m] w1]; reflexivity.
  - unfold produced. rewrite (run_missing_root w Hl). cbn [snd assembled].
    rewrite <- (app_nil_r (assembled w)) at 2. apply skipn_length_app.
Qed.

End RunFacts.

(** Without metadata no entry carries a size or a date. *)
Lemma makeEntry_without_metadata rt itemPath itemRelativePath item :
  FileEntry.size (makeEntry rt false itemPath itemRelativePath item) = None
  /\ FileEntry.modified (makeEntry rt false itemPath itemRelativePath item) = None.
Proof. destruct item; split; reflexivity. Qed.

(** ** Escaping *)

Module MarkupFacts.

Import StrFacts.
Local Open Scope string_scope.

(** One pass over the text does what the four replacements do. *)
Lemma escapeHtml_cons c s :
  escapeHtml (String c s)
  = (if Ascii.eqb c "&" then "&amp;"
     else if Ascii.eqb c "<" then "&lt;"
     else if Ascii.eqb c ">" then "&gt;"
     else if Ascii.eqb c (ascii_of_nat 34) then "&quot;"
     else String c "") ++ escapeHtml s.
Proof.
  unfold escapeHtml. cbn [Str.replaceAll].
  destruct (Ascii.eqb c "&"); [reflexivity |]. cbn [Str.replaceAll].
  destruct (Ascii.eqb c "<"); [reflexivity |]. cbn [Str.replaceAll].
  destruct (Ascii.eqb c ">"); [reflexivity |]. cbn [Str.replaceAll].
  destruct (Ascii.eqb c (ascii_of_nat 34)); reflexivity.
Qed.

Lemma entityAt_plain c s :
  Ascii.eqb c "&" = false -> Markup.entityAt (String c s) = None.
Proof.
  intros H. unfold Markup.entityAt. cbn [Str.startsWith].
  rewrite Ascii.eqb_sym in H. now rewrite H.
Qed.

Lemma raw_cons_plain c s :
  Ascii.eqb c "&" = false ->
  Markup.raw (String c s)
  = if Markup.isSpecial c then String c (Markup.raw s) else Markup.raw s.
Proof.
  intros H. unfold Markup.raw. cbn [Markup.rawFrom]. now rewrite entityAt_plain.
Qed.

(** Escaped text adds no special character of its own. *)
Lemma raw_escapeHtml s b : Markup.raw (escapeHtml s ++ b) = Markup.raw b.
Proof.
  induction s as [| c s IH]; [reflexivity |].
  rewrite escapeHtml_cons, append_assoc.
  destruct (Ascii.eqb c "&") eqn:Ha; [exact IH |].
  destruct (Ascii.eqb c "<") eqn:Hl; [exact IH |].
  destruct (Ascii.eqb c ">") eqn:Hg; [exact IH |].
  destruct (Ascii.eqb c (ascii_of_nat 34)) eqn:Hq; [exact IH |].
  change (String c "" ++ escapeHtml s ++ b) with (String c (escapeHtml s ++ b)).
  rewrite raw_cons_plain by exact Ha.
  unfold Markup.isSpecial. now rewrite Ha, Hl, Hg, Hq.
Qed.

Lemma noAmp_cons c s :
  Markup.noAmp (String c s) = true ->
  Ascii.eqb c "&" = false /\ Markup.noAmp s = true.
Proof.
  unfold Markup.noAmp. cbn [list_ascii_of_string existsb].
  intros H. apply negb_true_iff, orb_false_iff in H. destruct H as [H1 H2].
  split; [exact H1 | now apply negb_true_iff].
Qed.

(** After text without ampersands, and once the characters to pass over
    are used up, the scan starts afresh. *)
Lemma rawFrom_noAmp_app L b k :
  Markup.noAmp L = true -> k <= String.length L ->
  Markup.rawFrom k (L ++ b) = Markup.rawFrom k L ++ Markup.raw b.
Proof.
  revert k. induction L as [| c L IH]; intros k Hn Hk.
  - cbn in Hk. assert (k = 0) by lia. subst k. reflexivity.
  - apply noAmp_cons in Hn. destruct Hn as [Hc Hn].
    cbn [append Markup.rawFrom]. destruct k as [| k].
    + rewrite !entityAt_plain by exact Hc.
      destruct (Markup.isSpecial c); cbn [append]; f_equal; apply IH; auto; lia.
    + apply IH; auto. cbn in Hk. lia.
Qed.

Lemma startsWith_long p s t :
  String.length p <= String.length s ->
  Str.startsWith p (s ++ t) = Str.startsWith p s.
Proof.
  revert s. induction p as [| c p IH]; intros s H; [reflexivity |].
  destruct s as [| d s]; cbn in H; [lia |].
  cbn [append Str.startsWith]. f_equal. apply IH. lia.
Qed.

Lemma entityAt_long s t :
  6 <= String.length s -> Markup.entityAt (s ++ t) = Markup.entityAt s.
Proof.
  intros H. unfold Markup.entityAt.
  rewrite !startsWith_long by (cbn; lia). reflexivity.
Qed.

Lemma entityAt_length s len : Markup.entityAt s = Some len -> Nat.pred len <= 5.
Proof.
  unfold Markup.entityAt.
  repeat match goal with
         | |- context [if ?b then _ else _] => destruct b
         end; intros H; inversion H; cbn; lia.
Qed.

(** Text followed by five characters or more without an ampersand: no
    character reference reaches beyond them. *)
Lemma rawFrom_cut X L b k :
  Markup.noAmp L = true -> 5 <= String.length L -> k <= 5 ->
  Markup.rawFrom k ((X ++ L) ++ b) = Markup.rawFrom k (X ++ L) ++ Markup.raw b.
Proof.
  intros Hn HL. revert k. induction X as [| c X IH]; intros k Hk.
  - cbn [append]. apply rawFrom_noAmp_app; auto. lia.
  - cbn [append Markup.rawFrom]. destruct k as [| k].
    + change (String c ((X ++ L) ++ b)) with (String c (X ++ L) ++ b).
      rewrite entityAt_long by (cbn; rewrite length_append; lia).
      destruct (Markup.entityAt (String c (X ++ L))) as [len |] eqn:He.
      * apply IH. now apply entityAt_length in He.
      * destruct (Markup.isSpecial c); cbn [append]; f_equal; apply IH; lia.
    + apply IH. lia.
Qed.

Lemma agree_plain a : Markup.noAmp a = true -> Markup.agree a a.
Proof.
  intros Hn b b' Hb. unfold Markup.raw.
  rewrite !rawFrom_noAmp_app by (auto; lia). now rewrite Hb.
Qed.

Lemma agree_app a a' r r' :
  Markup.agree a a' -> Markup.agree r r' -> Markup.agree (a ++ r) (a' ++ r').
Proof.
  intros Ha Hr b b' Hb. rewrite !append_assoc. apply Ha. now apply Hr.
Qed.

Lemma agree_escaped s s' : Markup.agree (escapeHtml s) (escapeHtml s').
Proof. intros b b' Hb. now rewrite !raw_escapeHtml. Qed.

Lemma agree_cell X L :
  Markup.noAmp L = true -> 5 <= String.length L -> Markup.agree (X ++ L) (X ++ L).
Proof.
  intros Hn HL b b' Hb. unfold Markup.raw.
  rewrite !rawFrom_cut by (auto; lia). now rewrite Hb.
Qed.

Lemma agree_plain_app a r r' :
  Markup.noAmp a = true -> Markup.agree r r' -> Markup.agree (a ++ r) (a ++ r').
Proof. intros Hn Hr. apply agree_app; [now apply agree_plain | exact Hr]. Qed.

Lemma agree_escaped_app s s' r r' :
  Markup.agree r r' -> Markup.agree (escapeHtml s ++ r) (escapeHtml s' ++ r').
Proof. intros Hr. apply agree_app; [apply agree_escaped | exact Hr]. Qed.

Lemma agree_cell_app X L r r' :
  Markup.noAmp L = true -> 5 <= String.length L -> Markup.agree r r' ->
  Markup.agree (X ++ L ++ r) (X ++ L ++ r').
Proof.
  intros Hn HL Hr. rewrite <- !append_assoc.
  apply agree_app; [now apply agree_cell | exact Hr].
Qed.

Lemma agree_raw x y : Markup.agree x y -> Markup.raw x = Markup.raw y.
Proof.
  intros H. specialize (H "" "" eq_refl). now rewrite !append_nil_r in H.
Qed.

(** One step along a chain of pieces: escaped text, text without
    ampersands, or a cell followed by such text. *)
Ltac agree_step :=
  first
    [ apply agree_escaped_app
    | apply agree_plain_app; [reflexivity |]
    | apply agree_plain; reflexivity
    | apply agree_cell_app; [reflexivity | cbn; lia |]
    | apply agree_cell; [reflexivity | cbn; lia] ].

Section Rows.

Variable rt : Runtime.

Lemma agree_entryRow e e' :
  Markup.sameCells e e' -> Markup.agree (entryRow rt e) (entryRow rt e').
Proof.
  destruct e as [n t s m p], e' as [n' t' s' m' p'].
  unfold Markup.sameCells. cbn [FileEntry.type FileEntry.size FileEntry.modified].
  intros (<- & <- & <-).
  unfold entryRow, lines. cbv zeta.
  cbn [FileEntry.type FileEntry.size FileEntry.modified FileEntry.name String.concat].
  rewrite !append_assoc.
  destruct t, s as [bytes |], m as [iso |]; repeat agree_step.
Qed.

Lemma agree_rows es es' :
  Forall2 Markup.sameCells es es' ->
  Markup.agree (lines (map (entryRow rt) es)) (lines (map (entryRow rt) es')).
Proof.
  unfold lines. induction 1 as [| e e' es es' He Hes IH].
  - now apply agree_plain.
  - destruct Hes as [| e2 e2' es es' He2 Hes].
    + now apply agree_entryRow.
    + change (Markup.agree
                (entryRow rt e ++ Str.nl ++ String.concat Str.nl (map (entryRow rt) (e2 :: es)))
                (entryRow rt e' ++ Str.nl
                   ++ String.concat Str.nl (map (entryRow rt) (e2' :: es')))).
      apply agree_app; [now apply agree_entryRow |].
      apply agree_plain_app; [reflexivity | exact IH].
Qed.

Lemma agree_generateHtml i j stylesheet stylesheet' titleTemplate titleTemplate' :
  Markup.sameShape i j stylesheet stylesheet' ->
  Markup.agree (generateHtml rt i stylesheet titleTemplate)
               (generateHtml rt j stylesheet' titleTemplate').
Proof.
  intros (Hes & Hg & Hp & Hs).
  unfold generateHtml. cbv zeta. rewrite Hg, Hp, Hs.
  unfold lines at 1 3. cbn [String.concat].
  rewrite !append_assoc.
  do 20 agree_step.
  destruct (Str.isEmpty stylesheet'), (String.eqb (DirectoryIndex.path j) "/");
    rewrite ?append_assoc; repeat agree_step;
    (apply agree_app; [now apply agree_rows |]); repeat agree_step.
Qed.

End Rows.

End MarkupFacts.

(** * The claims *)

(** ** The index of the root *)

Lemma In_indexesFrom_last rt rootDir ignorePatterns includeMetadata tick vs v :
  In (fst v,
      indexOf rt rootDir ignorePatterns includeMetadata v (tick + length vs))
     (indexesFrom rt rootDir ignorePatterns includeMetadata tick (vs ++ [v])).
Proof.
  rewrite indexesFrom_app. apply in_or_app. right. left. reflexivity.
Qed.

Lemma indexOf_path rt rootDir ignorePatterns includeMetadata v tick :
  DirectoryIndex.path (indexOf rt rootDir ignorePatterns includeMetadata v tick)
  = ("/" ++ relativePathOf rootDir (fst v))%string.
Proof.
  unfold indexOf, relativePathOf. cbv zeta. cbn [DirectoryIndex.path].
  now rewrite StrFacts.orElse_not_empty.
Qed.

(** The index of a root the filter does not ignore is the last one
    assembled. *)
Lemma root_index_produced
  rt rootDir ignorePatterns outputFormat stylesheet includeMetadata titleTemplate
  name items w :
  shouldIgnore rt "/" ignorePatterns = false ->
  fst (walkAndGenerate rt rootDir ignorePatterns outputFormat stylesheet
         includeMetadata titleTemplate rootDir (Directory name items) w) = Return tt ->
  exists tick,
    In (rootDir, indexOf rt rootDir ignorePatterns includeMetadata (rootDir, items) tick)
       (produced (walkAndGenerate rt rootDir ignorePatterns outputFormat stylesheet
                    includeMetadata titleTemplate rootDir (Directory name items)) w).
Proof.
  intros Hi Hr. rewrite produced_walk by exact Hr.
  rewrite visited_directory by (now rewrite relativePathOf_root).
  eexists. apply (In_indexesFrom_last _ _ _ _ _ _ (rootDir, items)).
Qed.

(** Whatever index a walk assembles for the root has the path of two
    slashes. *)
Lemma root_index_path
  rt rootDir ignorePatterns outputFormat stylesheet includeMetadata titleTemplate
  dir node w index :
  In (rootDir, index)
     (produced (walkAndGenerate rt rootDir ignorePatterns outputFormat stylesheet
                  includeMetadata titleTemplate dir node) w) ->
  DirectoryIndex.path index = "//".
Proof.
  intros Hin. apply produced_indexOf in Hin. destruct Hin as (its & tick & _ & ->).
  rewrite indexOf_path. cbn [fst]. now rewrite relativePathOf_root.
Qed.

(** Claim C1, on the code.  The index assembled for the scan root has the
    path made of two slashes, not of one: [relativePath] is a slash there,
    never the empty string the test of the assembly looks for, and a slash
    is put in front of it.  A walk of a root the filter does not ignore
    that returns has assembled that index, and whatever index a walk
    assembles for the root has that path.  The index of a directory whose
    path relative to the root is not empty has that relative path after a
    slash as its path. *)
Theorem root_index_path_double_slash
  rt rootDir ignorePatterns outputFormat stylesheet includeMetadata titleTemplate
  name items w :
  shouldIgnore rt "/" ignorePatterns = false ->
  let walk := walkAndGenerate rt rootDir ignorePatterns outputFormat stylesheet
                includeMetadata titleTemplate rootDir (Directory name items) in
  (fst (walk w) = Return tt ->
   exists index,
     In (rootDir, index) (produced walk w) /\ DirectoryIndex.path index = "//")
  /\ (forall index,
         In (rootDir, index) (produced walk w) -> DirectoryIndex.path index = "//")
  /\ (forall d index,
         In (d, index) (produced walk w) ->
         Str.isEmpty (Path.relative rootDir d) = false ->
         DirectoryIndex.path index = ("/" ++ Path.relative rootDir d)%string).
Proof.
  intros Hi walk. split; [| split].
  - intros Hr.
    destruct (root_index_produced rt rootDir ignorePatterns outputFormat stylesheet
                includeMetadata titleTemplate name items w Hi Hr) as [tick Hin].
    eexists. split; [exact Hin |].
    rewrite indexOf_path. cbn [fst]. now rewrite relativePathOf_root.
  - intros index Hin. eapply root_index_path. exact Hin.
  - intros d index Hin Hne. apply produced_indexOf in Hin.
    destruct Hin as (its & tick & _ & ->).
    rewrite indexOf_path. cbn [fst]. unfold relativePathOf.
    now rewrite StrFacts.orElse_of_not_empty.
Qed.

Lemma root_index_path_double_slash_witness :
  let walk := walkAndGenerate Sample.runtime "/site" [] "json" "" true
                "Index of {path}" "/site" Sample.tree in
  shouldIgnore Sample.runtime "/" [] = false
  /\ map (fun di => (fst di, DirectoryIndex.path (snd di))) (produced walk initialWorld)
     = [("/site/subdir", "/subdir"); ("/site", "//")]
  /\ exists index,
       In ("/site", index) (produced walk initialWorld)
       /\ DirectoryIndex.path index = "//".
Proof.
  cbv zeta. split; [reflexivity |]. split; [reflexivity |].
  exact (proj1 (root_index_path_double_slash Sample.runtime "/site" [] "json" "" true
                  "Index of {path}" "site"
                  [ File "file1.txt" 7 1000; File "file2.json" 2 2000;
                    Directory "subdir" [] ]
                  initialWorld eq_refl) eq_refl).
Defined.

(** ** The parent row *)

Lemma includes_inside needle rest tail :
  Str.includes needle ((needle ++ rest) ++ tail) = true.
Proof. rewrite StrFacts.append_assoc. apply StrFacts.includes_prefix. Qed.

(** The document of an index whose path is not a single slash holds the
    row that links to the parent directory. *)
Lemma generateHtml_parent_row rt index stylesheet titleTemplate :
  String.eqb (DirectoryIndex.path index) "/" = false ->
  Str.includes parentRow (generateHtml rt index stylesheet titleTemplate) = true.
Proof.
  intros H. unfold generateHtml. rewrite H. cbv zeta. cbn [lines String.concat].
  repeat first [ apply includes_inside | apply StrFacts.includes_app_r ].
Qed.

(** Claim C2, on the code.  The document a walk that returns has written
    for the scan root holds the row that links to the parent directory: the
    path of the root index is made of two slashes, so the test of the
    renderer for the root, which compares the path with a single slash,
    fails. *)
Theorem root_document_has_parent_row
  rt rootDir ignorePatterns outputFormat stylesheet includeMetadata titleTemplate
  name items w :
  shouldIgnore rt "/" ignorePatterns = false ->
  wantsHtml outputFormat = true ->
  fst (walkAndGenerate rt rootDir ignorePatterns outputFormat stylesheet
         includeMetadata titleTemplate rootDir (Directory name items) w) = Return tt ->
  exists html,
    In (Path.join rootDir "index.html", html)
       (newFiles (walkAndGenerate rt rootDir ignorePatterns outputFormat stylesheet
                    includeMetadata titleTemplate rootDir (Directory name items)) w)
    /\ Str.includes parentRow html = true.
Proof.
  intros Hi Hh Hr. rewrite newFiles_walk by exact Hr.
  rewrite visited_directory by (now rewrite relativePathOf_root).
  rewrite indexesFrom_app, flat_map_app.
  eexists. split.
  - apply in_or_app. right. cbn [indexesFrom flat_map]. apply in_or_app. left.
    unfold filesOf. rewrite Hh. cbn [fst snd]. apply in_or_app. left. left. reflexivity.
  - apply generateHtml_parent_row. rewrite indexOf_path. cbn [fst].
    now rewrite relativePathOf_root.
Qed.

Lemma root_document_has_parent_row_witness :
  let walk := walkAndGenerate Sample.runtime "/site" [] "html" "" true
                "Index of {path}" "/site" (Directory "site" []) in
  shouldIgnore Sample.runtime "/" [] = false
  /\ wantsHtml "html" = true
  /\ fst (walk initialWorld) = Return tt
  /\ map fst (newFiles walk initialWorld) = ["/site/index.html"]
  /\ exists html,
       In ("/site/index.html", html) (newFiles walk initialWorld)
       /\ Str.includes parentRow html = true.
Proof.
  cbv zeta. split; [reflexivity |]. split; [reflexivity |]. split; [reflexivity |].
  split; [reflexivity |].
  exact (root_document_has_parent_row Sample.runtime "/site" [] "html" "" true
           "Index of {path}" "site" [] initialWorld eq_refl eq_refl eq_refl).
Defined.

(** Claim C3, on the code.  When the input [include-metadata] is not set,
    so that [getInput] returns the empty string for it, the run collects no
    metadata: no entry of any index it assembles carries a size or a
    modification time.  The flag is the comparison of the input with the
    text [true], which the empty string fails. *)
Theorem absent_metadata_input_disables_metadata rt getInput lookup w d index entry :
  getInput "include-metadata" = "" ->
  In (d, index) (produced (run rt getInput lookup) w) ->
  In entry (DirectoryIndex.entries index) ->
  FileEntry.size entry = None /\ FileEntry.modified entry = None.
Proof.
  intros Hm Hin He. rewrite produced_run, Hm in Hin.
  destruct (lookup _) as [node |]; [| contradiction].
  apply produced_indexOf in Hin. destruct Hin as (items & tick & _ & ->).
  cbn [indexOf DirectoryIndex.entries fst snd] in He.
  apply sort_In in He. unfold entriesOf in He. apply in_map_iff in He.
  destruct He as (item & <- & _). apply makeEntry_without_metadata.
Qed.

(** The run of the test suite on a directory that holds one file of eleven
    bytes, with no input set but the root. *)
Lemma absent_metadata_input_disables_metadata_witness :
  let site := Directory "site" [ File "test.txt" 11 1000 ] in
  let run := run Sample.runtime (Sample.onlyRoot "/site") (Sample.mount "/site" site) in
  let index := snd (last (produced run initialWorld) ("", DirectoryIndex.mk "" [] "")) in
  let entry := last (DirectoryIndex.entries index) (FileEntry.mk "" file None None "") in
  Sample.onlyRoot "/site" "include-metadata" = ""
  /\ In ("/site", index) (produced run initialWorld)
  /\ In entry (DirectoryIndex.entries index)
  /\ FileEntry.name entry = "test.txt"
  /\ FileEntry.type entry = file
  /\ FileEntry.size entry = None
  /\ FileEntry.modified entry = None.
Proof.
  cbv zeta.
  split; [reflexivity |].
  split; [vm_compute; auto |].
  split; [vm_compute; auto |].
  split; [reflexivity |].
  split; [reflexivity |].
  eapply (absent_metadata_input_disables_metadata Sample.runtime (Sample.onlyRoot "/site")
            (Sample.mount "/site" (Directory "site" [ File "test.txt" 11 1000 ]))
            initialWorld "/site" _ _ eq_refl).
  - vm_compute. left. reflexivity.
  - vm_compute. left. reflexivity.
Defined.

(** Claim C4.  Escaping replaces each ampersand, angle bracket and double
    quote by its character reference and keeps every other character, so
    escaped text holds none of the four special characters outside
    character references; and the special characters of a document outside
    character references do not depend on user-controlled text: two
    documents whose inputs differ only in entry names and paths, in the
    title template and the path it embeds, and in the text of the
    stylesheet URL, hold the same ones. *)
Theorem user_text_is_escaped rt :
  (forall c s,
      escapeHtml (String c s)
      = ((if Ascii.eqb c "&" then "&amp;"
          else if Ascii.eqb c "<" then "&lt;"
          else if Ascii.eqb c ">" then "&gt;"
          else if Ascii.eqb c (ascii_of_nat 34) then "&quot;"
          else String c "") ++ escapeHtml s)%string)
  /\ (forall s, Markup.raw (escapeHtml s) = "")
  /\ (forall i j stylesheet stylesheet' titleTemplate titleTemplate',
         Markup.sameShape i j stylesheet stylesheet' ->
         Markup.raw (generateHtml rt i stylesheet titleTemplate)
         = Markup.raw (generateHtml rt j stylesheet' titleTemplate')).
Proof.
  split; [exact MarkupFacts.escapeHtml_cons |].
  split.
  - intros s. rewrite <- (StrFacts.append_nil_r (escapeHtml s)).
    apply MarkupFacts.raw_escapeHtml.
  - intros i j stylesheet stylesheet' titleTemplate titleTemplate' H.
    apply MarkupFacts.agree_raw. now apply MarkupFacts.agree_generateHtml.
Qed.

(** Two listings of one file, one of them under a name and a title that
    hold markup: the documents hold the same special characters. *)
Lemma user_text_is_escaped_witness :
  let i := DirectoryIndex.mk "/docs"
             [ FileEntry.mk "<script>&" file (Some 2048%Z) (Some "2024-01-15") "docs/<script>&" ]
             "2024-01-20" in
  let j := DirectoryIndex.mk "/schemas"
             [ FileEntry.mk "plain.txt" file (Some 2048%Z) (Some "2024-01-15") "schemas/plain.txt" ]
             "2024-01-20" in
  Markup.sameShape i j "https://example.com/a.css?x=1&y=<2>" "style.css"
  /\ Markup.raw (generateHtml Sample.runtime i "https://example.com/a.css?x=1&y=<2>"
                   "<h1>{path}</h1>")
     = Markup.raw (generateHtml Sample.runtime j "style.css" "Index of {path}").
Proof.
  cbv zeta. split.
  - repeat split. constructor; [repeat split | constructor].
  - apply (proj2 (proj2 (user_text_is_escaped Sample.runtime))).
    repeat split. constructor; [repeat split | constructor].
Defined.




(** Claim C6, as the code has it.  In every index a walk assembles, every
    directory entry stands before every file entry, and within each of the
    two groups the names ascend in the order of [localeCompare], provided
    [localeCompare] orders (any two names compare, transitively). *)
Theorem entries_ordered_by_type_then_locale
  rt rootDir ignorePatterns outputFormat stylesheet includeMetadata titleTemplate
  dir node w d index :
  consistentComparator (localeCompare rt) ->
  In (d, index)
     (produced (walkAndGenerate rt rootDir ignorePatterns outputFormat stylesheet
                  includeMetadata titleTemplate dir node) w) ->
  StronglySorted (entryOrder (localeLe rt)) (DirectoryIndex.entries index).
Proof.
  intros Hc Hin.
  apply produced_indexOf in Hin. destruct Hin as (items & tick & _ & ->).
  cbn [indexOf DirectoryIndex.entries]. now apply sorted_entries.
Qed.

Lemma entries_ordered_by_type_then_locale_witness :
  let run := walkAndGenerate Sample.runtime "/site" [] "json" "" true
               "Index of {path}" "/site" Sample.tree in
  let index := snd (last (produced run initialWorld) ("", DirectoryIndex.mk "" [] "")) in
  consistentComparator (localeCompare Sample.runtime)
  /\ In ("/site", index) (produced run initialWorld)
  /\ map FileEntry.name (DirectoryIndex.entries index)
     = ["subdir"; "file1.txt"; "file2.json"]
  /\ StronglySorted (entryOrder (localeLe Sample.runtime)) (DirectoryIndex.entries index).
Proof.
  cbv zeta.
  split; [exact SampleFacts.letterCollation_consistent |].
  split; [vm_compute; auto |].
  split; [reflexivity |].
  apply (entries_ordered_by_type_then_locale Sample.runtime "/site" [] "json" "" true
           "Index of {path}" "/site" Sample.tree initialWorld "/site").
  - exact SampleFacts.letterCollation_consistent.
  - vm_compute. auto.
Defined.

(** Claim C6 as stated fails.  With the collation of an English locale,
    where [a] stands before [B], the index of a directory holding the files
    [B] and [a] lists [a] first; in case-sensitive lexicographic order [B]
    stands before [a]. *)
Lemma entries_not_in_lexicographic_order :
  let run := walkAndGenerate Sample.runtime "/site" [] "json" "" false
               "Index of {path}" "/site" Sample.caseTree in
  exists index,
    In ("/site", index) (produced run initialWorld)
    /\ map FileEntry.name (DirectoryIndex.entries index) = ["a"; "B"]
    /\ ~ StronglySorted (entryOrder lexLe) (DirectoryIndex.entries index).
Proof.
  cbv zeta. eexists. split; [vm_compute; left; reflexivity |].
  split; [reflexivity |].
  intros H. inversion H as [| x l _ Hall]; subst.
  inversion Hall as [| y l' [_ Hle] _]; subst.
  specialize (Hle eq_refl). vm_compute in Hle. discriminate.
Qed.

(** ** Entries *)

Lemma matchAny_false rt p patterns :
  matchAny rt p patterns = false ->
  forall pattern, In pattern patterns ->
    minimatch rt p pattern = false
    /\ minimatch rt (Path.basename p) pattern = false.
Proof.
  induction patterns as [| q qs IH]; simpl; [tauto |].
  destruct (minimatch rt p q) eqn:Hp; [discriminate |].
  destruct (minimatch rt (Path.basename p) q) eqn:Hb; [discriminate |].
  intros Hq pattern [<- | Hin]; auto.
Qed.

(** Claim C7, as the code has it.  In every index a walk assembles, no
    entry is named [index.html] or [index.json], and the pattern filter does
    not ignore the path of any entry: no pattern matches the path with its
    backslashes turned into slashes, and none matches the base name of that
    path.  In a walk
    from a clean root over a tree of valid names, the base name is the name
    of the entry; so for an entry whose path holds no backslash no pattern
    matches its relative path and none matches its name. *)
Theorem entries_exclude_reserved_and_ignored
  rt rootDir ignorePatterns outputFormat stylesheet includeMetadata titleTemplate
  dir node w d index entry :
  In (d, index)
     (produced (walkAndGenerate rt rootDir ignorePatterns outputFormat stylesheet
                  includeMetadata titleTemplate dir node) w) ->
  In entry (DirectoryIndex.entries index) ->
  FileEntry.name entry <> "index.html"
  /\ FileEntry.name entry <> "index.json"
  /\ shouldIgnore rt (FileEntry.path entry) ignorePatterns = false
  /\ (forall pattern, In pattern ignorePatterns ->
        minimatch rt (normalizeSeparators (FileEntry.path entry)) pattern = false
        /\ minimatch rt (Path.basename (normalizeSeparators (FileEntry.path entry)))
             pattern = false)
  /\ (forall rel,
        Path.below rootDir dir rel -> validItems node = true ->
        normalizeSeparators (FileEntry.path entry) = FileEntry.path entry ->
        forall pattern, In pattern ignorePatterns ->
          minimatch rt (FileEntry.path entry) pattern = false
          /\ minimatch rt (FileEntry.name entry) pattern = false).
Proof.
  intros Hin He.
  apply produced_indexOf in Hin. destruct Hin as (items & tick & Hvis & ->).
  cbn [indexOf DirectoryIndex.entries fst snd] in He.
  apply sort_In in He. unfold entriesOf in He. apply in_map_iff in He.
  destruct He as (item & <- & Hitem). apply filter_In in Hitem.
  destruct Hitem as [Hitem Hl]. unfold listed in Hl.
  apply andb_true_iff in Hl. destruct Hl as [Hres Hign].
  apply negb_true_iff in Hres, Hign.
  assert (Hname : FileEntry.name
                    (makeEntry rt includeMetadata (Path.join d (nodeName item))
                       (itemRelativePath rootDir d item) item) = nodeName item)
    by (destruct item; cbn; destruct includeMetadata; reflexivity).
  assert (Hpath : FileEntry.path
                    (makeEntry rt includeMetadata (Path.join d (nodeName item))
                       (itemRelativePath rootDir d item) item)
                  = itemRelativePath rootDir d item)
    by (destruct item; cbn; destruct includeMetadata; reflexivity).
  rewrite Hname, Hpath. unfold isReserved in Hres.
  apply orb_false_iff in Hres. destruct Hres as [Hh Hj].
  apply String.eqb_neq in Hh, Hj.
  pose proof (matchAny_false rt _ _ Hign) as Hm.
  split; [exact Hh |]. split; [exact Hj |]. split; [exact Hign |].
  split; [exact Hm |].
  intros rel Hb Hv Hnorm pattern Hp.
  destruct (visited_below rt rootDir ignorePatterns node dir rel Hb Hv d items Hvis)
    as (rel' & Hb' & Hvalid).
  specialize (Hm pattern Hp). rewrite Hnorm in Hm.
  now rewrite (PathFacts.basename_child _ _ _ _ Hb' (Hvalid item Hitem)) in Hm.
Qed.

(** The walk of the sample tree with [subdir] ignored: the index of the root
    lists the two files, neither of which the filter ignores. *)
Lemma entries_exclude_reserved_and_ignored_witness :
  let run := walkAndGenerate Sample.runtime "/site" ["subdir"] "json" "" true
               "Index of {path}" "/site" Sample.tree in
  let index := snd (last (produced run initialWorld) ("", DirectoryIndex.mk "" [] "")) in
  let entry := last (DirectoryIndex.entries index) (FileEntry.mk "" file None None "") in
  In ("/site", index) (produced run initialWorld)
  /\ In entry (DirectoryIndex.entries index)
  /\ FileEntry.name entry = "file2.json"
  /\ shouldIgnore Sample.runtime (FileEntry.path entry) ["subdir"] = false.
Proof.
  cbv zeta.
  split; [vm_compute; auto |].
  split; [vm_compute; auto |].
  split; [reflexivity |].
  refine (proj1 (proj2 (proj2
    (entries_exclude_reserved_and_ignored Sample.runtime "/site" ["subdir"] "json" ""
       true "Index of {path}" "/site" Sample.tree initialWorld "/site" _ _ _ _)))).
  - vm_compute. auto.
  - vm_compute. auto.
Defined.

(** Claim C7 as stated fails.  The filter tests the path with its
    backslashes turned into slashes, not the path of the entry: a file whose
    name holds a backslash is listed although a pattern matches its relative
    path and its name, when the pattern matches neither the path with a
    slash for the backslash nor the base name of that path. *)
Lemma backslash_name_is_listed :
  let name := Str.ofBytes [97; 92; 98] in
  let walk := walkAndGenerate Sample.globRuntime "/site" ["a?b"] "json" "" false
                "Index of {path}" "/site" (Directory "site" [File name 1 1000]) in
  let index := snd (last (produced walk initialWorld) ("", DirectoryIndex.mk "" [] "")) in
  let entry := last (DirectoryIndex.entries index) (FileEntry.mk "" file None None "") in
  fst (walk initialWorld) = Return tt
  /\ In ("/site", index) (produced walk initialWorld)
  /\ In entry (DirectoryIndex.entries index)
  /\ FileEntry.name entry = name
  /\ FileEntry.path entry = name
  /\ In "a?b" ["a?b"]
  /\ minimatch Sample.globRuntime (FileEntry.path entry) "a?b" = true
  /\ minimatch Sample.globRuntime (FileEntry.name entry) "a?b" = true
  /\ minimatch Sample.globRuntime (normalizeSeparators (FileEntry.path entry)) "a?b"
     = false
  /\ minimatch Sample.globRuntime
       (Path.basename (normalizeSeparators (FileEntry.path entry))) "a?b" = false.
Proof. cbv zeta. repeat split; try reflexivity; vm_compute; auto. Qed.

(** Claim C8.  When the root does not exist, the run returns after a single
    call of [setFailed], its last call into [core], with a message that
    contains the words [does not exist]; it writes no file and does not
    start the walk: no directory is counted and no index is assembled. *)
Theorem missing_root_fails_once rt getInput lookup w :
  existsSync lookup (resolve rt (Str.orElse (getInput "root") ".")) = false ->
  let w' := snd (run rt getInput lookup w) in
  fst (run rt getInput lookup w) = Return tt
  /\ written w' = written w
  /\ stats w' = stats w
  /\ assembled w' = assembled w
  /\ clockReads w' = clockReads w
  /\ exists message,
       Str.includes "does not exist" message = true
       /\ filter isSetFailed (newCalls (run rt getInput lookup) w) = [setFailed message]
       /\ last (newCalls (run rt getInput lookup) w) (info "") = setFailed message.
Proof.
  unfold existsSync. intros He.
  destruct (lookup (resolve rt (Str.orElse (getInput "root") "."))) eqn:Hl;
    [discriminate |].
  cbv zeta. unfold newCalls. rewrite (run_missing_root _ _ _ _ Hl).
  cbn [fst snd written stats assembled clockReads coreCalls].
  repeat split; auto.
  eexists. rewrite skipn_length_app. repeat split; reflexivity.
Qed.

Lemma missing_root_fails_once_witness :
  let run := run Sample.runtime (Sample.onlyRoot "/nonexistent/path")
               (Sample.mount "/site" Sample.tree) in
  existsSync (Sample.mount "/site" Sample.tree) "/nonexistent/path" = false
  /\ written (snd (run initialWorld)) = []
  /\ stats (snd (run initialWorld)) = mkStats 0 0
  /\ exists message,
       Str.includes "does not exist" message = true
       /\ filter isSetFailed (newCalls run initialWorld) = [setFailed message].
Proof.
  cbv zeta. split; [reflexivity |].
  pose proof (missing_root_fails_once Sample.runtime (Sample.onlyRoot "/nonexistent/path")
                (Sample.mount "/site" Sample.tree) initialWorld eq_refl)
    as (_ & H2 & H3 & _ & _ & message & H6 & H7 & _).
  split; [exact H2 |]. split; [exact H3 |].
  exists message. split; assumption.
Defined.

(** ** An ignored root *)

(** Claim C9.  When the filter ignores the root, the call on the root
    returns at once: it writes no file, assembles no index and leaves both
    counters as they are, so a counter that was zero stays zero; the one
    thing it does is log that it skips the directory. *)
Theorem ignored_root_returns_at_once
  rt rootDir ignorePatterns outputFormat stylesheet includeMetadata titleTemplate
  node w :
  shouldIgnore rt "/" ignorePatterns = true ->
  walkAndGenerate rt rootDir ignorePatterns outputFormat stylesheet includeMetadata
    titleTemplate rootDir node w
  = (Return tt,
     mkWorld (stats w) (written w)
       (coreCalls w ++ [debug "Skipping ignored directory: /"])
       (clockReads w) (assembled w))
  /\ (directoriesScanned (stats w) = 0 ->
      directoriesScanned
        (stats (snd (walkAndGenerate rt rootDir ignorePatterns outputFormat stylesheet
                       includeMetadata titleTemplate rootDir node w))) = 0).
Proof.
  intros Hi.
  assert (H : walkAndGenerate rt rootDir ignorePatterns outputFormat stylesheet
                includeMetadata titleTemplate rootDir node w
              = (Return tt,
                 mkWorld (stats w) (written w)
                   (coreCalls w ++ [debug "Skipping ignored directory: /"])
                   (clockReads w) (assembled w))).
  { destruct node; cbn [walkAndGenerate];
      rewrite PathFacts.relative_self; cbn [Str.orElse]; rewrite Hi; reflexivity. }
  split; [exact H |]. now rewrite H.
Qed.

Lemma ignored_root_returns_at_once_witness :
  let walk := walkAndGenerate Sample.runtime "/site" ["/"] "both" "" true
                "Index of {path}" "/site" Sample.tree in
  shouldIgnore Sample.runtime "/" ["/"] = true
  /\ written (snd (walk initialWorld)) = []
  /\ directoriesScanned (stats (snd (walk initialWorld))) = 0.
Proof.
  cbv zeta. split; [reflexivity |].
  pose proof (ignored_root_returns_at_once Sample.runtime "/site" ["/"] "both" "" true
                "Index of {path}" Sample.tree initialWorld eq_refl) as [H1 H2].
  split; [now rewrite H1 | exact (H2 eq_refl)].
Defined.

(** With a format that asks for no file, no write can fail. *)
Lemma writable_without_format rt rootDir ignorePatterns outputFormat dir node :
  wantsHtml outputFormat = false -> wantsJson outputFormat = false ->
  writable rt rootDir ignorePatterns outputFormat dir node = true.
Proof.
  intros Hh Hj. unfold writable. apply forallb_forall. intros v _.
  unfold blocked. now rewrite Hh, Hj.
Qed.

(** Claim C10, as the code has it.  For an output format other than [html],
    [json] and [both], the walk from the root writes no file and leaves
    [generatedCount] as it is, and it still assembles an index for, and
    counts, every directory reached from the root through children that the
    filter does not ignore and that are not named [index.html] or
    [index.json]. *)
Theorem unknown_format_writes_nothing
  rt rootDir ignorePatterns outputFormat stylesheet includeMetadata titleTemplate
  name items w :
  outputFormat <> "html" -> outputFormat <> "json" -> outputFormat <> "both" ->
  Path.clean rootDir = true ->
  validItems (Directory name items) = true ->
  let walk := walkAndGenerate rt rootDir ignorePatterns outputFormat stylesheet
                includeMetadata titleTemplate rootDir (Directory name items) in
  let n := countedDirectories rt rootDir ignorePatterns (Directory name items) in
  fst (walk w) = Return tt
  /\ written (snd (walk w)) = written w
  /\ generatedCount (stats (snd (walk w))) = generatedCount (stats w)
  /\ directoriesScanned (stats (snd (walk w))) = directoriesScanned (stats w) + n
  /\ length (produced walk w) = n.
Proof.
  intros Hh Hj Hb Hc Hv walk n.
  apply String.eqb_neq in Hh, Hj, Hb.
  assert (Hw : wantsHtml outputFormat = false) by (unfold wantsHtml; now rewrite Hh, Hb).
  assert (Hw' : wantsJson outputFormat = false) by (unfold wantsJson; now rewrite Hj, Hb).
  assert (Hn : length (visited rt rootDir ignorePatterns rootDir (Directory name items)) = n).
  { subst n. unfold countedDirectories.
    destruct (shouldIgnore rt "/" ignorePatterns) eqn:Hi.
    - cbn [visited]. now rewrite relativePathOf_root, Hi.
    - apply visited_count with (rel := []); auto.
      + now apply PathFacts.below_root.
      + now rewrite relativePathOf_root. }
  assert (Hf : forall l, flat_map (filesOf rt outputFormat stylesheet titleTemplate) l = []).
  { intros l. apply length_zero_iff_nil. rewrite files_length, Hw, Hw'. reflexivity. }
  subst walk.
  assert (Hr : fst (walkAndGenerate rt rootDir ignorePatterns outputFormat stylesheet
                      includeMetadata titleTemplate rootDir (Directory name items) w)
               = Return tt)
    by (apply walk_returns; now apply writable_without_format).
  split; [exact Hr |].
  rewrite produced_walk, walk_written, walk_stats by exact Hr.
  rewrite Hf, app_nil_r.
  cbn [generatedCount directoriesScanned length].
  rewrite indexesFrom_length, Hn, Nat.add_0_r. repeat split; reflexivity.
Qed.

Lemma unknown_format_writes_nothing_witness :
  let walk := walkAndGenerate Sample.runtime "/site" [] "xml" "" true
                "Index of {path}" "/site" Sample.tree in
  "xml" <> "html" /\ "xml" <> "json" /\ "xml" <> "both"
  /\ Path.clean "/site" = true
  /\ validItems Sample.tree = true
  /\ written (snd (walk initialWorld)) = []
  /\ generatedCount (stats (snd (walk initialWorld))) = 0
  /\ directoriesScanned (stats (snd (walk initialWorld))) = 2.
Proof.
  cbv zeta.
  split; [discriminate |]. split; [discriminate |]. split; [discriminate |].
  split; [reflexivity |]. split; [reflexivity |].
  assert (Hh : "xml" <> "html") by discriminate.
  assert (Hj : "xml" <> "json") by discriminate.
  assert (Hb : "xml" <> "both") by discriminate.
  pose proof (unknown_format_writes_nothing Sample.runtime "/site" [] "xml" "" true
                "Index of {path}" "site"
                [ File "file1.txt" 7 1000; File "file2.json" 2 2000; Directory "subdir" [] ]
                initialWorld Hh Hj Hb eq_refl eq_refl) as (_ & H2 & H3 & H4 & _).
  split; [exact H2 |]. split; [exact H3 |]. exact H4.
Defined.

(** Claim C10 as stated fails, for the reason claim C5 does: with an
    unknown format too, the walk does not enter a directory named
    [index.html], which no pattern ignores. *)
Lemma unknown_format_skips_reserved_directory :
  let walk := walkAndGenerate Sample.runtime "/site" [] "xml" "" true
                "Index of {path}" "/site" Sample.reservedTree in
  written (snd (walk initialWorld)) = []
  /\ directoriesScanned (stats (snd (walk initialWorld))) = 1
  /\ reachableDirectories Sample.runtime "/site" [] "/site" Sample.reservedTree = 2
  /\ directoriesScanned (stats (snd (walk initialWorld)))
     <> reachableDirectories Sample.runtime "/site" [] "/site" Sample.reservedTree.
Proof. cbv zeta. repeat split; try reflexivity. vm_compute. discriminate. Qed.

(** * Further properties *)

(** ** The entry point *)

(** ** The log of a walk *)




Section WalkLog.

Variable rt : Runtime.
Variable rootDir : string.
Variable ignorePatterns : list string.
Variable outputFormat : string.
Variable stylesheet : string.
Variable includeMetadata : bool.
Variable titleTemplate : string.

Local Abbreviation walk :=
  (walkAndGenerate rt rootDir ignorePatterns outputFormat stylesheet
     includeMetadata titleTemplate).
Local Abbreviation collect :=
  (collectEntries rt rootDir ignorePatterns includeMetadata walk).




End WalkLog.

(** ** Runs that reach the walk *)

Section RunOutcome.

Variable rt : Runtime.
Variable getInput : string -> string.
Variable lookup : string -> option Node.

Local Abbreviation rootInput := (Str.orElse (getInput "root") ".").
Local Abbreviation absoluteRoot := (resolve rt rootInput).
Local Abbreviation format := (Str.orElse (getInput "output-format") "both").
Local Abbreviation patterns := (parseIgnorePatterns (getInput "ignore")).
Local Abbreviation metadata := (String.eqb (getInput "include-metadata") "true").
Local Abbreviation template :=
  (Str.orElse (getInput "title-template") "Index of {path}").
Local Abbreviation walk :=
  (walkAndGenerate rt absoluteRoot patterns format (getInput "stylesheet")
     metadata template absoluteRoot).

Lemma walk_ignored_root node w :
  shouldIgnore rt "/" patterns = true ->
  walk node w
  = (Return tt,
     mkWorld (stats w) (written w)
       (coreCalls w ++ [debug "Skipping ignored directory: /"])
       (clockReads w) (assembled w)).
Proof.
  intros Hi. destruct node; cbn [walkAndGenerate];
    rewrite PathFacts.relative_self; cbn [Str.orElse]; rewrite Hi; reflexivity.
Qed.

Lemma walk_not_directory_root node w :
  isDirectory node = false ->
  shouldIgnore rt "/" patterns = false ->
  walk node w
  = (Throw ("ENOTDIR: not a directory, scandir '" ++ absoluteRoot ++ "'"), scanOne w).
Proof.
  intros Hd Hi. destruct node; try discriminate; cbn [walkAndGenerate];
    rewrite PathFacts.relative_self; cbn [Str.orElse]; rewrite Hi; reflexivity.
Qed.

End RunOutcome.



(** Property X2.  A run on a root that exists but is not a directory, and
    that the filter does not ignore, fails when it lists the root: after
    the three lines of [core.info] its only call is [setFailed], no output
    is set and no file is written. *)
Theorem run_on_a_file_fails rt getInput lookup node w :
  lookup (resolve rt (Str.orElse (getInput "root") ".")) = Some node ->
  isDirectory node = false ->
  shouldIgnore rt "/" (parseIgnorePatterns (getInput "ignore")) = false ->
  let r := run rt getInput lookup in
  fst (r w) = Return tt
  /\ written (snd (r w)) = written w
  /\ assembled (snd (r w)) = assembled w
  /\ exists message,
       newCalls r w
       = [ info ("Scanning directory: " ++ Str.orElse (getInput "root") ".");
           info ("Output format: " ++ Str.orElse (getInput "output-format") "both");
           info ("Ignore patterns: "
                 ++ String.concat ", " (parseIgnorePatterns (getInput "ignore")));
           setFailed message ].
Proof.
  intros Hl Hd Hi r. subst r. unfold newCalls.
  rewrite (run_existing_root rt getInput lookup _ w Hl).
  rewrite walk_not_directory_root by assumption.
  cbn [fst snd written assembled coreCalls scanOne walkStart].
  repeat split. eexists. rewrite <- app_assoc, skipn_length_app. reflexivity.
Qed.

Lemma run_on_a_file_fails_witness :
  let r := run Sample.runtime (Sample.onlyRoot "/site/file1.txt")
             (Sample.mount "/site/file1.txt" (File "file1.txt" 7 1000)) in
  isDirectory (File "file1.txt" 7 1000) = false
  /\ shouldIgnore Sample.runtime "/"
       (parseIgnorePatterns (Sample.onlyRoot "/site/file1.txt" "ignore")) = false
  /\ written (snd (r initialWorld)) = []
  /\ filter isSetFailed (newCalls r initialWorld)
     = [ setFailed "ENOTDIR: not a directory, scandir '/site/file1.txt'" ].
Proof.
  cbv zeta. split; [reflexivity |]. split; [reflexivity |].
  split; [| reflexivity].
  exact (proj1 (proj2 (run_on_a_file_fails Sample.runtime
                         (Sample.onlyRoot "/site/file1.txt")
                         (Sample.mount "/site/file1.txt" (File "file1.txt" 7 1000))
                         (File "file1.txt" 7 1000) initialWorld
                         eq_refl eq_refl eq_refl))).
Defined.

(** Property X3.  A run on a root the filter ignores succeeds and reports
    zero for both counters, whatever the root holds; with the format
    [json] or [both] it still sets [manifest-path], to an [index.json] it
    did not write. *)
Theorem run_on_an_ignored_root_reports_zero rt getInput lookup node w :
  lookup (resolve rt (Str.orElse (getInput "root") ".")) = Some node ->
  shouldIgnore rt "/" (parseIgnorePatterns (getInput "ignore")) = true ->
  let r := run rt getInput lookup in
  fst (r w) = Return tt
  /\ written (snd (r w)) = written w
  /\ assembled (snd (r w)) = assembled w
  /\ newCalls r w
     = [ info ("Scanning directory: " ++ Str.orElse (getInput "root") ".");
         info ("Output format: " ++ Str.orElse (getInput "output-format") "both");
         info ("Ignore patterns: "
               ++ String.concat ", " (parseIgnorePatterns (getInput "ignore")));
         debug "Skipping ignored directory: /";
         setOutput "generated-count" "0";
         setOutput "directories-scanned" "0" ]
       ++ (if wantsJson (Str.orElse (getInput "output-format") "both")
           then [ setOutput "manifest-path"
                    (Path.join (Str.orElse (getInput "root") ".") "index.json") ]
           else [])
       ++ [ info "Generated 0 index files across 0 directories" ].
Proof.
  intros Hl Hi r. subst r. unfold newCalls.
  rewrite (run_existing_root rt getInput lookup _ w Hl).
  rewrite walk_ignored_root by assumption.
  cbn [fst snd written assembled coreCalls reported walkStart stats].
  repeat split. unfold reportCalls. cbn [stats generatedCount directoriesScanned].
  rewrite <- !app_assoc, skipn_length_app. reflexivity.
Qed.

Lemma run_on_an_ignored_root_reports_zero_witness :
  let inputs := fun name : string =>
                  if String.eqb name "root" then "/site"
                  else if String.eqb name "ignore" then "/" else "" in
  let r := run Sample.runtime inputs (Sample.mount "/site" Sample.tree) in
  shouldIgnore Sample.runtime "/" (parseIgnorePatterns (inputs "ignore")) = true
  /\ written (snd (r initialWorld)) = []
  /\ fst (r initialWorld) = Return tt.
Proof.
  cbv zeta. split; [reflexivity |]. split; [reflexivity |].
  exact (proj1 (run_on_an_ignored_root_reports_zero Sample.runtime
                  (fun name : string =>
                     if String.eqb name "root" then "/site"
                     else if String.eqb name "ignore" then "/" else "")
                  (Sample.mount "/site" Sample.tree) Sample.tree initialWorld
                  eq_refl eq_refl)).
Defined.

(** ** Patterns *)

Module TrimFacts.

Import StrFacts.
Local Open Scope string_scope.

Lemma startsWith_drop p s :
  Str.startsWith p s = true -> s = p ++ Str.drop (String.length p) s.
Proof.
  revert s. induction p as [| c p IH]; intros s H; [destruct s; reflexivity |].
  destruct s as [| d s]; [discriminate |]. cbn [Str.startsWith] in H.
  apply andb_true_iff in H. destruct H as [Hc H]. apply Ascii.eqb_eq in Hc. subst d.
  cbn [String.length Str.drop append]. f_equal. now apply IH.
Qed.

Lemma rev_length s : String.length (Str.rev s) = String.length s.
Proof.
  induction s as [| c s IH]; [reflexivity |].
  cbn [Str.rev]. rewrite length_append, IH. cbn. lia.
Qed.

Lemma rev_involutive s : Str.rev (Str.rev s) = s.
Proof.
  induction s as [| c s IH]; [reflexivity |].
  cbn [Str.rev]. rewrite PathFacts.rev_app, IH. reflexivity.
Qed.

(** What [stripOne] removes is one of the strings, from the front. *)
Lemma stripOne_Some ws s s' :
  Trim.stripOne ws s = Some s' -> exists w, In w ws /\ s = w ++ s'.
Proof.
  induction ws as [| w ws IH]; cbn [Trim.stripOne]; [discriminate |].
  destruct (Str.startsWith w s) eqn:Hw.
  - intros [= <-]. exists w. split; [now left | now apply startsWith_drop].
  - intros H. destruct (IH H) as (w' & Hin & E). exists w'. split; [now right | exact E].
Qed.

Lemma stripOne_None ws s w :
  Trim.stripOne ws s = None -> In w ws -> Str.startsWith w s = false.
Proof.
  induction ws as [| v ws IH]; cbn [Trim.stripOne]; [intros _ [] |].
  destruct (Str.startsWith v s) eqn:Hv; [discriminate |].
  intros H [-> | Hin]; [exact Hv | now apply IH].
Qed.

Lemma stripOne_None_intro ws s :
  (forall w, In w ws -> Str.startsWith w s = false) -> Trim.stripOne ws s = None.
Proof.
  induction ws as [| v ws IH]; cbn [Trim.stripOne]; [reflexivity |].
  intros H. rewrite (H v) by now left. apply IH. intros w Hw. apply H. now right.
Qed.

(** The string that is left is the end of the string that was given. *)
Lemma stripLeading_suffix ws fuel s :
  exists front, s = front ++ Trim.stripLeading ws fuel s.
Proof.
  revert s. induction fuel as [| fuel IH]; intros s; cbn [Trim.stripLeading].
  - now exists "".
  - destruct (Trim.stripOne ws s) as [s' |] eqn:Hs; [| now exists ""].
    destruct (stripOne_Some _ _ _ Hs) as (w & _ & ->).
    destruct (IH s') as [front Hf]. exists (w ++ front).
    rewrite append_assoc. now rewrite <- Hf.
Qed.

(** With the length of the string as fuel the loop runs to its end:
    nothing more can be removed from what is left. *)
Lemma stripLeading_done ws fuel s :
  Forall (fun w => w <> "") ws -> String.length s <= fuel ->
  Trim.stripOne ws (Trim.stripLeading ws fuel s) = None.
Proof.
  intros Hws. revert s. induction fuel as [| fuel IH]; intros s Hl;
    cbn [Trim.stripLeading].
  - destruct s; [| cbn in Hl; lia]. apply stripOne_None_intro. intros w Hw.
    rewrite Forall_forall in Hws. specialize (Hws w Hw). destruct w; [easy | reflexivity].
  - destruct (Trim.stripOne ws s) as [s' |] eqn:Hs; [| exact Hs].
    apply IH. destruct (stripOne_Some _ _ _ Hs) as (w & Hw & ->).
    rewrite Forall_forall in Hws. specialize (Hws w Hw).
    rewrite length_append in Hl. destruct w; [easy |]. cbn in Hl. lia.
Qed.

Lemma stripLeading_fixed ws fuel s :
  Trim.stripOne ws s = None -> Trim.stripLeading ws fuel s = s.
Proof. intros H. destruct fuel; cbn [Trim.stripLeading]; [| rewrite H]; reflexivity. Qed.

Lemma whiteSpace_not_empty : Forall (fun w => w <> "") Trim.whiteSpace.
Proof. repeat constructor; discriminate. Qed.

Lemma whiteSpace_rev_not_empty : Forall (fun w => w <> "") (map Str.rev Trim.whiteSpace).
Proof. repeat constructor; discriminate. Qed.

Lemma trimStart_suffix s : exists front, s = front ++ Trim.trimStart s.
Proof. apply stripLeading_suffix. Qed.

Lemma trimEnd_prefix s : exists back, s = Trim.trimEnd s ++ back.
Proof.
  unfold Trim.trimEnd.
  destruct (stripLeading_suffix (map Str.rev Trim.whiteSpace) (String.length s) (Str.rev s))
    as [front Hf].
  exists (Str.rev front). rewrite <- PathFacts.rev_app, <- Hf. symmetry. apply rev_involutive.
Qed.

(** The trimmed string is a piece of the string. *)
Lemma trim_inside s : exists front back, s = front ++ Trim.trim s ++ back.
Proof.
  unfold Trim.trim. destruct (trimStart_suffix s) as [front Hf].
  destruct (trimEnd_prefix (Trim.trimStart s)) as [back Hb].
  exists front, back. now rewrite <- Hb.
Qed.

Lemma trimStart_done s : Trim.stripOne Trim.whiteSpace (Trim.trimStart s) = None.
Proof. apply stripLeading_done; [apply whiteSpace_not_empty | lia]. Qed.

Lemma trimStart_fixed s :
  Trim.stripOne Trim.whiteSpace s = None -> Trim.trimStart s = s.
Proof. apply stripLeading_fixed. Qed.

Lemma trimEnd_done s :
  Trim.stripOne (map Str.rev Trim.whiteSpace) (Str.rev (Trim.trimEnd s)) = None.
Proof.
  unfold Trim.trimEnd. rewrite rev_involutive.
  apply stripLeading_done; [apply whiteSpace_rev_not_empty |].
  rewrite rev_length. lia.
Qed.

Lemma trimEnd_fixed s :
  Trim.stripOne (map Str.rev Trim.whiteSpace) (Str.rev s) = None -> Trim.trimEnd s = s.
Proof.
  intros H. unfold Trim.trimEnd. rewrite stripLeading_fixed by exact H.
  apply rev_involutive.
Qed.

(** Cutting the end of a string that starts with no white space leaves a
    string that starts with none. *)
Lemma trimEnd_keeps_start s :
  Trim.stripOne Trim.whiteSpace s = None ->
  Trim.stripOne Trim.whiteSpace (Trim.trimEnd s) = None.
Proof.
  intros H. apply stripOne_None_intro. intros w Hw.
  destruct (Str.startsWith w (Trim.trimEnd s)) eqn:E; [| reflexivity].
  destruct (trimEnd_prefix s) as [back Hb].
  pose proof (stripOne_None _ _ _ H Hw) as Hn.
  rewrite Hb, (startsWith_app _ _ _ E) in Hn. discriminate.
Qed.

(** Trimming twice is trimming once. *)
Lemma trim_trim s : Trim.trim (Trim.trim s) = Trim.trim s.
Proof.
  unfold Trim.trim.
  rewrite (trimStart_fixed (Trim.trimEnd (Trim.trimStart s)))
    by apply trimEnd_keeps_start, trimStart_done.
  apply trimEnd_fixed, trimEnd_done.
Qed.

End TrimFacts.

Module ParseFacts.

Import StrFacts.
Local Open Scope string_scope.

Lemma splitBy_pieces sep s p :
  In p (Str.splitBy sep s) -> existsb sep (list_ascii_of_string p) = false.
Proof.
  revert p. induction s as [| a s IH]; intros p; cbn [Str.splitBy].
  - intros [<- | []]. reflexivity.
  - destruct (sep a) eqn:Ha.
    + intros [<- | H]; [reflexivity | now apply IH].
    + destruct (Str.splitBy sep s) as [| h t] eqn:Hs.
      * intros [<- | []]. cbn. now rewrite Ha.
      * intros [<- | H].
        -- cbn. rewrite Ha. apply IH. now left.
        -- apply IH. now right.
Qed.

Lemma existsb_inside sep front mid back :
  existsb sep (list_ascii_of_string (front ++ mid ++ back)) = false ->
  existsb sep (list_ascii_of_string mid) = false.
Proof.
  rewrite !list_ascii_app, !existsb_app. intros H.
  apply orb_false_iff in H. destruct H as [_ H].
  apply orb_false_iff in H. tauto.
Qed.

Lemma parse_In input p :
  In p (parseIgnorePatterns input) ->
  exists piece,
    In piece (Str.splitBy (fun c => Ascii.eqb c (ascii_of_nat 10) || Ascii.eqb c ",") input)
    /\ p = Trim.trim piece
    /\ Str.isEmpty p = false /\ Str.startsWith "#" p = false.
Proof.
  unfold parseIgnorePatterns. destruct (Str.isEmpty input); [intros [] |].
  rewrite filter_In, in_map_iff. intros [(piece & <- & Hin) Hf].
  apply andb_true_iff in Hf. destruct Hf as [H1 H2].
  apply negb_true_iff in H1, H2. now exists piece.
Qed.

Lemma clean_intro p :
  Str.isEmpty p = false -> Str.startsWith "#" p = false ->
  existsb isSeparator (list_ascii_of_string p) = false -> Trim.trim p = p ->
  cleanPattern p = true.
Proof.
  intros H1 H2 H3 H4. unfold cleanPattern. rewrite H1, H2, H3, H4.
  now rewrite String.eqb_refl.
Qed.

Lemma clean_inv p :
  cleanPattern p = true ->
  Str.isEmpty p = false /\ Str.startsWith "#" p = false
  /\ existsb isSeparator (list_ascii_of_string p) = false /\ Trim.trim p = p.
Proof.
  unfold cleanPattern. intros H.
  apply andb_true_iff in H. destruct H as [H H4].
  apply andb_true_iff in H. destruct H as [H H3].
  apply andb_true_iff in H. destruct H as [H1 H2].
  apply negb_true_iff in H1, H2, H3. apply String.eqb_eq in H4. tauto.
Qed.

Lemma parsed_clean input p : In p (parseIgnorePatterns input) -> cleanPattern p = true.
Proof.
  intros H. destruct (parse_In _ _ H) as (piece & Hin & -> & H1 & H2).
  apply clean_intro; auto.
  - destruct (TrimFacts.trim_inside piece) as (front & back & E).
    apply (existsb_inside _ front _ back). rewrite <- E.
    apply (splitBy_pieces _ input). exact Hin.
  - apply TrimFacts.trim_trim.
Qed.

Lemma joined_not_empty sep p ps :
  Str.isEmpty p = false -> Str.isEmpty (String.concat sep (p :: ps)) = false.
Proof.
  destruct p as [| c p]; [discriminate |]. intros _.
  cbn [String.concat]. destruct ps; reflexivity.
Qed.

(** Splitting a list of pieces joined by a separator gives the pieces. *)
Lemma splitBy_concat sep c ps :
  sep c = true -> ps <> [] ->
  Forall (fun p => existsb sep (list_ascii_of_string p) = false) ps ->
  Str.splitBy sep (String.concat (String c "") ps) = ps.
Proof.
  intros Hc Hne H. induction H as [| p ps Hp Hps IH]; [easy |].
  destruct ps as [| q ps].
  - cbn [String.concat]. now apply splitBy_none.
  - change (String.concat (String c "") (p :: q :: ps))
      with (p ++ String c (String.concat (String c "") (q :: ps))).
    rewrite splitBy_app by exact Hc. rewrite IH by discriminate.
    now rewrite splitBy_none.
Qed.

Lemma parse_concat c ps :
  isSeparator c = true -> forallb cleanPattern ps = true ->
  parseIgnorePatterns (String.concat (String c "") ps) = ps.
Proof.
  intros Hc H. rewrite forallb_forall in H.
  destruct ps as [| p ps]; [reflexivity |].
  unfold parseIgnorePatterns.
  rewrite joined_not_empty by (apply clean_inv, H; now left).
  change (fun c0 : ascii => Ascii.eqb c0 (ascii_of_nat 10) || Ascii.eqb c0 ",")
    with isSeparator.
  rewrite splitBy_concat; [| exact Hc | discriminate |].
  - assert (E : map Trim.trim (p :: ps) = p :: ps).
    { rewrite <- (map_id (p :: ps)) at 2. apply map_ext_in.
      intros q Hq. now apply clean_inv, H. }
    rewrite E. apply forallb_filter_id. apply forallb_forall. intros q Hq.
    destruct (clean_inv _ (H q Hq)) as (H1 & H2 & _). now rewrite H1, H2.
  - apply Forall_forall. intros q Hq. now apply clean_inv, H.
Qed.

End ParseFacts.

(** Property X4.  Every pattern [parseIgnorePatterns] returns is clean: it is
    not empty, does not start with the comment sign, holds neither a comma
    nor a line feed, and trimming leaves it as it is. *)
Theorem parsed_patterns_are_clean input p :
  In p (parseIgnorePatterns input) ->
  Str.isEmpty p = false
  /\ Str.startsWith "#" p = false
  /\ existsb isSeparator (list_ascii_of_string p) = false
  /\ Trim.trim p = p.
Proof. intros H. apply ParseFacts.clean_inv. now apply (ParseFacts.parsed_clean input). Qed.

Lemma parsed_patterns_are_clean_witness :
  let input := (" *.tmp ," ++ Str.nl ++ "# build output" ++ Str.nl ++ "dist , ,node_modules")%string in
  parseIgnorePatterns input = ["*.tmp"; "dist"; "node_modules"]
  /\ Trim.trim "dist" = "dist".
Proof.
  cbv zeta. split; [reflexivity |].
  apply (parsed_patterns_are_clean
           (" *.tmp ," ++ Str.nl ++ "# build output" ++ Str.nl ++ "dist , ,node_modules")%string
           "dist").
  vm_compute. right. left. reflexivity.
Defined.

(** Property X5.  Clean patterns joined by commas, or by line feeds, are parsed
    back into the same list; the patterns parsed from an input are clean,
    so joined again they are parsed into themselves. *)
Theorem parse_join_round_trip ps :
  forallb cleanPattern ps = true ->
  parseIgnorePatterns (String.concat "," ps) = ps
  /\ parseIgnorePatterns (String.concat Str.nl ps) = ps.
Proof.
  intros H. split; apply ParseFacts.parse_concat; auto.
Qed.

Lemma parse_join_round_trip_witness :
  forallb cleanPattern ["*.log"; "node_modules"; "src/**/*.map"] = true
  /\ parseIgnorePatterns "*.log,node_modules,src/**/*.map"
     = ["*.log"; "node_modules"; "src/**/*.map"].
Proof.
  split; [reflexivity |].
  exact (proj1 (parse_join_round_trip ["*.log"; "node_modules"; "src/**/*.map"] eq_refl)).
Defined.

Section FilterFacts.

Variable rt : Runtime.

Lemma matchAny_true_iff path patterns :
  matchAny rt path patterns = true
  <-> exists pattern,
        In pattern patterns
        /\ (minimatch rt path pattern = true
            \/ minimatch rt (Path.basename path) pattern = true).
Proof.
  induction patterns as [| p ps IH]; cbn [matchAny].
  - split; [discriminate | intros (? & [] & _)].
  - destruct (minimatch rt path p) eqn:H1.
    { split; [| reflexivity]. intros _. exists p. split; [now left | now left]. }
    destruct (minimatch rt (Path.basename path) p) eqn:H2.
    { split; [| reflexivity]. intros _. exists p. split; [now left | now right]. }
    rewrite IH. split.
    + intros (q & Hq & H). exists q. split; [now right | exact H].
    + intros (q & [<- | Hq] & H).
      * rewrite H1, H2 in H. destruct H; discriminate.
      * now exists q.
Qed.

Lemma replaceAll_fixed c r s :
  existsb (fun a => Ascii.eqb a c) (list_ascii_of_string s) = false ->
  Str.replaceAll c r s = s.
Proof.
  induction s as [| a s IH]; [reflexivity |]. cbn [list_ascii_of_string existsb Str.replaceAll].
  intros H. apply orb_false_iff in H. destruct H as [Ha Hs]. now rewrite Ha, IH.
Qed.

Lemma normalizeSeparators_no_backslash s :
  existsb (fun a => Ascii.eqb a (ascii_of_nat 92))
    (list_ascii_of_string (normalizeSeparators s)) = false.
Proof.
  unfold normalizeSeparators. induction s as [| a s IH]; [reflexivity |].
  cbn [Str.replaceAll]. destruct (Ascii.eqb a (ascii_of_nat 92)) eqn:Ha.
  - exact IH.
  - cbn [list_ascii_of_string existsb]. now rewrite Ha.
Qed.

Lemma normalizeSeparators_idempotent s :
  normalizeSeparators (normalizeSeparators s) = normalizeSeparators s.
Proof.
  unfold normalizeSeparators at 1. apply replaceAll_fixed.
  apply normalizeSeparators_no_backslash.
Qed.

End FilterFacts.

(** Property X6.  A path is ignored exactly when one of the patterns matches
    the path with its backslashes turned into slashes, or the last segment
    of that path; so the order of the patterns and their repetition do not
    matter. *)
Theorem ignored_iff_some_pattern_matches rt relativePath patterns :
  shouldIgnore rt relativePath patterns = true
  <-> exists pattern,
        In pattern patterns
        /\ (minimatch rt (normalizeSeparators relativePath) pattern = true
            \/ minimatch rt (Path.basename (normalizeSeparators relativePath)) pattern
               = true).
Proof. apply matchAny_true_iff. Qed.

(** Property X7.  The filter does not tell a backslash from a slash in the path
    it is given: a path and the same path with slashes for its backslashes
    are ignored by the same patterns. *)
Theorem filter_ignores_separator_style rt relativePath patterns :
  shouldIgnore rt (Str.replaceAll (ascii_of_nat 92) "/" relativePath) patterns
  = shouldIgnore rt relativePath patterns.
Proof.
  unfold shouldIgnore. fold (normalizeSeparators relativePath).
  now rewrite normalizeSeparators_idempotent.
Qed.

(** ** Skipped children *)

Section PruneFacts.

Variable rt : Runtime.
Variable rootDir : string.
Variable ignorePatterns : list string.
Variable outputFormat : string.
Variable stylesheet : string.
Variable includeMetadata : bool.
Variable titleTemplate : string.

Local Abbreviation walk :=
  (walkAndGenerate rt rootDir ignorePatterns outputFormat stylesheet
     includeMetadata titleTemplate).
Local Abbreviation collect :=
  (collectEntries rt rootDir ignorePatterns includeMetadata walk).
Local Abbreviation pruned := (prune rt rootDir ignorePatterns).
Local Abbreviation isListed := (listed rt rootDir ignorePatterns).

Lemma prune_name dir node : nodeName (pruned dir node) = nodeName node.
Proof. destruct node; reflexivity. Qed.

Lemma prune_listed dir dir' item :
  isListed dir (pruned dir' item) = isListed dir item.
Proof. unfold listed, itemRelativePath. now rewrite prune_name. Qed.

Lemma prune_makeEntry dir' itemPath relativePath item :
  makeEntry rt includeMetadata itemPath relativePath (pruned dir' item)
  = makeEntry rt includeMetadata itemPath relativePath item.
Proof. destruct item; reflexivity. Qed.

Lemma prune_isDirectory dir node : isDirectory (pruned dir node) = isDirectory node.
Proof. destruct node; reflexivity. Qed.

Lemma prune_isOther dir node : isOther (pruned dir node) = isOther node.
Proof. destruct node; reflexivity. Qed.

(** What a directory holds under a reserved name, as far as a write goes,
    is kept. *)
Lemma holds_kept kind dir name items :
  (forall dir' node, kind (pruned dir' node) = kind node) ->
  (forall n its, kind (Directory n its) = kind (Directory n [])) ->
  (forall n size mtime, kind (File n size mtime) = false) ->
  isReserved name = true ->
  holds kind name (flat_map (kept rt rootDir ignorePatterns pruned dir) items)
  = holds kind name items.
Proof.
  intros Hk Hd Hf Hr. unfold holds.
  induction items as [| item rest IH]; [reflexivity |].
  cbn [flat_map existsb]. rewrite existsb_app, IH. f_equal. unfold kept.
  destruct (isReserved (nodeName item)) eqn:Hi.
  - destruct item as [n size mtime | n its | n]; cbn [existsb nodeName];
      rewrite ?orb_false_r; try reflexivity.
    + now rewrite Hf.
    + now rewrite (Hd n its).
  - assert (Hn : String.eqb (nodeName item) name = false).
    { destruct (String.eqb (nodeName item) name) eqn:E; [| reflexivity].
      apply String.eqb_eq in E. congruence. }
    rewrite Hn, andb_false_r.
    destruct (shouldIgnore rt _ ignorePatterns); [reflexivity |].
    cbn [existsb]. now rewrite prune_name, Hn, andb_false_r.
Qed.

Lemma targetOf_kept dir name items :
  isReserved name = true ->
  targetOf name (flat_map (kept rt rootDir ignorePatterns pruned dir) items)
  = targetOf name items.
Proof.
  intros Hr. unfold targetOf.
  rewrite (holds_kept isDirectory), (holds_kept isOther); auto;
    intros; first [apply prune_isDirectory | apply prune_isOther | reflexivity].
Qed.

Lemma collect_prune dir items :
  Forall (fun item => forall dir' w, walk dir' item w = walk dir' (pruned dir' item) w)
         items ->
  forall entries w,
    collect dir items entries w
    = collect dir (flat_map (kept rt rootDir ignorePatterns pruned dir) items) entries w.
Proof.
  induction 1 as [| item rest Hitem _ IH]; intros entries w; [reflexivity |].
  rewrite collect_cons. cbn [flat_map]. unfold kept at 1, listed.
  destruct (isReserved (nodeName item)) eqn:Hr; cbn [negb andb].
  - destruct item as [n size mtime | n its | n]; cbn [app]; rewrite ?collect_cons;
      unfold listed; cbn [nodeName] in Hr |- *; rewrite ?Hr; cbn [negb andb]; apply IH.
  - destruct (shouldIgnore rt (itemRelativePath rootDir dir item) ignorePatterns) eqn:Hi;
      cbn [negb]; [apply IH |].
    cbn [app]. rewrite collect_cons, prune_listed. unfold listed. rewrite Hr, Hi.
    cbn [negb andb]. rewrite prune_name, prune_makeEntry.
    unfold itemRelativePath. rewrite prune_name.
    unfold bind.
    assert (Hw : match pruned (Path.join dir (nodeName item)) item with
                 | Directory _ _ =>
                     walk (Path.join dir (nodeName item))
                       (pruned (Path.join dir (nodeName item)) item)
                 | _ => ret tt
                 end w
                 = match item with
                   | Directory _ _ => walk (Path.join dir (nodeName item)) item
                   | _ => ret tt
                   end w).
    { destruct item; try reflexivity. symmetry. apply Hitem. }
    rewrite Hw.
    destruct (match item with
              | Directory _ _ => walk (Path.join dir (nodeName item)) item
              | _ => ret tt
              end w) as [[[] | m] w']; [apply IH | reflexivity].
Qed.

Lemma finishDirectory_targets dir relativePath items items' entries w :
  targetOf "index.html" items = targetOf "index.html" items' ->
  targetOf "index.json" items = targetOf "index.json" items' ->
  finishDirectory rt outputFormat stylesheet titleTemplate dir relativePath items
    entries w
  = finishDirectory rt outputFormat stylesheet titleTemplate dir relativePath items'
      entries w.
Proof. intros Hh Hj. unfold finishDirectory. now rewrite Hh, Hj. Qed.

Lemma walk_prune node : forall dir w, walk dir node w = walk dir (pruned dir node) w.
Proof.
  induction node as [name size mtime | name items IH | name] using Node_nested_ind;
    intros dir w; try reflexivity.
  cbn [walkAndGenerate prune].
  destruct (shouldIgnore rt _ ignorePatterns); [reflexivity |].
  unfold bind at 1 3. cbn [incrementDirectoriesScanned modify].
  unfold bind at 1 2. rewrite <- (collect_prune dir items IH).
  destruct (collect dir items [] _) as [[entries | m] w1]; [| reflexivity].
  apply finishDirectory_targets; symmetry; now apply targetOf_kept.
Qed.

End PruneFacts.

(** Property X8.  What a walk does not look at has no effect on it: the
    children the filter ignores and everything below them, the regular
    files named [index.html] or [index.json], and what a directory under
    one of these names holds.  Two trees that are the same once all of this
    is left out, at every level, are walked with the same result and the
    same final state.  So the index files an earlier run left behind do not
    change what the next run does.  (A directory under one of these names
    is not left out: a write goes onto it and fails.) *)
Theorem skipped_children_have_no_effect
  rt rootDir ignorePatterns outputFormat stylesheet includeMetadata titleTemplate
  dir node node' w :
  prune rt rootDir ignorePatterns dir node = prune rt rootDir ignorePatterns dir node' ->
  walkAndGenerate rt rootDir ignorePatterns outputFormat stylesheet includeMetadata
    titleTemplate dir node w
  = walkAndGenerate rt rootDir ignorePatterns outputFormat stylesheet includeMetadata
      titleTemplate dir node' w.
Proof.
  intros H.
  rewrite (walk_prune rt rootDir ignorePatterns outputFormat stylesheet includeMetadata
             titleTemplate node).
  rewrite (walk_prune rt rootDir ignorePatterns outputFormat stylesheet includeMetadata
             titleTemplate node').
  now rewrite H.
Qed.

(** The sample tree, and the same tree with the files a run writes into
    it; a directory named [index.html] is kept. *)
Lemma skipped_children_have_no_effect_witness :
  let after :=
    Directory "site"
      [ File "file1.txt" 7 1000; File "file2.json" 2 2000;
        File "index.html" 900 3000; File "index.json" 300 3000;
        Directory "subdir" [ File "index.html" 700 3000; File "index.json" 100 3000 ] ] in
  prune Sample.runtime "/site" [] "/site" Sample.tree
  = prune Sample.runtime "/site" [] "/site" after
  /\ prune Sample.runtime "/site" [] "/site" Sample.reservedTree
     = Directory "site" [ Directory "index.html" [] ]
  /\ walkAndGenerate Sample.runtime "/site" [] "both" "" true "Index of {path}"
       "/site" Sample.tree initialWorld
     = walkAndGenerate Sample.runtime "/site" [] "both" "" true "Index of {path}"
         "/site" after initialWorld.
Proof.
  cbv zeta. split; [reflexivity |]. split; [reflexivity |].
  apply skipped_children_have_no_effect. reflexivity.
Defined.

(** ** The index of a directory *)

(** ** The index of a directory and its files *)

Section SortPermutation.

Context {A : Type} (compareFn : A -> A -> Z).

Lemma insertSorted_perm x l : Permutation (insertSorted compareFn x l) (x :: l).
Proof.
  induction l as [| y l IH]; simpl; [reflexivity |].
  destruct (compareFn x y <=? 0)%Z; [reflexivity |].
  rewrite IH. apply perm_swap.
Qed.

(** Sorting rearranges: it neither drops nor repeats an element. *)
Lemma sort_perm l : Permutation (sort compareFn l) l.
Proof.
  induction l as [| x l IH]; simpl; [reflexivity |].
  rewrite insertSorted_perm. now constructor.
Qed.

End SortPermutation.

Section OwnIndex.

Variable rt : Runtime.
Variable rootDir : string.
Variable ignorePatterns : list string.
Variable outputFormat : string.
Variable stylesheet : string.
Variable includeMetadata : bool.
Variable titleTemplate : string.

Local Abbreviation walk :=
  (walkAndGenerate rt rootDir ignorePatterns outputFormat stylesheet
     includeMetadata titleTemplate).
Local Abbreviation idxs :=
  (indexesFrom rt rootDir ignorePatterns includeMetadata).
Local Abbreviation files := (filesOf rt outputFormat stylesheet titleTemplate).
Local Abbreviation visits := (visited rt rootDir ignorePatterns).

(** The indexes and the files of a call that returned, on a directory the
    filter does not ignore: those of the calls on its children, then its
    own. *)
Lemma own_index_last dir name items w :
  shouldIgnore rt (relativePathOf rootDir dir) ignorePatterns = false ->
  fst (walk dir (Directory name items) w) = Return tt ->
  exists earlier tick,
    produced (walk dir (Directory name items)) w
    = earlier ++ [(dir, indexOf rt rootDir ignorePatterns includeMetadata
                          (dir, items) tick)]
    /\ newFiles (walk dir (Directory name items)) w
       = flat_map files earlier
         ++ files (dir, indexOf rt rootDir ignorePatterns includeMetadata
                          (dir, items) tick).
Proof.
  intros Hi Hr. rewrite newFiles_walk, produced_walk by exact Hr.
  rewrite visited_directory by exact Hi.
  rewrite indexesFrom_app. cbn [indexesFrom fst].
  eexists. eexists. split; [reflexivity |].
  rewrite flat_map_app. cbn [flat_map]. now rewrite app_nil_r.
Qed.

Lemma visited_not_ignored node :
  forall dir d items,
    In (d, items) (visits dir node) ->
    shouldIgnore rt (relativePathOf rootDir d) ignorePatterns = false.
Proof.
  induction node as [name size mtime | name its IH | name] using Node_nested_ind;
    intros dir d items Hin;
    try (rewrite visited_not_directory in Hin by reflexivity; contradiction).
  cbn [visited] in Hin.
  destruct (shouldIgnore rt (relativePathOf rootDir dir) ignorePatterns) eqn:Hi;
    [contradiction |].
  apply in_app_or in Hin. destruct Hin as [Hin | [Heq | []]].
  - apply in_flat_map in Hin. destruct Hin as (item & Hitem & Hin).
    destruct (listed rt rootDir ignorePatterns dir item); [| contradiction].
    rewrite Forall_forall in IH. eapply IH; eassumption.
  - inversion Heq; subst. exact Hi.
Qed.

End OwnIndex.

(** Property X9.  Every index a walk assembles, however the walk ends,
    is the index of a directory it was to visit, and its entries are, up to
    their order, one entry for each child of that directory that is neither
    named [index.html] or [index.json] nor ignored by the filter.  A call
    on a directory the filter does not ignore that returns has assembled
    the index of that directory last, after the indexes of the directories
    below it, and has written its files last. *)
Theorem own_index_lists_the_listed_children
  rt rootDir ignorePatterns outputFormat stylesheet includeMetadata titleTemplate
  dir name items w :
  shouldIgnore rt (relativePathOf rootDir dir) ignorePatterns = false ->
  let walk := walkAndGenerate rt rootDir ignorePatterns outputFormat stylesheet
                includeMetadata titleTemplate dir (Directory name items) in
  let entriesFor := fun (d : string) (children : list Node) =>
    map (fun item =>
           makeEntry rt includeMetadata (Path.join d (nodeName item))
             (Path.relative rootDir (Path.join d (nodeName item))) item)
        (filter (fun item =>
                   negb (isReserved (nodeName item))
                   && negb (shouldIgnore rt
                              (Path.relative rootDir (Path.join d (nodeName item)))
                              ignorePatterns))
                children) in
  (forall d index,
      In (d, index) (produced walk w) ->
      exists children,
        In (d, children) (visited rt rootDir ignorePatterns dir (Directory name items))
        /\ Permutation (DirectoryIndex.entries index) (entriesFor d children))
  /\ (fst (walk w) = Return tt ->
      exists earlier index,
        produced walk w = earlier ++ [(dir, index)]
        /\ newFiles walk w
           = flat_map (filesOf rt outputFormat stylesheet titleTemplate) earlier
             ++ filesOf rt outputFormat stylesheet titleTemplate (dir, index)
        /\ Permutation (DirectoryIndex.entries index) (entriesFor dir items)).
Proof.
  intros Hi walk entriesFor. split.
  - intros d index Hin. apply produced_indexOf in Hin.
    destruct Hin as (children & tick & Hv & ->). exists children.
    split; [exact Hv |]. cbn [indexOf DirectoryIndex.entries fst snd]. apply sort_perm.
  - intros Hr.
    destruct (own_index_last rt rootDir ignorePatterns outputFormat stylesheet
                includeMetadata titleTemplate dir name items w Hi Hr)
      as (earlier & tick & Hp & Hf).
    exists earlier. eexists. split; [exact Hp |]. split; [exact Hf |].
    cbn [indexOf DirectoryIndex.entries fst snd]. apply sort_perm.
Qed.

Lemma own_index_lists_the_listed_children_witness :
  let walk := walkAndGenerate Sample.runtime "/site" ["file1.txt"] "json" "" false
                "Index of {path}" "/site" Sample.tree in
  shouldIgnore Sample.runtime (relativePathOf "/site" "/site") ["file1.txt"] = false
  /\ fst (walk initialWorld) = Return tt
  /\ map fst (produced walk initialWorld) = ["/site/subdir"; "/site"]
  /\ exists earlier index,
       produced walk initialWorld = earlier ++ [("/site", index)]
       /\ Permutation (map FileEntry.name (DirectoryIndex.entries index))
            ["file2.json"; "subdir"].
Proof.
  cbv zeta. split; [reflexivity |]. split; [reflexivity |]. split; [reflexivity |].
  destruct (proj2 (own_index_lists_the_listed_children Sample.runtime "/site"
                     ["file1.txt"] "json" "" false "Index of {path}" "/site" "site"
                     [ File "file1.txt" 7 1000; File "file2.json" 2 2000;
                       Directory "subdir" [] ]
                     initialWorld eq_refl) eq_refl)
    as (earlier & index & Hp & _ & He).
  exists earlier, index. split; [exact Hp |].
  apply (Permutation_map FileEntry.name) in He. exact He.
Defined.

(** Property X10.  With metadata requested, every index a walk assembles
    carries, for each regular file among the children of its directory
    that the loop lists, an entry with the size of the file, its
    modification time in ISO form, and its path relative to the root. *)
Theorem regular_files_carry_metadata
  rt rootDir ignorePatterns outputFormat stylesheet titleTemplate
  dir node w d index :
  In (d, index)
     (produced (walkAndGenerate rt rootDir ignorePatterns outputFormat stylesheet
                  true titleTemplate dir node) w) ->
  exists children,
    In (d, children) (visited rt rootDir ignorePatterns dir node)
    /\ forall fileName size mtime,
         In (File fileName size mtime) children ->
         listed rt rootDir ignorePatterns d (File fileName size mtime) = true ->
         In (FileEntry.mk fileName file (Some size) (Some (toISOString rt mtime))
               (Path.relative rootDir (Path.join d fileName)))
            (DirectoryIndex.entries index).
Proof.
  intros Hin. apply produced_indexOf in Hin.
  destruct Hin as (children & tick & Hv & ->). exists children. split; [exact Hv |].
  intros fileName size mtime Hf Hl.
  cbn [indexOf DirectoryIndex.entries fst snd]. apply sort_In.
  unfold entriesOf. apply in_map_iff.
  exists (File fileName size mtime). split; [reflexivity |].
  apply filter_In. split; assumption.
Qed.

Lemma regular_files_carry_metadata_witness :
  let walk := walkAndGenerate Sample.runtime "/site" [] "json" "" true
                "Index of {path}" "/site" Sample.tree in
  let index := snd (last (produced walk initialWorld) ("", DirectoryIndex.mk "" [] "")) in
  In ("/site", index) (produced walk initialWorld)
  /\ In (FileEntry.mk "file1.txt" file (Some 7%Z) (Some "1000") "file1.txt")
        (DirectoryIndex.entries index)
  /\ exists children,
       In ("/site", children) (visited Sample.runtime "/site" [] "/site" Sample.tree).
Proof.
  cbv zeta. split; [vm_compute; auto |]. split; [vm_compute; auto |].
  destruct (regular_files_carry_metadata Sample.runtime "/site" [] "json" ""
              "Index of {path}" "/site" Sample.tree initialWorld "/site" _
              ltac:(vm_compute; right; left; reflexivity))
    as (children & Hv & _).
  exists children. exact Hv.
Defined.

(** Property X11.  Every entry of an index a walk assembles comes from a
    child of the directory of the index: it has the name of that child and
    the path of the child relative to the root, and it is of type directory
    exactly when the child is a directory.  It has neither a size nor a
    modification time when the child is not a regular file, or when no
    metadata is asked for; for a regular file, with metadata asked for, it
    has the size and the modification time of the file. *)
Theorem metadata_only_for_regular_files
  rt rootDir ignorePatterns outputFormat stylesheet includeMetadata titleTemplate
  dir node w d index entry :
  In (d, index)
     (produced (walkAndGenerate rt rootDir ignorePatterns outputFormat stylesheet
                  includeMetadata titleTemplate dir node) w) ->
  In entry (DirectoryIndex.entries index) ->
  exists children item,
    In (d, children) (visited rt rootDir ignorePatterns dir node)
    /\ In item children
    /\ FileEntry.name entry = nodeName item
    /\ FileEntry.path entry = Path.relative rootDir (Path.join d (nodeName item))
    /\ FileEntry.type entry = (if isDirectory item then directory else file)
    /\ (isFile item = false \/ includeMetadata = false ->
        FileEntry.size entry = None /\ FileEntry.modified entry = None)
    /\ (forall fileName size mtime,
          item = File fileName size mtime -> includeMetadata = true ->
          FileEntry.size entry = Some size
          /\ FileEntry.modified entry = Some (toISOString rt mtime)).
Proof.
  intros Hin He.
  apply produced_indexOf in Hin. destruct Hin as (children & tick & Hv & ->).
  cbn [indexOf DirectoryIndex.entries fst snd] in He.
  apply sort_In in He. unfold entriesOf in He. apply in_map_iff in He.
  destruct He as (item & <- & Hitem). apply filter_In in Hitem.
  exists children, item. split; [exact Hv |]. split; [apply Hitem |].
  unfold itemRelativePath.
  destruct item as [n size mtime | n its | n], includeMetadata;
    cbn [makeEntry nodeName isDirectory isFile andb FileEntry.name FileEntry.path
         FileEntry.type FileEntry.size FileEntry.modified];
    do 3 (split; [reflexivity |]);
    (split;
     [ intros [H | H]; try discriminate H; split; reflexivity
     | intros fileName size' mtime' H Hm; try discriminate;
       inversion H; subst; split; reflexivity ]).
Qed.

(** A symbolic link beside a regular file, with metadata asked for: the
    entry of the link has none. *)
Lemma metadata_only_for_regular_files_witness :
  let tree := Directory "site" [ File "a.txt" 7 1000; Special "link" ] in
  let walk := walkAndGenerate Sample.runtime "/site" [] "json" "" true
                "Index of {path}" "/site" tree in
  let index := snd (last (produced walk initialWorld) ("", DirectoryIndex.mk "" [] "")) in
  let entry := last (DirectoryIndex.entries index) (FileEntry.mk "" file None None "") in
  In ("/site", index) (produced walk initialWorld)
  /\ In entry (DirectoryIndex.entries index)
  /\ DirectoryIndex.entries index
     = [ FileEntry.mk "a.txt" file (Some 7%Z) (Some "1000") "a.txt";
         FileEntry.mk "link" file None None "link" ]
  /\ exists children item,
       In ("/site", children) (visited Sample.runtime "/site" [] "/site" tree)
       /\ In item children
       /\ FileEntry.name entry = nodeName item.
Proof.
  cbv zeta. split; [vm_compute; auto |]. split; [vm_compute; auto |].
  split; [reflexivity |].
  destruct (metadata_only_for_regular_files Sample.runtime "/site" [] "json" "" true
              "Index of {path}" "/site"
              (Directory "site" [ File "a.txt" 7 1000; Special "link" ])
              initialWorld "/site" _ _
              ltac:(vm_compute; left; reflexivity)
              ltac:(vm_compute; right; left; reflexivity))
    as (children & item & Hv & Hi & Hn & _).
  exists children, item. auto.
Defined.

(** Property X12.  A walk never assembles an index for a directory the filter
    ignores. *)
Theorem no_index_for_ignored_directory
  rt rootDir ignorePatterns outputFormat stylesheet includeMetadata titleTemplate
  dir node w d index :
  In (d, index)
     (produced (walkAndGenerate rt rootDir ignorePatterns outputFormat stylesheet
                  includeMetadata titleTemplate dir node) w) ->
  shouldIgnore rt (Str.orElse (Path.relative rootDir d) "/") ignorePatterns = false.
Proof.
  intros Hin. apply produced_indexOf in Hin. destruct Hin as (items & tick & Hv & _).
  exact (visited_not_ignored rt rootDir ignorePatterns node dir d items Hv).
Qed.

Lemma no_index_for_ignored_directory_witness :
  let walk := walkAndGenerate Sample.runtime "/site" ["subdir"] "json" "" true
                "Index of {path}" "/site" Sample.tree in
  map fst (produced walk initialWorld) = ["/site"]
  /\ shouldIgnore Sample.runtime (Str.orElse (Path.relative "/site" "/site") "/")
       ["subdir"] = false.
Proof.
  cbv zeta. split; [reflexivity |].
  eapply (no_index_for_ignored_directory Sample.runtime "/site" ["subdir"] "json" ""
            true "Index of {path}" "/site" Sample.tree initialWorld "/site").
  vm_compute. left. reflexivity.
Defined.

(** Property X13.  The files a walk writes, however it ends, are files of
    the indexes it assembles and no others: an [index.html] in the directory
    of the index holding the rendered document, when the format is [html]
    or [both], or an [index.json] holding the serialised index, when the
    format is [json] or [both]; so there are at most as many files as
    indexes times formats.  A walk that returns has written all of them:
    the files of every index, as many as indexes times formats. *)
Theorem written_files_are_the_index_files
  rt rootDir ignorePatterns outputFormat stylesheet includeMetadata titleTemplate
  dir node w :
  let walk := walkAndGenerate rt rootDir ignorePatterns outputFormat stylesheet
                includeMetadata titleTemplate dir node in
  let formats := Nat.b2n (wantsHtml outputFormat) + Nat.b2n (wantsJson outputFormat) in
  (forall file data,
      In (file, data) (newFiles walk w) ->
      exists d index,
        In (d, index) (produced walk w)
        /\ ((wantsHtml outputFormat = true
             /\ file = Path.join d "index.html"
             /\ data = generateHtml rt index stylesheet titleTemplate)
            \/ (wantsJson outputFormat = true
                /\ file = Path.join d "index.json"
                /\ data = JSON_stringify rt index)))
  /\ length (newFiles walk w) <= formats * length (produced walk w)
  /\ (fst (walk w) = Return tt ->
      (forall d index,
          In (d, index) (produced walk w) ->
          (wantsHtml outputFormat = true ->
           In (Path.join d "index.html", generateHtml rt index stylesheet titleTemplate)
              (newFiles walk w))
          /\ (wantsJson outputFormat = true ->
              In (Path.join d "index.json", JSON_stringify rt index) (newFiles walk w)))
      /\ length (newFiles walk w) = formats * length (produced walk w)).
Proof.
  cbv zeta.
  destruct (newFiles_prefix rt rootDir ignorePatterns outputFormat stylesheet
              includeMetadata titleTemplate dir node w) as [rest Hpre].
  split; [| split].
  - intros file data Hin.
    assert (Hin' : In (file, data)
                     (flat_map (filesOf rt outputFormat stylesheet titleTemplate)
                        (produced (walkAndGenerate rt rootDir ignorePatterns
                                     outputFormat stylesheet includeMetadata
                                     titleTemplate dir node) w)))
      by (rewrite Hpre; apply in_or_app; now left).
    apply in_flat_map in Hin'.
    destruct Hin' as ([d index] & Hdi & Hf). exists d, index. split; [exact Hdi |].
    unfold filesOf in Hf. cbn [fst snd] in Hf. apply in_app_or in Hf.
    destruct Hf as [Hf | Hf].
    + destruct (wantsHtml outputFormat); [| contradiction].
      destruct Hf as [Heq | []]. inversion Heq. left. auto.
    + destruct (wantsJson outputFormat); [| contradiction].
      destruct Hf as [Heq | []]. inversion Heq. right. auto.
  - rewrite <- (files_length rt outputFormat stylesheet titleTemplate), Hpre, length_app.
    lia.
  - intros Hr. rewrite newFiles_walk, produced_walk by exact Hr.
    split; [| apply files_length].
    intros d index Hdi. split; intros Hw; apply in_flat_map; exists (d, index);
      (split; [exact Hdi |]); unfold filesOf; rewrite Hw; cbn [fst snd];
      apply in_or_app; [left | right]; left; reflexivity.
Qed.

(** ** Order of reading *)

Section SortUnique.

Context {A : Type} (compareFn : A -> A -> Z).

Local Abbreviation le := (fun x y => (compareFn x y <= 0)%Z).

(** Two ascending arrangements of the same elements are the same list,
    when no two different elements stand at the same place of the order. *)
Lemma sorted_unique l :
  forall l',
    (forall x y, In x l -> In y l -> le x y -> le y x -> x = y) ->
    StronglySorted le l -> StronglySorted le l' -> Permutation l l' -> l = l'.
Proof.
  induction l as [| a t IH]; intros l' Hanti Hs Hs' Hp.
  - apply Permutation_nil in Hp. now subst.
  - destruct l' as [| a' t'];
      [apply Permutation_sym, Permutation_nil in Hp; discriminate |].
    inversion Hs as [| ? ? Hst Hfa]; subst.
    inversion Hs' as [| ? ? Hst' Hfa']; subst.
    assert (E : a = a').
    { assert (H : In a (a' :: t')) by (eapply Permutation_in; [exact Hp | now left]).
      assert (H' : In a' (a :: t))
        by (eapply Permutation_in; [apply Permutation_sym; exact Hp | now left]).
      destruct H as [-> | H]; [reflexivity |].
      destruct H' as [-> | H']; [reflexivity |].
      apply Hanti; [now left | now right | |].
      - rewrite Forall_forall in Hfa. now apply Hfa.
      - rewrite Forall_forall in Hfa'. now apply Hfa'. }
    subst a'. f_equal. apply IH; auto.
    + intros x y Hx Hy. apply Hanti; now right.
    + eapply Permutation_cons_inv; exact Hp.
Qed.

Hypothesis total : forall x y, le x y \/ le y x.
Hypothesis transitive : forall x y z, le x y -> le y z -> le x z.

(** Sorting does not depend on the order of its input. *)
Lemma sort_unique l l' :
  (forall x y, In x l -> In y l -> le x y -> le y x -> x = y) ->
  Permutation l l' -> sort compareFn l = sort compareFn l'.
Proof.
  intros Hanti Hp. apply sorted_unique.
  - intros x y Hx Hy. apply Hanti; now apply (sort_In compareFn).
  - now apply sort_sorted.
  - now apply sort_sorted.
  - rewrite sort_perm, Hp. symmetry. apply sort_perm.
Qed.

End SortUnique.

Lemma NoDup_map_In {A B} (f : A -> B) l x y :
  NoDup (map f l) -> In x l -> In y l -> f x = f y -> x = y.
Proof.
  induction l as [| a l IH]; [intros _ [] |]. cbn [map].
  intros Hn Hx Hy E. inversion Hn as [| ? ? Ha Hl]; subst.
  destruct Hx as [-> | Hx], Hy as [-> | Hy]; auto.
  - exfalso. apply Ha. rewrite E. now apply in_map.
  - exfalso. apply Ha. rewrite <- E. now apply in_map.
Qed.

Lemma filter_perm {A} (f : A -> bool) l l' :
  Permutation l l' -> Permutation (filter f l) (filter f l').
Proof.
  induction 1 as [| x l l' H IH | x y l | l l' l'' H1 IH1 H2 IH2]; cbn [filter].
  - constructor.
  - destruct (f x); [now constructor | exact IH].
  - destruct (f x), (f y); try reflexivity. constructor.
  - now transitivity (filter f l').
Qed.

Section ReadOrder.

Variable rt : Runtime.
Variable rootDir : string.
Variable ignorePatterns : list string.
Variable includeMetadata : bool.

Local Abbreviation entries := (entriesOf rt rootDir ignorePatterns includeMetadata).

Lemma makeEntry_name itemPath itemRelativePath item :
  FileEntry.name (makeEntry rt includeMetadata itemPath itemRelativePath item)
  = nodeName item.
Proof. destruct item, includeMetadata; reflexivity. Qed.

Lemma entriesOf_perm dir items items' :
  Permutation items items' -> Permutation (entries dir items) (entries dir items').
Proof. intros H. unfold entriesOf. now apply Permutation_map, filter_perm. Qed.

Hypothesis consistent : consistentComparator (localeCompare rt).

(** No two names of [items] stand at the same place of the order. *)
Local Abbreviation separated items :=
  (forall a b,
      In a (map nodeName items) -> In b (map nodeName items) ->
      (localeCompare rt a b <= 0)%Z -> (localeCompare rt b a <= 0)%Z -> a = b).

Lemma compareEntries_separating dir items a b :
  separated items ->
  NoDup (map nodeName items) ->
  In a (entries dir items) -> In b (entries dir items) ->
  (compareEntries rt a b <= 0)%Z -> (compareEntries rt b a <= 0)%Z -> a = b.
Proof.
  intros Hs Hn Ha Hb. unfold entriesOf in Ha, Hb.
  apply in_map_iff in Ha. destruct Ha as (i & <- & Hi).
  apply in_map_iff in Hb. destruct Hb as (j & <- & Hj).
  apply filter_In in Hi, Hj. destruct Hi as [Hi _], Hj as [Hj _].
  intros H1 H2.
  assert (E : nodeName i = nodeName j).
  { revert H1 H2. unfold compareEntries. rewrite !makeEntry_name.
    destruct (FileEntry.type (makeEntry _ _ _ _ i)),
             (FileEntry.type (makeEntry _ _ _ _ j)); cbn; try lia;
      apply Hs; now apply in_map. }
  now rewrite (NoDup_map_In nodeName items i j Hn Hi Hj E).
Qed.

Lemma sorted_entries_unique dir items items' :
  separated items ->
  NoDup (map nodeName items) -> Permutation items items' ->
  sort (compareEntries rt) (entries dir items)
  = sort (compareEntries rt) (entries dir items').
Proof.
  intros Hs Hn Hp. apply sort_unique.
  - now apply compareEntries_total.
  - now apply compareEntries_transitive.
  - intros x y. now apply compareEntries_separating.
  - now apply entriesOf_perm.
Qed.

End ReadOrder.

Module SampleOrder.

Lemma swapCaseChar_involutive c : Sample.swapCaseChar (Sample.swapCaseChar c) = c.
Proof. destruct c as [[] [] [] [] [] [] [] []]; reflexivity. Qed.

Lemma mapChars_swapCase_inj a :
  forall b, Sample.mapChars Sample.swapCaseChar a = Sample.mapChars Sample.swapCaseChar b ->
            a = b.
Proof.
  induction a as [| c a IH]; intros [| d b]; cbn [Sample.mapChars]; try discriminate.
  - reflexivity.
  - intros H. injection H as Hc H. f_equal; [| now apply IH].
    now rewrite <- (swapCaseChar_involutive c), Hc, swapCaseChar_involutive.
Qed.

Lemma letterCollation_separating a b :
  (Sample.letterCollation a b <= 0)%Z -> (Sample.letterCollation b a <= 0)%Z -> a = b.
Proof.
  rewrite !SampleFacts.letterCollation_le.
  intros H1 H2. apply mapChars_swapCase_inj. apply String.compare_eq_iff.
  rewrite (String.compare_antisym (Sample.mapChars Sample.lowerChar a)) in H1.
  rewrite (String.compare_antisym (Sample.mapChars Sample.swapCaseChar a)) in H1 |- *.
  destruct (String.compare (Sample.mapChars Sample.lowerChar b) _);
    destruct (String.compare (Sample.mapChars Sample.swapCaseChar b) _);
    cbn in *; intuition congruence.
Qed.

End SampleOrder.

(** Property X14.  The entries of an index do not depend on the order in
    which the directory was read.  For a directory whose children have
    different names, no two of which [localeCompare] puts at the same place
    of its order, and a [localeCompare] that orders: two calls that return,
    on that directory with its children in one order and in another,
    assemble for it indexes with the same path and the same entries. *)
Theorem entries_do_not_depend_on_read_order
  rt rootDir ignorePatterns outputFormat stylesheet includeMetadata titleTemplate
  dir name items items' w w' :
  shouldIgnore rt (relativePathOf rootDir dir) ignorePatterns = false ->
  consistentComparator (localeCompare rt) ->
  (forall a b,
      In a (map nodeName items) -> In b (map nodeName items) ->
      (localeCompare rt a b <= 0)%Z -> (localeCompare rt b a <= 0)%Z -> a = b) ->
  NoDup (map nodeName items) ->
  Permutation items items' ->
  let walk := walkAndGenerate rt rootDir ignorePatterns outputFormat stylesheet
                includeMetadata titleTemplate dir in
  fst (walk (Directory name items) w) = Return tt ->
  fst (walk (Directory name items') w') = Return tt ->
  exists earlier earlier' index index',
    produced (walk (Directory name items)) w = earlier ++ [(dir, index)]
    /\ produced (walk (Directory name items')) w' = earlier' ++ [(dir, index')]
    /\ DirectoryIndex.path index = DirectoryIndex.path index'
    /\ DirectoryIndex.entries index = DirectoryIndex.entries index'.
Proof.
  intros Hi Hc Hs Hn Hp walk Hr Hr'. subst walk.
  destruct (own_index_last rt rootDir ignorePatterns outputFormat stylesheet
              includeMetadata titleTemplate dir name items w Hi Hr)
    as (earlier & tick & H & _).
  destruct (own_index_last rt rootDir ignorePatterns outputFormat stylesheet
              includeMetadata titleTemplate dir name items' w' Hi Hr')
    as (earlier' & tick' & H' & _).
  exists earlier, earlier'. eexists. eexists.
  split; [exact H |]. split; [exact H' |]. split; [reflexivity |].
  cbn [indexOf DirectoryIndex.entries fst snd]. now apply sorted_entries_unique.
Qed.

Lemma entries_do_not_depend_on_read_order_witness :
  let items := [ File "file1.txt" 7 1000; File "file2.json" 2 2000; Directory "subdir" [] ] in
  let items' := [ Directory "subdir" []; File "file2.json" 2 2000; File "file1.txt" 7 1000 ] in
  let walk := walkAndGenerate Sample.runtime "/site" [] "both" "" true
                "Index of {path}" "/site" in
  shouldIgnore Sample.runtime (relativePathOf "/site" "/site") [] = false
  /\ NoDup (map nodeName items)
  /\ Permutation items items'
  /\ fst (walk (Directory "site" items) initialWorld) = Return tt
  /\ fst (walk (Directory "site" items') initialWorld) = Return tt
  /\ exists earlier earlier' index index',
       produced (walk (Directory "site" items)) initialWorld = earlier ++ [("/site", index)]
       /\ produced (walk (Directory "site" items')) initialWorld
          = earlier' ++ [("/site", index')]
       /\ DirectoryIndex.path index = DirectoryIndex.path index'
       /\ DirectoryIndex.entries index = DirectoryIndex.entries index'.
Proof.
  cbv zeta.
  assert (Hn : NoDup (map nodeName
                        [ File "file1.txt" 7 1000; File "file2.json" 2 2000;
                          Directory "subdir" [] ])).
  { repeat constructor; cbn; intuition discriminate. }
  assert (Hp : Permutation
                 [ File "file1.txt" 7 1000; File "file2.json" 2 2000; Directory "subdir" [] ]
                 [ Directory "subdir" []; File "file2.json" 2 2000; File "file1.txt" 7 1000 ]).
  { apply (Permutation_rev
             [ File "file1.txt" 7 1000; File "file2.json" 2 2000; Directory "subdir" [] ]). }
  split; [reflexivity |]. split; [exact Hn |]. split; [exact Hp |].
  split; [reflexivity |]. split; [reflexivity |].
  apply (entries_do_not_depend_on_read_order Sample.runtime "/site" [] "both" "" true
           "Index of {path}" "/site" "site" _ _ initialWorld initialWorld
           eq_refl SampleFacts.letterCollation_consistent
           (fun a b _ _ => SampleOrder.letterCollation_separating a b) Hn Hp
           eq_refl eq_refl).
Defined.

(** ** The document *)

Module EscapeFacts.

Import StrFacts MarkupFacts.
Local Open Scope string_scope.

Lemma escapeHtml_app a b : escapeHtml (a ++ b) = escapeHtml a ++ escapeHtml b.
Proof.
  induction a as [| c a IH]; [reflexivity |].
  cbn [append]. rewrite !escapeHtml_cons, IH. now rewrite append_assoc.
Qed.

Lemma escapeHtml_length s : String.length s <= String.length (escapeHtml s).
Proof.
  induction s as [| c s IH]; [reflexivity |].
  rewrite escapeHtml_cons, length_append.
  destruct (Ascii.eqb c "&"); [cbn; lia |].
  destruct (Ascii.eqb c "<"); [cbn; lia |].
  destruct (Ascii.eqb c ">"); [cbn; lia |].
  destruct (Ascii.eqb c (ascii_of_nat 34)); cbn; lia.
Qed.

Ltac split_char c :=
  let E := fresh "E" in
  destruct (Ascii.eqb c "&") eqn:E;
  [ apply Ascii.eqb_eq in E
  | let E := fresh "E" in
    destruct (Ascii.eqb c "<") eqn:E;
    [ apply Ascii.eqb_eq in E
    | let E := fresh "E" in
      destruct (Ascii.eqb c ">") eqn:E;
      [ apply Ascii.eqb_eq in E
      | let E := fresh "E" in
        destruct (Ascii.eqb c (ascii_of_nat 34)) eqn:E;
        [ apply Ascii.eqb_eq in E | ] ] ] ].

Lemma escapeHtml_inj a : forall b, escapeHtml a = escapeHtml b -> a = b.
Proof.
  induction a as [| c a IH]; intros [| d b].
  - reflexivity.
  - rewrite escapeHtml_cons. split_char d; discriminate.
  - rewrite escapeHtml_cons. split_char c; discriminate.
  - rewrite !escapeHtml_cons.
    split_char c; split_char d; subst; cbn [append]; intros H;
      try discriminate H;
      try (injection H as H; f_equal; now apply IH);
      try (injection H as Hd _; subst; cbn in *; discriminate).
    injection H as -> H. f_equal. now apply IH.
Qed.

Lemma plain_cons c s :
  plainText (String c s) = negb (Markup.isSpecial c) && plainText s.
Proof. reflexivity. Qed.

Lemma plain_app a b : plainText (a ++ b) = plainText a && plainText b.
Proof. unfold plainText. now rewrite list_ascii_app, forallb_app. Qed.

Lemma escapeHtml_plain s : plainText s = true -> escapeHtml s = s.
Proof.
  induction s as [| c s IH]; [reflexivity |].
  rewrite plain_cons, escapeHtml_cons. intros H.
  apply andb_true_iff in H. destruct H as [Hc Hs]. apply negb_true_iff in Hc.
  unfold Markup.isSpecial in Hc.
  apply orb_false_iff in Hc. destruct Hc as [Hc H4].
  apply orb_false_iff in Hc. destruct Hc as [Hc H3].
  apply orb_false_iff in Hc. destruct Hc as [H1 H2].
  rewrite H1, H2, H3, H4, (IH Hs). reflexivity.
Qed.

Lemma escapeHtml_changed s : escapeHtml s = s -> plainText s = true.
Proof.
  induction s as [| c s IH]; [reflexivity |].
  rewrite plain_cons, escapeHtml_cons. unfold Markup.isSpecial.
  pose proof (escapeHtml_length s) as Hl.
  split_char c; cbn [append]; intros H;
    try (apply (f_equal String.length) in H; cbn [String.length] in H; lia).
  injection H as H. now rewrite (IH H).
Qed.

Lemma raw_plain s : plainText s = true -> Markup.raw s = "".
Proof.
  intros H. rewrite <- (escapeHtml_plain s H), <- (append_nil_r (escapeHtml s)).
  apply raw_escapeHtml.
Qed.

End EscapeFacts.

(** Property X15.  Escaping loses nothing and works character by character: the
    escaped form of a concatenation is the concatenation of the escaped
    forms, and two texts with the same escaped form are the same text. *)
Theorem escaping_is_injective a b :
  escapeHtml (a ++ b) = (escapeHtml a ++ escapeHtml b)%string
  /\ (escapeHtml a = escapeHtml b -> a = b).
Proof. split; [apply EscapeFacts.escapeHtml_app | apply EscapeFacts.escapeHtml_inj]. Qed.

(** Property X16.  The texts escaping leaves as they are, are those without an
    ampersand, an angle bracket or a double quote; an apostrophe is never
    escaped. *)
Theorem escaping_changes_only_special_text s :
  (escapeHtml s = s <-> plainText s = true)
  /\ (forall t, escapeHtml (s ++ "'" ++ t) = (escapeHtml s ++ "'" ++ escapeHtml t)%string).
Proof.
  split.
  - split; [apply EscapeFacts.escapeHtml_changed | apply EscapeFacts.escapeHtml_plain].
  - intros t. now rewrite !EscapeFacts.escapeHtml_app.
Qed.

Module SizeFacts.

Import StrFacts EscapeFacts.
Local Open Scope string_scope.

Lemma plain_uint d : plainText (NilZero.string_of_uint d) = true.
Proof.
  assert (H : forall d, plainText (NilEmpty.string_of_uint d) = true).
  { clear d. intros d. induction d as [| d IH | d IH | d IH | d IH | d IH | d IH | d IH | d IH | d IH | d IH];
      cbn [NilEmpty.string_of_uint]; rewrite ?plain_cons, ?IH; reflexivity. }
  unfold NilZero.string_of_uint. destruct d; try reflexivity; apply H.
Qed.

Lemma plain_ofZ z : plainText (Str.ofZ z) = true.
Proof.
  unfold Str.ofZ, NilZero.string_of_int.
  destruct (Z.to_int z); [apply plain_uint |].
  rewrite plain_cons. rewrite plain_uint. reflexivity.
Qed.

Lemma plain_toFixed1 num den : plainText (toFixed1 num den) = true.
Proof.
  unfold toFixed1. cbv zeta. now rewrite !plain_app, !plain_ofZ.
Qed.

Lemma plain_formatFileSize bytes : plainText (formatFileSize bytes) = true.
Proof.
  unfold formatFileSize.
  destruct (bytes <? 1024)%Z; [| destruct (bytes <? 1024 * 1024)%Z];
    rewrite plain_app, ?plain_ofZ, ?plain_toFixed1; reflexivity.
Qed.

Lemma tenths_bound num den :
  (0 < den)%Z ->
  let n := ((20 * num + den) / (2 * den))%Z in
  (- den < 2 * (den * n - 10 * num) <= den)%Z.
Proof.
  intros Hd n.
  pose proof (Z.div_mod (20 * num + den) (2 * den) ltac:(lia)) as E.
  pose proof (Z.mod_pos_bound (20 * num + den) (2 * den) ltac:(lia)) as B.
  fold n in E. lia.
Qed.

End SizeFacts.

(** Property X17.  The text of a size holds no ampersand, angle bracket or
    double quote, whatever the number: the size cell, which the renderer
    does not escape, brings no markup into the document. *)
Theorem size_text_is_plain bytes :
  plainText (formatFileSize bytes) = true
  /\ Markup.raw (formatFileSize bytes) = "".
Proof.
  split; [apply SizeFacts.plain_formatFileSize |].
  apply EscapeFacts.raw_plain, SizeFacts.plain_formatFileSize.
Qed.

(** Property X18.  From 1024 bytes on, and below 2^53 bytes, where every
    whole number is a number of the program, the size is shown with one
    decimal, in KB below 1024 * 1024 bytes and in MB from there on, with no
    larger unit: the figure [n / 10] shown is the tenth nearest to the
    quotient, the larger one on a tie.  In KB the figure lies between 1.0
    and 1024.0, so a size just below 1 MB is shown as 1024.0 KB. *)
Theorem size_is_rounded_to_a_tenth bytes :
  (1024 <= bytes < 9007199254740992)%Z ->
  exists n den unit,
    formatFileSize bytes
    = (Str.ofZ (n / 10) ++ "." ++ Str.ofZ (n mod 10) ++ unit)%string
    /\ ((bytes < 1024 * 1024 /\ den = 1024 /\ unit = " KB" /\ 10 <= n <= 10240)%Z
        \/ (1024 * 1024 <= bytes /\ den = 1024 * 1024 /\ unit = " MB" /\ 10 <= n)%Z)
    /\ (- den < 2 * (den * n - 10 * bytes) <= den)%Z.
Proof.
  intros H. unfold formatFileSize, toFixed1. cbv zeta.
  destruct (Z.ltb_spec bytes 1024); [lia |].
  destruct (Z.ltb_spec bytes (1024 * 1024)).
  - exists ((20 * bytes + 1024) / (2 * 1024))%Z, 1024%Z, " KB".
    pose proof (SizeFacts.tenths_bound bytes 1024 ltac:(lia)) as B. cbv zeta in B.
    split; [now rewrite !StrFacts.append_assoc |]. split; [| exact B].
    left. repeat split; try lia.
  - exists ((20 * bytes + 1024 * 1024) / (2 * (1024 * 1024)))%Z, (1024 * 1024)%Z, " MB".
    pose proof (SizeFacts.tenths_bound bytes (1024 * 1024) ltac:(lia)) as B. cbv zeta in B.
    split; [now rewrite !StrFacts.append_assoc |]. split; [| exact B].
    right. repeat split; try lia.
Qed.

Lemma size_is_rounded_to_a_tenth_witness :
  formatFileSize 1048575 = "1024.0 KB"
  /\ formatFileSize 1536 = "1.5 KB"
  /\ exists n den unit,
       formatFileSize 1048575
       = (Str.ofZ (n / 10) ++ "." ++ Str.ofZ (n mod 10) ++ unit)%string
       /\ ((1048575 < 1024 * 1024 /\ den = 1024 /\ unit = " KB" /\ 10 <= n <= 10240)%Z
           \/ (1024 * 1024 <= 1048575 /\ den = 1024 * 1024 /\ unit = " MB" /\ 10 <= n)%Z)
       /\ (- den < 2 * (den * n - 10 * 1048575) <= den)%Z.
Proof.
  split; [reflexivity |]. split; [reflexivity |].
  apply (size_is_rounded_to_a_tenth 1048575). lia.
Defined.

Module TitleFacts.

Import StrFacts.
Local Open Scope string_scope.

Lemma lacks_cons c a s :
  lacks c (String a s) = true -> Ascii.eqb c a = false /\ lacks c s = true.
Proof.
  unfold lacks. cbn [list_ascii_of_string existsb]. intros H.
  apply negb_true_iff, orb_false_iff in H. destruct H as [H1 H2].
  split; [exact H1 | now apply negb_true_iff].
Qed.

Lemma find_placeholder before after :
  lacks "{" before = true ->
  Replace.find "{path}" (before ++ "{path}" ++ after) = Some (before, after).
Proof.
  induction before as [| c before IH]; intros H.
  - cbn [append]. destruct after; reflexivity.
  - apply lacks_cons in H. destruct H as [Hc H].
    change (String c before ++ "{path}" ++ after)
      with (String c (before ++ "{path}" ++ after)).
    cbn [Replace.find Str.startsWith]. rewrite Hc. cbn [andb].
    now rewrite (IH H).
Qed.

Lemma getSubstitution_plain matched before after replacement :
  lacks "$" replacement = true ->
  Replace.getSubstitution matched before after replacement = replacement.
Proof.
  induction replacement as [| c r IH]; [reflexivity |]. intros H.
  apply lacks_cons in H. destruct H as [Hc H].
  cbn [Replace.getSubstitution]. rewrite Ascii.eqb_sym, Hc. now rewrite (IH H).
Qed.

Lemma replace_placeholder path before after :
  lacks "{" before = true -> lacks "$" path = true ->
  Replace.replace "{path}" path (before ++ "{path}" ++ after) = before ++ path ++ after.
Proof.
  intros Hb Hp. unfold Replace.replace.
  now rewrite find_placeholder, getSubstitution_plain.
Qed.

Lemma includes_app_l needle a b :
  Str.includes needle a = true -> Str.includes needle (a ++ b) = true.
Proof.
  induction a as [| c a IH].
  - cbn [Str.includes]. rewrite orb_false_r. intros H.
    destruct needle; [| discriminate]. destruct b; reflexivity.
  - cbn [append]. cbn [Str.includes]. intros H.
    apply orb_true_iff in H. destruct H as [H | H].
    + change (String c (a ++ b)) with (String c a ++ b).
      now rewrite (startsWith_app _ _ _ H).
    + rewrite (IH H). apply orb_true_r.
Qed.

Lemma includes_self s : Str.includes s s = true.
Proof. rewrite <- (append_nil_r s) at 2. apply includes_prefix. Qed.

Lemma includes_concat sep x line l :
  In line l -> Str.includes x line = true ->
  Str.includes x (String.concat sep l) = true.
Proof.
  intros Hin Hx. induction l as [| y l IH]; [destruct Hin |].
  destruct Hin as [-> | H].
  - destruct l; cbn [String.concat]; [exact Hx | now apply includes_app_l].
  - destruct l as [| z l]; [destruct H |].
    change (String.concat sep (y :: z :: l))
      with (y ++ sep ++ String.concat sep (z :: l)).
    now apply includes_app_r, includes_app_r, IH.
Qed.

End TitleFacts.

(** Property X19.  With a title template that holds the placeholder after text
    without a brace, and a path without a dollar sign, the title is the
    template with its first placeholder replaced by the path, and the
    document holds it, escaped, as its title and as its heading. *)
Theorem title_replaces_the_placeholder rt index stylesheet before after :
  lacks "{" before = true ->
  lacks "$" (DirectoryIndex.path index) = true ->
  let title := (before ++ DirectoryIndex.path index ++ after)%string in
  let html := generateHtml rt index stylesheet (before ++ "{path}" ++ after) in
  Replace.replace "{path}" (DirectoryIndex.path index) (before ++ "{path}" ++ after) = title
  /\ Str.includes ("<title>" ++ escapeHtml title ++ "</title>") html = true
  /\ Str.includes ("<h1>" ++ escapeHtml title ++ "</h1>") html = true.
Proof.
  intros Hb Hp title html. subst title html.
  split; [now apply TitleFacts.replace_placeholder |].
  unfold generateHtml. cbv zeta. rewrite TitleFacts.replace_placeholder by assumption.
  split.
  - eapply TitleFacts.includes_concat; [do 5 right; left; reflexivity |].
    apply (StrFacts.includes_app_r _ "  "), TitleFacts.includes_self.
  - eapply TitleFacts.includes_concat; [do 9 right; left; reflexivity |].
    apply (StrFacts.includes_app_r _ "  "), TitleFacts.includes_self.
Qed.

Lemma title_replaces_the_placeholder_witness :
  let index := DirectoryIndex.mk "/docs/api" [] "2024-01-01T00:00:00.000Z" in
  lacks "{" "Index of " = true
  /\ lacks "$" (DirectoryIndex.path index) = true
  /\ Replace.replace "{path}" "/docs/api" "Index of {path} - {path}"
     = "Index of /docs/api - {path}".
Proof.
  cbv zeta. split; [reflexivity |]. split; [reflexivity |].
  exact (proj1 (title_replaces_the_placeholder Sample.runtime
                  (DirectoryIndex.mk "/docs/api" [] "2024-01-01T00:00:00.000Z")
                  "" "Index of " " - {path}" eq_refl eq_refl)).
Defined.

(** Property X20.  The document shows every entry of the index: it holds the row
    of each of them. *)
Theorem document_has_a_row_for_every_entry rt index stylesheet titleTemplate entry :
  In entry (DirectoryIndex.entries index) ->
  Str.includes (entryRow rt entry) (generateHtml rt index stylesheet titleTemplate) = true.
Proof.
  intros H. unfold generateHtml. cbv zeta.
  eapply TitleFacts.includes_concat; [do 20 right; left; reflexivity |].
  apply StrFacts.includes_app_r.
  eapply TitleFacts.includes_concat; [apply in_map, H | apply TitleFacts.includes_self].
Qed.

Lemma document_has_a_row_for_every_entry_witness :
  let entry := FileEntry.mk "a<b.txt" file (Some 1536%Z) None "docs/a<b.txt" in
  let index := DirectoryIndex.mk "/docs" [entry] "2024-01-01T00:00:00.000Z" in
  In entry (DirectoryIndex.entries index)
  /\ Str.includes (entryRow Sample.runtime entry)
       (generateHtml Sample.runtime index "" "Index of {path}") = true.
Proof.
  cbv zeta. split; [now left |].
  apply (document_has_a_row_for_every_entry Sample.runtime
           (DirectoryIndex.mk "/docs"
              [FileEntry.mk "a<b.txt" file (Some 1536%Z) None "docs/a<b.txt"]
              "2024-01-01T00:00:00.000Z")).
  now left.
Defined.

(** ** Paths *)

Section PathsOfIndexes.

Variable rt : Runtime.
Variable rootDir : string.
Variable ignorePatterns : list string.
Variable includeMetadata : bool.

Lemma makeEntry_path itemPath itemRelativePath item :
  FileEntry.path (makeEntry rt includeMetadata itemPath itemRelativePath item)
  = itemRelativePath.
Proof. destruct item, includeMetadata; reflexivity. Qed.

(** An entry of the index of a directory is the entry of one of the
    children the loop lists. *)
Lemma entry_of_indexOf d items tick entry :
  In entry (DirectoryIndex.entries
              (indexOf rt rootDir ignorePatterns includeMetadata (d, items) tick)) ->
  exists item,
    In item items
    /\ listed rt rootDir ignorePatterns d item = true
    /\ entry = makeEntry rt includeMetadata (Path.join d (nodeName item))
                 (itemRelativePath rootDir d item) item.
Proof.
  cbn [indexOf DirectoryIndex.entries fst snd]. rewrite sort_In. unfold entriesOf.
  rewrite in_map_iff. intros (item & <- & Hin). apply filter_In in Hin.
  exists item. tauto.
Qed.

Lemma indexOf_path_not_root v tick :
  String.eqb (DirectoryIndex.path
                (indexOf rt rootDir ignorePatterns includeMetadata v tick)) "/" = false.
Proof.
  rewrite indexOf_path. unfold relativePathOf.
  pose proof (StrFacts.orElse_not_empty (Path.relative rootDir (fst v)) "/" eq_refl) as H.
  destruct (Str.orElse (Path.relative rootDir (fst v)) "/"); [discriminate | reflexivity].
Qed.

End PathsOfIndexes.

(** Property X21.  No index a walk assembles has the path made of a single
    slash, the one path for which the renderer leaves out the row that
    links to the parent directory: every document of a walk holds that
    row. *)
Theorem every_document_has_the_parent_row
  rt rootDir ignorePatterns outputFormat stylesheet includeMetadata titleTemplate
  dir node w d index :
  In (d, index)
     (produced (walkAndGenerate rt rootDir ignorePatterns outputFormat stylesheet
                  includeMetadata titleTemplate dir node) w) ->
  String.eqb (DirectoryIndex.path index) "/" = false
  /\ Str.startsWith "/" (DirectoryIndex.path index) = true
  /\ Str.includes parentRow (generateHtml rt index stylesheet titleTemplate) = true.
Proof.
  intros Hin. apply produced_indexOf in Hin. destruct Hin as (items & tick & _ & ->).
  pose proof (indexOf_path_not_root rt rootDir ignorePatterns includeMetadata
                (d, items) tick) as Hp.
  split; [exact Hp |]. split.
  - now rewrite indexOf_path.
  - unfold generateHtml. rewrite Hp. cbv zeta.
    eapply TitleFacts.includes_concat; [do 20 right; left; reflexivity |].
    apply StrFacts.includes_prefix.
Qed.

Lemma every_document_has_the_parent_row_witness :
  let walk := walkAndGenerate Sample.runtime "/site" [] "html" "" true
                "Index of {path}" "/site" Sample.tree in
  let index := snd (last (produced walk initialWorld) ("", DirectoryIndex.mk "" [] "")) in
  In ("/site", index) (produced walk initialWorld)
  /\ DirectoryIndex.path index = "//"
  /\ Str.includes parentRow (generateHtml Sample.runtime index "" "Index of {path}") = true.
Proof.
  cbv zeta. split; [vm_compute; auto |]. split; [reflexivity |].
  apply (every_document_has_the_parent_row Sample.runtime "/site" [] "html" "" true
           "Index of {path}" "/site" Sample.tree initialWorld "/site").
  vm_compute. auto.
Defined.

(** Property X22.  Under a root that [path.resolve] returned, in a tree of
    names [readdir] can return, the paths follow the tree: a directory
    with an index lies below the root, at the end of some segments; the path
    of its index is a slash followed by these segments joined by slashes
    (by a slash alone for the root); and the path of each of its entries is
    these segments and the name of the entry joined by slashes, without a
    slash in front. *)
Theorem paths_follow_the_tree
  rt rootDir ignorePatterns outputFormat stylesheet includeMetadata titleTemplate
  node w d index :
  Path.clean rootDir = true ->
  validItems node = true ->
  In (d, index)
     (produced (walkAndGenerate rt rootDir ignorePatterns outputFormat stylesheet
                  includeMetadata titleTemplate rootDir node) w) ->
  exists rel,
    Path.below rootDir d rel
    /\ DirectoryIndex.path index
       = ("/" ++ Str.orElse (String.concat "/" rel) "/")%string
    /\ forall entry,
         In entry (DirectoryIndex.entries index) ->
         FileEntry.path entry = String.concat "/" (rel ++ [FileEntry.name entry]).
Proof.
  intros Hc Hv Hin. apply produced_indexOf in Hin.
  destruct Hin as (items & tick & Hvis & ->).
  destruct (visited_below rt rootDir ignorePatterns node rootDir []
              (PathFacts.below_root rootDir Hc) Hv d items Hvis) as (rel & Hb & Hn).
  exists rel. split; [exact Hb |]. split.
  - rewrite indexOf_path. unfold relativePathOf. cbn [fst].
    now rewrite (PathFacts.relative_below _ _ _ Hb).
  - intros entry He. apply entry_of_indexOf in He.
    destruct He as (item & Hitem & _ & ->).
    rewrite makeEntry_path, makeEntry_name. unfold itemRelativePath.
    apply PathFacts.relative_below, PathFacts.below_join; auto.
Qed.

Lemma paths_follow_the_tree_witness :
  let tree :=
    Directory "site"
      [ Directory "docs" [ File "guide.md" 10 1000; Directory "api" [] ] ] in
  let walk := walkAndGenerate Sample.runtime "/srv/site" [] "json" "" false
                "Index of {path}" "/srv/site" tree in
  Path.clean "/srv/site" = true
  /\ validItems tree = true
  /\ map (fun di => (fst di, DirectoryIndex.path (snd di),
                     map FileEntry.path (DirectoryIndex.entries (snd di))))
         (produced walk initialWorld)
     = [ ("/srv/site/docs/api", "/docs/api", []);
         ("/srv/site/docs", "/docs", ["docs/api"; "docs/guide.md"]);
         ("/srv/site", "//", ["docs"]) ]
  /\ exists rel,
       Path.below "/srv/site" "/srv/site/docs" rel
       /\ (forall index,
              In ("/srv/site/docs", index) (produced walk initialWorld) ->
              DirectoryIndex.path index
              = ("/" ++ Str.orElse (String.concat "/" rel) "/")%string).
Proof.
  cbv zeta. split; [reflexivity |]. split; [reflexivity |]. split; [reflexivity |].
  exists ["docs"]. split; [split; reflexivity |].
  intros index Hin.
  destruct (paths_follow_the_tree Sample.runtime "/srv/site" [] "json" "" false
              "Index of {path}"
              (Directory "site"
                 [ Directory "docs" [ File "guide.md" 10 1000; Directory "api" [] ] ])
              initialWorld "/srv/site/docs" index eq_refl eq_refl Hin)
    as (rel & [_ Hs] & Hp & _).
  rewrite Hp. vm_compute in Hs. now injection Hs as <-.
Defined.
